(** * chooks-agent: channel adapter, CLI session loop and watchdog

    A shallow embedding of the parts of the repository that the
    orchestration properties talk about:

    - [src/channels/slack.ts]  (module [Slack]): the Slack DM channel;
    - the CLI chat loop        (module [Chat]): IPC mailbox poll, cleanup
      on exit and the per-line agent invocation;
    - the watchdog shell script (module [Watchdog]): container reaper and
      heartbeat staleness check.

    JavaScript strings are sequences of UTF-16 code units; effects are
    threaded through a small state-and-exception monad whose state carries
    the trace of observable events. *)

From Stdlib Require Import ZArith Ascii String.
From stdpp Require Import base numbers list option gmap.

Set Warnings "-register-all".

Local Open Scope Z_scope.
Local Open Scope nat_scope.

(* ===================================================================== *)
(** ** JavaScript strings                                                 *)
(* ===================================================================== *)

Module JS.

(** A string is its sequence of UTF-16 code units; [length] and [slice]
    count code units, as [String.prototype.length] and [slice] do. *)
Abbreviation jsstring := (list N).

(** A literal, written with ASCII characters. *)
Definition js (s : string) : jsstring :=
  List.map N_of_ascii (list_ascii_of_string s).

(** [Boolean(s)] for a string: the empty string is the only falsy one. *)
Definition truthy (s : jsstring) : bool :=
  match s with [] => false | _ :: _ => true end.

(** Truthiness of a property that is either [undefined] or a string. *)
Definition truthy_opt (o : option jsstring) : bool :=
  match o with None => false | Some s => truthy s end.

Definition eqb (a b : jsstring) : bool := bool_decide (a = b).

(** [a || b] where [a] is [undefined] or a string. *)
Definition or_else (a : option jsstring) (b : jsstring) : jsstring :=
  match a with
  | Some x => if truthy x then x else b
  | None => b
  end.

(** [s.slice(b, e)] for non-negative integer arguments. *)
Definition slice (s : jsstring) (b e : nat) : jsstring :=
  take (e - b) (drop b s).

(** [s.startsWith(p)] *)
Fixpoint startsWith (s p : jsstring) : bool :=
  match p, s with
  | [], _ => true
  | _ :: _, [] => false
  | a :: p', b :: s' => if N.eqb a b then startsWith s' p' else false
  end.

(** [s.endsWith(p)] *)
Definition endsWith (s p : jsstring) : bool :=
  startsWith (rev s) (rev p).

(** [s.replace(/^p/, '')] for a literal prefix [p]. *)
Definition strip_prefix (p s : jsstring) : jsstring :=
  if startsWith s p then drop (length p) s else s.

(** WhiteSpace and LineTerminator code units of ECMAScript, the ones
    [String.prototype.trim] removes. *)
Definition is_space (c : N) : bool :=
  (   N.eqb c 9 || N.eqb c 10 || N.eqb c 11 || N.eqb c 12 || N.eqb c 13
   || N.eqb c 32 || N.eqb c 160 || N.eqb c 5760
   || (N.leb 8192 c && N.leb c 8202)
   || N.eqb c 8232 || N.eqb c 8233 || N.eqb c 8239 || N.eqb c 8287
   || N.eqb c 12288 || N.eqb c 65279)%N.

Fixpoint trimStart (s : jsstring) : jsstring :=
  match s with
  | [] => []
  | c :: r => if is_space c then trimStart r else s
  end.

Definition trimEnd (s : jsstring) : jsstring := rev (trimStart (rev s)).

(** [s.trim()] *)
Definition trim (s : jsstring) : jsstring := trimEnd (trimStart s).

Definition open_tag : jsstring := js "<internal>".
Definition close_tag : jsstring := js "</internal>".

(** The lazy [[\s\S]*?<\/internal>] part of the pattern: the text that
    follows the first closing tag, if there is one. *)
Fixpoint after_close (s : jsstring) : option jsstring :=
  if startsWith s close_tag then Some (drop (length close_tag) s)
  else match s with
       | [] => None
       | _ :: r => after_close r
       end.

(** [s.replace(/<internal>[\s\S]*?<\/internal>/g, '')]: scan from the
    left; at an opening tag that has a closing tag after it, drop
    everything up to and including the first such closing tag and go on
    after it.  The scan consumes at least one code unit a step, so
    [length s] steps are enough. *)
Fixpoint strip_internal_from (fuel : nat) (s : jsstring) : jsstring :=
  match fuel, s with
  | _, [] => []
  | 0, _ => s
  | S fuel', c :: r =>
      if startsWith s open_tag then
        match after_close (drop (length open_tag) s) with
        | Some rest => strip_internal_from fuel' rest
        | None => c :: strip_internal_from fuel' r
        end
      else c :: strip_internal_from fuel' r
  end.

Definition strip_internal (s : jsstring) : jsstring :=
  strip_internal_from (length s) s.

(** What both the mailbox poll and the streaming callback print:
    [raw.replace(/<internal>[\s\S]*?<\/internal>/g, '').trim()]. *)
Definition visible_text (raw : jsstring) : jsstring :=
  trim (strip_internal raw).

End JS.

Export JS.

(* ===================================================================== *)
(** ** A state-and-exception monad with an event trace                    *)
(* ===================================================================== *)

Module Eff.

(** JavaScript error values that the modelled code can raise or see. *)
Inductive exn : Type :=
| TypeError (what : string)
| RangeError (what : string)
| SyntaxError (what : string)
| Failure (what : string).     (* a rejected promise or failed syscall *)

(** [err instanceof Error ? err.message : String(err)] *)
Definition message (e : exn) : string :=
  match e with
  | TypeError w | RangeError w | SyntaxError w | Failure w => w
  end.

(** How a computation ends: normally, by a throw (a rejected promise
    for an [async] function), or [Stuck] when a loop ran out of the
    fuel it was given. *)
Inductive outcome (A : Type) : Type :=
| Ok (a : A)
| Throw (e : exn)
| Stuck.
Arguments Ok {A} a.
Arguments Throw {A} e.
Arguments Stuck {A}.

Definition M (S A : Type) : Type := S -> outcome A * S.

Definition ret {S A} (a : A) : M S A := fun s => (Ok a, s).

Definition bind {S A B} (m : M S A) (k : A -> M S B) : M S B :=
  fun s =>
    match m s with
    | (Ok a, s') => k a s'
    | (Throw e, s') => (Throw e, s')
    | (Stuck, s') => (Stuck, s')
    end.

Definition throw {S A} (e : exn) : M S A := fun s => (Throw e, s).
Definition stuck {S A} : M S A := fun s => (Stuck, s).

(** [try { m } catch (e) { h e }] *)
Definition try_catch {S A} (m : M S A) (h : exn -> M S A) : M S A :=
  fun s =>
    match m s with
    | (Throw e, s') => h e s'
    | r => r
    end.

Definition get {S} : M S S := fun s => (Ok s, s).
Definition modify {S} (f : S -> S) : M S unit := fun s => (Ok tt, f s).

(** [for (const x of l) body(x)] *)
Fixpoint for_each {S A} (l : list A) (body : A -> M S unit) : M S unit :=
  match l with
  | [] => ret tt
  | x :: l' => bind (body x) (fun _ => for_each l' body)
  end.

(** The outcome of a computation from a state, and the state it leaves. *)
Definition result {S A} (m : M S A) (s : S) : outcome A := fst (m s).
Definition final {S A} (m : M S A) (s : S) : S := snd (m s).

End Eff.

Export Eff.

Notation "'let*' x ':=' m 'in' k" := (Eff.bind m (fun x => k))
  (at level 10, x name, m at level 100, k at level 200, only parsing).
Notation "m '>>' k" := (Eff.bind m (fun _ => k))
  (at level 90, right associativity, only parsing).

(* ===================================================================== *)
(** ** src/channels/slack.ts                                              *)
(* ===================================================================== *)

Module Slack.

(** Modelled from the spec: [RegisteredGroup] of [types.ts], which is not
    among the sources at hand.  The channel only tests whether a JID has
    an entry. *)
Record RegisteredGroup := {
  group_name : jsstring;
  folder : jsstring;
  trigger : jsstring;
  added_at : jsstring;
}.

(** The normalized inbound message handed to [onMessage]. *)
Record NewMessage := {
  id : option jsstring;
  chat_jid : jsstring;
  sender : jsstring;
  sender_name : jsstring;
  content : jsstring;
  timestamp : jsstring;
  is_from_me : bool;
}.

(** The fields of a Bolt message event that the handler reads
    ([message as any]); [None] is [undefined]. *)
Record Message := {
  channel_type : option jsstring;
  subtype : option jsstring;
  user : option jsstring;
  text : option jsstring;
  ts : option jsstring;
}.

(** [result.user] of [users.info], with the three name fields. *)
Record UserInfo := {
  display_name : option jsstring;   (* user.profile?.display_name *)
  real_name : option jsstring;
  name : option jsstring;
}.

Inductive LookupReply :=
| LookupRejects (e : exn)
| LookupResolves (u : option UserInfo).

Inductive level := Debug | Info | Warn | Error.

(** Everything the channel does that is visible from outside it. *)
Inductive event :=
| PostMessage (channel text : jsstring)      (* app.client.chat.postMessage *)
| UsersInfo (user : jsstring)                (* app.client.users.info *)
| OnChatMetadata (jid timestamp name : jsstring)
| OnMessage (jid : jsstring) (m : NewMessage)
| AppStart
| AppStop
| Log (l : level) (msg : string).

(** The Bolt [App] created by [connect]. *)
Record App := { token : jsstring; appToken : jsstring }.

(** The behaviour of what lies outside the channel.  Transport calls are
    indexed by the number of events already in the trace, so any pattern
    of failures over a run can be expressed. *)
Record Env := {
  post_ok : nat -> bool;                    (* does chat.postMessage resolve? *)
  lookup_reply : nat -> jsstring -> LookupReply;
  start_ok : nat -> bool;
  stop_ok : nat -> bool;
  (* new Date(parseFloat(ts) * 1000).toISOString(); None: RangeError *)
  toISOString : jsstring -> option jsstring;
}.

(** The fields of a [SlackChannel], the current value returned by
    [opts.registeredGroups()], and the trace. *)
Record State := {
  app : option App;
  botToken : jsstring;
  appTokenField : jsstring;
  userNameCache : gmap jsstring jsstring;
  registeredGroups : gmap jsstring RegisteredGroup;
  trace : list event;
}.

Definition set_app (a : option App) (s : State) : State :=
  {| app := a; botToken := botToken s; appTokenField := appTokenField s;
     userNameCache := userNameCache s;
     registeredGroups := registeredGroups s; trace := trace s |}.

Definition set_cache (c : gmap jsstring jsstring) (s : State) : State :=
  {| app := app s; botToken := botToken s; appTokenField := appTokenField s;
     userNameCache := c;
     registeredGroups := registeredGroups s; trace := trace s |}.

Definition push (e : event) (s : State) : State :=
  {| app := app s; botToken := botToken s; appTokenField := appTokenField s;
     userNameCache := userNameCache s;
     registeredGroups := registeredGroups s; trace := trace s ++ [e] |}.

(** The state after the events [es] have been appended to the trace. *)
Definition pushes (es : list event) (s : State) : State :=
  {| app := app s; botToken := botToken s; appTokenField := appTokenField s;
     userNameCache := userNameCache s;
     registeredGroups := registeredGroups s; trace := trace s ++ es |}.

Definition emit (e : event) : M State unit := modify (push e).
Definition log (l : level) (msg : string) : M State unit := emit (Log l msg).

(** [new SlackChannel(botToken, appToken, opts)] *)
Definition constructor (bot apptok : jsstring)
    (groups : gmap jsstring RegisteredGroup) : State :=
  {| app := None; botToken := bot; appTokenField := apptok;
     userNameCache := ∅; registeredGroups := groups; trace := [] |}.

Definition MAX_LENGTH : nat := 4000.

Section WithEnv.
Variable env : Env.

(** [await this.app.client.chat.postMessage({ channel, text })] *)
Definition postMessage (channel text : jsstring) : M State unit :=
  let* s := get in
  emit (PostMessage channel text) >>
  if post_ok env (length (trace s)) then ret tt
  else throw (Failure "chat.postMessage").

(** [await this.app!.client.users.info({ user })]; [this.app!] is a
    property access on [null] when the channel is not connected. *)
Definition users_info (userId : jsstring) : M State (option UserInfo) :=
  let* s := get in
  match app s with
  | None => throw (TypeError "Cannot read properties of null")
  | Some _ =>
      emit (UsersInfo userId) >>
      match lookup_reply env (length (trace s)) userId with
      | LookupRejects e => throw e
      | LookupResolves u => ret u
      end
  end.

(** [user?.profile?.display_name || user?.real_name || user?.name || userId] *)
Definition pick_name (u : option UserInfo) (userId : jsstring) : jsstring :=
  match u with
  | None => userId
  | Some u =>
      or_else (display_name u) (or_else (real_name u) (or_else (name u) userId))
  end.

(** The [try { ... } catch (err) { ... }] block of [resolveUserName],
    reached on a cache miss. *)
Definition fetchUserName (userId : jsstring) : M State jsstring :=
  try_catch
    (let* u := users_info userId in
     let name := pick_name u userId in
     modify (fun s => set_cache (<[userId := name]> (userNameCache s)) s) >>
     ret name)
    (fun err => log Debug "Failed to fetch Slack user info" >> ret userId).

Definition resolveUserName (userId : jsstring) : M State jsstring :=
  let* s := get in
  match userNameCache s !! userId with
  | Some cached =>
      if truthy cached then ret cached else fetchUserName userId
  | None => fetchUserName userId
  end.

(** The listener registered by [connect] with [this.app.message]. *)
Definition on_message (msg : Message) : M State unit :=
  (* Only handle DMs *)
  if negb (bool_decide (channel_type msg = Some (js "im"))) then ret tt else
  (* Skip bot messages, edits, and other subtypes *)
  if truthy_opt (subtype msg) then ret tt else
  match user msg with
  | None => ret tt
  | Some userId =>
      if negb (truthy userId) then ret tt else
      let chatJid := js "slack:" ++ userId in
      let* timestamp :=
        match ts msg ≫= toISOString env with
        | Some t => ret t
        | None => throw (RangeError "Invalid time value")
        end in
      let content := or_else (text msg) [] in
      let msgId := ts msg in
      let* senderName := resolveUserName userId in
      emit (OnChatMetadata chatJid timestamp senderName) >>
      let* s := get in
      match registeredGroups s !! chatJid with
      | None => log Debug "Message from unregistered Slack DM"
      | Some group =>
          emit (OnMessage chatJid
                  {| id := msgId; chat_jid := chatJid; sender := userId;
                     sender_name := senderName; content := content;
                     timestamp := timestamp; is_from_me := false |}) >>
          log Info "Slack message stored"
      end
  end.

Definition connect : M State unit :=
  let* s := get in
  modify (set_app (Some {| token := botToken s; appToken := appTokenField s |})) >>
  emit AppStart >>
  (if start_ok env (length (trace s)) then ret tt
   else throw (Failure "app.start")) >>
  log Info "Slack bot connected".

(** The [for (let i = 0; i < text.length; i += MAX_LENGTH)] loop of
    [sendMessage], entered at index [i]. *)
Fixpoint send_chunks (fuel : nat) (channel text : jsstring) (i : nat)
    : M State unit :=
  if i <? length text then
    match fuel with
    | 0 => stuck
    | S fuel' =>
        postMessage channel (slice text i (i + MAX_LENGTH)) >>
        send_chunks fuel' channel text (i + MAX_LENGTH)
    end
  else ret tt.

(** The arguments of the [text.slice(i, i + MAX_LENGTH)] calls of
    that loop: the loop without its effects. *)
Fixpoint slices (fuel : nat) (text : jsstring) (i : nat)
    : list jsstring :=
  if i <? length text then
    match fuel with
    | 0 => []
    | S fuel' =>
        slice text i (i + MAX_LENGTH) :: slices fuel' text (i + MAX_LENGTH)
    end
  else [].

Definition sendMessage (jid text : jsstring) : M State unit :=
  let* s := get in
  match app s with
  | None => log Warn "Slack app not initialized"
  | Some _ =>
      try_catch
        (let channel := strip_prefix (js "slack:") jid in
         (if length text <=? MAX_LENGTH then postMessage channel text
          else send_chunks (length text) channel text 0) >>
         log Info "Slack message sent")
        (fun err => log Error "Failed to send Slack message")
  end.

Definition isConnected (s : State) : bool :=
  match app s with Some _ => true | None => false end.

Definition ownsJid (jid : jsstring) : bool := startsWith jid (js "slack:").

Definition disconnect : M State unit :=
  let* s := get in
  match app s with
  | None => ret tt
  | Some _ =>
      emit AppStop >>
      (if stop_ok env (length (trace s)) then ret tt
       else throw (Failure "app.stop")) >>
      modify (set_app None) >>
      log Info "Slack bot stopped"
  end.

Definition setTyping (_jid : jsstring) (_isTyping : bool) : M State unit :=
  ret tt.

End WithEnv.

(** The texts handed to the transport, in call order. *)
Definition posted_texts (tr : list event) : list jsstring :=
  omap (fun e => match e with PostMessage _ t => Some t | _ => None end) tr.

Definition posted_channels (tr : list event) : list jsstring :=
  omap (fun e => match e with PostMessage c _ => Some c | _ => None end) tr.

(** The calls into the [opts] collaborators, in order. *)
Definition is_callback (e : event) : bool :=
  match e with
  | OnChatMetadata _ _ _ | OnMessage _ _ => true
  | _ => false
  end.

Definition callbacks (tr : list event) : list event :=
  List.filter is_callback tr.

(** The events a computation appended to the trace it started from. *)
Definition emitted {A} (m : M State A) (s : State) : list event :=
  drop (length (trace s)) (trace (final m s)).

(** Does an inbound event pass the filters of the listener? *)
Definition passes_filters (msg : Message) : bool :=
  bool_decide (channel_type msg = Some (js "im"))
  && negb (truthy_opt (subtype msg))
  && truthy_opt (user msg).

End Slack.

(* ===================================================================== *)
(** ** The CLI chat loop                                                  *)
(* ===================================================================== *)

Module Chat.

(** A value produced by [JSON.parse].  Numbers matter to the code only
    through their truthiness, so an integer payload is enough. *)
Inductive json :=
| JNull
| JBool (b : bool)
| JNum (z : Z)
| JStr (s : jsstring)
| JArr (items : list json)
| JObj (fields : list (jsstring * json)).

(** The contents of a mailbox file, by what [JSON.parse] makes of them:
    text it rejects with a [SyntaxError], or text it maps to a value. *)
Inductive FileBody :=
| Malformed (raw : jsstring)
| Parses (v : json).

(** [proc.killed] and whether the child has a [stdin] stream. *)
Record ChildProcess := { killed : bool; has_stdin : bool }.

Inductive Status := Success | Failed.

(** [result.result]: [null], a string, or another truthy value given by
    its [JSON.stringify] rendering. *)
Inductive ResultValue :=
| RNull
| RString (s : jsstring)
| ROther (stringified : jsstring).

(** [ContainerOutput] of [container-runner.ts]: the fields that the loop
    reads. *)
Record ContainerOutput := {
  status : Status;
  result : ResultValue;
  newSessionId : option jsstring;
  error : option jsstring;
}.

Inductive event :=
| ConsoleLog (line : jsstring)
| ConsoleError (line : jsstring)
| Prompt                                   (* rl.prompt() *)
| Unlink (file : jsstring)                 (* fs.unlinkSync *)
| SetSession (folder token : jsstring)     (* db.setSession *)
| WriteTasksSnapshot
| WriteGroupsSnapshot
| RunContainerAgent (sessionId : option jsstring)
| ClearInterval
| StdinWrite (data : jsstring)
| StdinEnd
| ContainerStop (name : jsstring)          (* execSync(`container stop ...`) *)
| Exit (code : Z).

(** How one sandbox invocation goes: whether the launch is confirmed,
    the outputs streamed while it runs, and how it ends. *)
Inductive AgentFinish :=
| Resolves (output : ContainerOutput)
| Rejects (e : exn).

Record AgentRun := {
  launched : option (ChildProcess * jsstring);
  streamed : list ContainerOutput;
  finish : AgentFinish;
}.

(** What lies outside the loop: configuration, and which of the
    best-effort system calls of [cleanup] throw. *)
Record Env := {
  ASSISTANT_NAME : jsstring;
  groupFolder : jsstring;
  stdin_write_ok : bool;
  stdin_end_ok : bool;
  container_stop_ok : jsstring -> bool;
}.

Record State := {
  (* ipcMessagesDir: None when the directory does not exist *)
  mailbox : option (gmap jsstring FileBody);
  sessions : gmap jsstring jsstring;       (* const sessions = getAllSessions() *)
  db_sessions : gmap jsstring jsstring;    (* the persisted sessions table *)
  activeProcess : option ChildProcess;
  activeContainerName : option jsstring;
  trace : list event;
}.

Definition set_mailbox (m : option (gmap jsstring FileBody)) (s : State) :=
  {| mailbox := m; sessions := sessions s; db_sessions := db_sessions s;
     activeProcess := activeProcess s;
     activeContainerName := activeContainerName s; trace := trace s |}.

Definition set_sessions (m : gmap jsstring jsstring) (s : State) :=
  {| mailbox := mailbox s; sessions := m; db_sessions := db_sessions s;
     activeProcess := activeProcess s;
     activeContainerName := activeContainerName s; trace := trace s |}.

Definition set_db_sessions (m : gmap jsstring jsstring) (s : State) :=
  {| mailbox := mailbox s; sessions := sessions s; db_sessions := m;
     activeProcess := activeProcess s;
     activeContainerName := activeContainerName s; trace := trace s |}.

Definition set_active (p : option ChildProcess) (n : option jsstring)
    (s : State) :=
  {| mailbox := mailbox s; sessions := sessions s;
     db_sessions := db_sessions s;
     activeProcess := p; activeContainerName := n; trace := trace s |}.

Definition push (e : event) (s : State) :=
  {| mailbox := mailbox s; sessions := sessions s;
     db_sessions := db_sessions s;
     activeProcess := activeProcess s;
     activeContainerName := activeContainerName s;
     trace := trace s ++ [e] |}.

(** The state after the events [es] have been appended to the trace. *)
Definition pushes (es : list event) (s : State) :=
  {| mailbox := mailbox s; sessions := sessions s;
     db_sessions := db_sessions s;
     activeProcess := activeProcess s;
     activeContainerName := activeContainerName s;
     trace := trace s ++ es |}.

Definition emit (e : event) : M State unit := modify (push e).

(** *** File system and JSON primitives *)

(** [fs.readdirSync(ipcMessagesDir)], in directory-listing order. *)
Definition readdirSync : M State (list jsstring) :=
  let* s := get in
  match mailbox s with
  | None => throw (Failure "ENOENT")
  | Some dir => ret (map_to_list dir).*1
  end.

(** [fs.readFileSync(filePath, 'utf-8')] *)
Definition readFileSync (file : jsstring) : M State FileBody :=
  let* s := get in
  match mailbox s ≫= (fun dir => dir !! file) with
  | None => throw (Failure "ENOENT")
  | Some body => ret body
  end.

(** [fs.unlinkSync(filePath)] *)
Definition unlinkSync (file : jsstring) : M State unit :=
  let* s := get in
  match mailbox s with
  | None => throw (Failure "ENOENT")
  | Some dir =>
      match dir !! file with
      | None => throw (Failure "ENOENT")
      | Some _ =>
          modify (set_mailbox (Some (delete file dir))) >> emit (Unlink file)
      end
  end.

Definition JSON_parse (body : FileBody) : M State json :=
  match body with
  | Malformed _ => throw (SyntaxError "JSON.parse")
  | Parses v => ret v
  end.

Fixpoint assoc (key : jsstring) (fields : list (jsstring * json))
    : option json :=
  match fields with
  | [] => None
  | (k, v) :: rest => if JS.eqb k key then Some v else assoc key rest
  end.

(** [data.type] and [data.text]: reading a property of [null] throws;
    a primitive or an array has neither property; [None] is
    [undefined]. *)
Definition get_prop (data : json) (key : jsstring) : M State (option json) :=
  match data with
  | JNull => throw (TypeError "Cannot read properties of null")
  | JObj fields => ret (assoc key fields)
  | _ => ret None
  end.

(** [Boolean(v)] *)
Definition truthy_value (v : option json) : bool :=
  match v with
  | None => false
  | Some JNull => false
  | Some (JBool b) => b
  | Some (JNum z) => negb (Z.eqb z 0)
  | Some (JStr s) => truthy s
  | Some (JArr _) => true
  | Some (JObj _) => true
  end.

(** [v === 'message'] *)
Definition is_message (v : option json) : bool :=
  match v with
  | Some (JStr s) => JS.eqb s (js "message")
  | _ => false
  end.

(** [v.replace(/<internal>[\s\S]*?<\/internal>/g, '').trim()]: only a
    string has a [replace] method. *)
Definition replace_and_trim (v : option json) : M State jsstring :=
  match v with
  | Some (JStr s) => ret (visible_text s)
  | None => throw (TypeError "Cannot read properties of undefined")
  | Some _ => throw (TypeError "data.text.replace is not a function")
  end.

Section WithEnv.
Variable env : Env.

(** [`\n${ASSISTANT_NAME}: ${text}`] *)
Definition reply_line (text : jsstring) : jsstring :=
  js (String "010" EmptyString) ++ ASSISTANT_NAME env ++ js ": " ++ text.

(** *** The IPC message watcher (the [setInterval] callback) *)

(** The body of [for (const file of files)], with its [try]/[catch]. *)
Definition poll_file (file : jsstring) : M State unit :=
  try_catch
    (let* body := readFileSync file in
     let* data := JSON_parse body in
     let* type := get_prop data (js "type") in
     (if is_message type then
        let* raw := get_prop data (js "text") in
        if truthy_value raw then
          let* text := replace_and_trim raw in
          if truthy text then
            emit (ConsoleLog (reply_line text)) >> emit Prompt
          else ret tt
        else ret tt
      else ret tt) >>
     unlinkSync file)
    (fun _ => ret tt (* Skip malformed files *)).

(** The loop body on a file with contents [body], without the state:
    [None] when an exception leaves the file where it is, otherwise
    the events up to and including the deletion of the file. *)
Definition poll_events (file : jsstring) (body : FileBody)
    : option (list event) :=
  match body with
  | Malformed _ => None
  | Parses JNull => None
  | Parses (JObj fields) =>
      if is_message (assoc (js "type") fields) then
        match assoc (js "text") fields with
        | Some (JStr t) =>
            if truthy (visible_text t) && truthy t
            then Some [ConsoleLog (reply_line (visible_text t)); Prompt;
                       Unlink file]
            else Some [Unlink file]
        | v => if truthy_value v then None else Some [Unlink file]
        end
      else Some [Unlink file]
  | Parses _ => Some [Unlink file]
  end.

(** The [.json] files of a directory, in listing order. *)
Definition json_files (dir : gmap jsstring FileBody) : list jsstring :=
  List.filter (fun f => endsWith f (js ".json")) (map_to_list dir).*1.

(** The events of the file named [file] in a pass over [dir]. *)
Definition file_events (dir : gmap jsstring FileBody) (file : jsstring)
    : list event :=
  default [] (dir !! file ≫= poll_events file).

Definition ipc_poll : M State unit :=
  try_catch
    (let* names := readdirSync in
     let files := List.filter (fun f => endsWith f (js ".json")) names in
     for_each files poll_file)
    (fun _ => ret tt (* Directory may not exist yet *)).

(** *** Cleanup on exit *)

(** [activeProcess.stdin?.write('\n_close\n')] *)
Definition stdin_write (p : ChildProcess) (data : jsstring) : M State unit :=
  if has_stdin p then
    emit (StdinWrite data) >>
    if stdin_write_ok env then ret tt else throw (Failure "stdin.write")
  else ret tt.

(** [activeProcess.stdin?.end()] *)
Definition stdin_end (p : ChildProcess) : M State unit :=
  if has_stdin p then
    emit StdinEnd >>
    if stdin_end_ok env then ret tt else throw (Failure "stdin.end")
  else ret tt.

(** [execSync(`container stop ${name}`, ...)] *)
Definition container_stop (name : jsstring) : M State unit :=
  emit (ContainerStop name) >>
  if container_stop_ok env name then ret tt
  else throw (Failure "container stop").

Definition close_sentinel : jsstring :=
  js (String "010" "_close" ++ String "010" EmptyString).

Definition cleanup : M State unit :=
  emit ClearInterval >>
  let* s := get in
  (match activeProcess s with
   | Some p =>
       if negb (killed p) then
         (* Write _close sentinel to trigger graceful shutdown *)
         try_catch
           (stdin_write p close_sentinel >> stdin_end p)
           (fun _ => ret tt (* Process may already be gone *)) >>
         (* Also stop the container directly *)
         match activeContainerName s with
         | Some name =>
             if truthy name then
               try_catch (container_stop name)
                         (fun _ => ret tt (* Best effort *))
             else ret tt
         | None => ret tt
         end
       else ret tt
   | None => ret tt
   end) >>
  emit (Exit 0).

(** *** One agent turn *)

Definition error_line (msg : jsstring) : jsstring :=
  js (String "010" "[Error: ") ++ msg ++ js "]".

(** Modelled from the spec: [setSession(folder, token)] of [db.ts]
    stores one token per folder and overwrites the previous one. *)
Definition setSession (folder token : jsstring) : M State unit :=
  modify (fun s => set_db_sessions (<[folder := token]> (db_sessions s)) s) >>
  emit (SetSession folder token).

(** [if (o.newSessionId) { sessions[groupFolder] = ...; setSession(...) }] *)
Definition update_session (o : ContainerOutput) : M State unit :=
  match newSessionId o with
  | Some tok =>
      if truthy tok then
        modify (fun s =>
          set_sessions (<[groupFolder env := tok]> (sessions s)) s) >>
        setSession (groupFolder env) tok
      else ret tt
  | None => ret tt
  end.

(** The state once the token [tok] has been recorded for the folder: in
    the in-memory table, in the database, and in the trace. *)
Definition recorded (tok : jsstring) (s : State) : State :=
  {| mailbox := mailbox s;
     sessions := <[groupFolder env := tok]> (sessions s);
     db_sessions := <[groupFolder env := tok]> (db_sessions s);
     activeProcess := activeProcess s;
     activeContainerName := activeContainerName s;
     trace := trace s ++ [SetSession (groupFolder env) tok] |}.

(** The reply that [on_output] prints for a streamed output, if any. *)
Definition printed (r : ContainerOutput) : list event :=
  match result r with
  | RNull => []
  | RString raw =>
      if truthy raw && truthy (visible_text raw)
      then [ConsoleLog (reply_line (visible_text raw))] else []
  | ROther stringified =>
      if truthy (visible_text stringified)
      then [ConsoleLog (reply_line (visible_text stringified))] else []
  end.

(** The streaming callback handed to [runContainerAgent]. *)
Definition on_output (r : ContainerOutput) : M State unit :=
  (* Update session on the fly *)
  update_session r >>
  match result r with
  | RNull => ret tt
  | RString s =>
      if truthy s then
        let text := visible_text s in
        if truthy text then emit (ConsoleLog (reply_line text)) else ret tt
      else ret tt
  | ROther stringified =>
      let text := visible_text stringified in
      if truthy text then emit (ConsoleLog (reply_line text)) else ret tt
  end.

(** What follows [await runContainerAgent(...)] inside the [try]: the
    final session update, then the error line of a failed turn. *)
Definition on_final (output : ContainerOutput) : M State unit :=
  update_session output >>
  match status output with
  | Failed =>
      emit (ConsoleError
              (error_line (or_else (error output) (js "Unknown error"))))
  | Success => ret tt
  end.

(** The launch callback handed to [runContainerAgent]. *)
Definition on_process (proc : ChildProcess) (containerName : jsstring)
    : M State unit :=
  modify (set_active (Some proc) (Some containerName)).

(** Modelled from the spec: [runContainerAgent] of [container-runner.ts]
    is not among the sources at hand.  An invocation confirms the launch
    through [onProcess] (or fails before), forwards each streamed output
    through [onOutput] while it runs, and then resolves with the final
    output or rejects. *)
Definition runContainerAgent (run : AgentRun) (sessionId : option jsstring)
    : M State ContainerOutput :=
  emit (RunContainerAgent sessionId) >>
  (match launched run with
   | Some (proc, name) => on_process proc name
   | None => ret tt
   end) >>
  for_each (streamed run) on_output >>
  match finish run with
  | Resolves output => ret output
  | Rejects e => throw e
  end.

(** The [rl.on('line', ...)] handler for a line that is neither blank
    nor [exit]/[quit]; [run] is what the sandbox does this turn. *)
Definition turn (run : AgentRun) : M State unit :=
  emit WriteTasksSnapshot >>
  emit WriteGroupsSnapshot >>
  let* s := get in
  let sessionId := sessions s !! groupFolder env in
  try_catch
    (let* output := runContainerAgent run sessionId in
     on_final output)
    (fun err => emit (ConsoleError (error_line (js (message err))))) >>
  modify (set_active None None) >>
  emit (ConsoleLog []) >>
  emit Prompt.

(** The whole [rl.on('line', ...)] handler. *)
Definition on_line (line : jsstring) (run : AgentRun) : M State unit :=
  let input := trim line in
  if negb (truthy input) then emit Prompt
  else if JS.eqb input (js "exit") || JS.eqb input (js "quit") then cleanup
  else turn run.

End WithEnv.

(** The events a computation appended to the trace it started from. *)
Definition emitted {A} (m : M State A) (s : State) : list event :=
  drop (length (trace s)) (trace (final m s)).

(** The session token an output carries, if any. *)
Definition carried_token (o : ContainerOutput) : option jsstring :=
  match newSessionId o with
  | Some tok => if truthy tok then Some tok else None
  | None => None
  end.

(** The last token carried by a sequence of outputs. *)
Fixpoint last_token (outs : list ContainerOutput) : option jsstring :=
  match outs with
  | [] => None
  | o :: rest =>
      match last_token rest with
      | Some tok => Some tok
      | None => carried_token o
      end
  end.

(** A table of sessions after the outputs [outs] have been handled for
    [folder]: the last token carried, if any, has replaced the entry. *)
Definition with_last_token (folder : jsstring) (outs : list ContainerOutput)
    (table : gmap jsstring jsstring) : gmap jsstring jsstring :=
  match last_token outs with
  | Some tok => <[folder := tok]> table
  | None => table
  end.

(** What the user gets to see. *)
Definition is_surfaced (e : event) : bool :=
  match e with ConsoleLog _ | ConsoleError _ => true | _ => false end.

End Chat.

(* ===================================================================== *)
(** ** The watchdog script                                                *)
(* ===================================================================== *)

Module Watchdog.

Local Open Scope Z_scope.

Definition MAX_STALE_SECONDS : Z := 300.   (* 5 minutes without heartbeat *)
Definition max_age_seconds : Z := 3900.    (* 65 minutes *)

(** *** Shell arithmetic *)

(** [$(( ))] computes in 64-bit signed integers and wraps around. *)
Definition wrap64 (z : Z) : Z := (z + 2 ^ 63) mod 2 ^ 64 - 2 ^ 63.

Definition sub64 (a b : Z) : Z := wrap64 (a - b).
Definition mul64 (a b : Z) : Z := wrap64 (a * b).
(** [/] truncates toward zero. *)
Definition div64 (a b : Z) : Z := wrap64 (Z.quot a b).

(** [date +%s] on a clock that reads [now_ms] milliseconds since the
    epoch. *)
Definition date_seconds (now_ms : Z) : Z := now_ms / 1000.

Definition is_digit (c : ascii) : bool :=
  (48 <=? Z.of_N (N_of_ascii c)) && (Z.of_N (N_of_ascii c) <=? 57).

Definition digit_value (c : ascii) : Z := Z.of_N (N_of_ascii c) - 48.

(** The digits [ds] read in base [b] after the value [acc]; [None] when
    a digit is too great for the base. *)
Fixpoint read_base (b acc : Z) (ds : list ascii) : option Z :=
  match ds with
  | [] => Some acc
  | d :: rest =>
      if digit_value d <? b then read_base b (acc * b + digit_value d) rest
      else None
  end.

(** How an arithmetic expansion reads the text of an operand. *)
Inductive operand :=
| Value (z : Z)
| TooGreatForBase        (* "value too great for base" *)
| NotDigits.             (* anything but a string of digits: not modelled *)

(** A string of digits is a decimal constant, or an octal one when it
    starts with [0]; the value wraps around like any other. *)
Definition bash_number (s : string) : operand :=
  let ds := list_ascii_of_string s in
  if forallb is_digit ds then
    match ds with
    | [] => NotDigits
    | d :: rest =>
        match (if Ascii.eqb d "0" then read_base 8 0 rest
               else read_base 10 0 ds) with
        | Some z => Value (wrap64 z)
        | None => TooGreatForBase
        end
    end
  else NotDigits.

(** *** Container reaper *)

(** One entry of [container ls --format json]:
    [c['configuration']['id']] and [c['status']]. *)
Record Container := { id : string; status : string }.

Inductive logline :=
| StoppingStale (name : string) (age : Z)
| NoHeartbeatFile
| HeartbeatEmpty
| StaleHeartbeat (age_s : Z)
| Killed.

Inductive action :=
| Log (l : logline)
| ContainerStop (name : string)          (* container stop "$name" *)
| Pkill (pattern : string).              (* pkill -f pattern *)

(** The Python filter that feeds the loop: the ids of the running
    containers named [nanoclaw-...], one word each (container ids hold no
    white space). *)
Definition running_nanoclaw (cs : list Container) : list string :=
  List.map id
    (List.filter
       (fun c => String.eqb (status c) "running"
                 && String.prefix "nanoclaw-" (id c)) cs).

(** [echo "$name" | grep -oE '[0-9]{13}$'] *)
Definition grep_epoch (name : string) : option string :=
  let cs := list_ascii_of_string name in
  let n := length cs in
  if (13 <=? n)%nat then
    let tail := drop (n - 13)%nat cs in
    if forallb is_digit tail then Some (string_of_list_ascii tail) else None
  else None.

Inductive verdict :=
| NoEpoch                (* [continue] *)
| ArithError             (* the expansion fails: the function is abandoned *)
| Keep (age : Z)
| Stop (age : Z).

(** The loop body for one name. *)
Definition examine (now : Z) (name : string) : verdict :=
  match grep_epoch name with
  | None => NoEpoch
  | Some epoch_ms =>
      match bash_number epoch_ms with
      | Value e =>
          let epoch_s := div64 e 1000 in
          let age := sub64 now epoch_s in
          if age >? max_age_seconds then Stop age else Keep age
      | _ => ArithError
      end
  end.

(** [for name in ...; do ... done]; an arithmetic error abandons the
    whole function call. *)
Fixpoint reap (now : Z) (names : list string) : list action :=
  match names with
  | [] => []
  | name :: rest =>
      match examine now name with
      | NoEpoch | Keep _ => reap now rest
      | Stop age =>
          Log (StoppingStale name age) :: ContainerStop name :: reap now rest
      | ArithError => []
      end
  end.

Definition cleanup_containers (now : Z) (cs : list Container) : list action :=
  reap now (running_nanoclaw cs).

(** *** Heartbeat check *)

(** [$(cat "$HEARTBEAT_FILE")]: command substitution drops trailing
    newlines. *)
Fixpoint chomp_rev (cs : list ascii) : list ascii :=
  match cs with
  | "010"%char :: rest => chomp_rev rest
  | _ => cs
  end.

Definition command_subst (contents : string) : string :=
  string_of_list_ascii (rev (chomp_rev (rev (list_ascii_of_string contents)))).

(** The part of the script after [cleanup_containers]; [file] is the
    contents of the heartbeat file, [None] when it does not exist.  The
    result is [None] for contents that are neither empty nor a string of
    digits: the shell evaluates such a text as an arithmetic expression
    of its own (names of variables, operators, subscripts), which is not
    modelled, so [None] says nothing about what the script does then;
    every statement about the check is for a file that is absent, empty
    or a string of digits. *)
Definition check_heartbeat (now : Z) (file : option string)
    : option (list action) :=
  match file with
  | None => Some [Log NoHeartbeatFile]
  | Some contents =>
      let last_beat := command_subst contents in
      if String.eqb last_beat EmptyString then Some [Log HeartbeatEmpty]
      else
        let now_ms := mul64 now 1000 in
        match bash_number last_beat with
        | NotDigits => None
        | TooGreatForBase =>
            (* age_ms stays unset and reads as 0 *)
            let age_s := div64 0 1000 in
            if age_s >? MAX_STALE_SECONDS
            then Some [Log (StaleHeartbeat age_s); Pkill "node.*dist/index.js";
                       Log Killed]
            else Some []
        | Value beat =>
            let age_ms := sub64 now_ms beat in
            let age_s := div64 age_ms 1000 in
            if age_s >? MAX_STALE_SECONDS
            then Some [Log (StaleHeartbeat age_s); Pkill "node.*dist/index.js";
                       Log Killed]
            else Some []
        end
  end.

(** One run of the script: the reaper runs first and always. *)
Definition watchdog (now_reaper now_check : Z) (cs : list Container)
    (file : option string) : option (list action) :=
  option_map (app (cleanup_containers now_reaper cs))
             (check_heartbeat now_check file).

Definition is_pkill (a : action) : bool :=
  match a with Pkill _ => true | _ => false end.

Definition stops (name : string) (acts : list action) : bool :=
  existsb (fun a => match a with
                    | ContainerStop n => String.eqb n name
                    | _ => false
                    end) acts.

(** Did the heartbeat check terminate the host process? *)
Definition terminates_host (r : option (list action)) : bool :=
  match r with
  | Some acts => existsb is_pkill acts
  | None => false
  end.

(** The number that a decimal numeral without a leading zero stands for,
    the way [Date.now()] is written into names and into the heartbeat
    file. *)
Definition decimal_of (s : string) : option Z :=
  match list_ascii_of_string s with
  | [] => None
  | d :: rest =>
      if forallb is_digit (d :: rest) && negb (Ascii.eqb d "0")
      then read_base 10 0 (d :: rest)
      else None
  end.

(** The thresholds in milliseconds. *)
Definition max_age_ms : Z := max_age_seconds * 1000.
Definition max_stale_ms : Z := MAX_STALE_SECONDS * 1000.

End Watchdog.

(* ===================================================================== *)
(** ** Concrete inputs                                                    *)
(* ===================================================================== *)

(** The fixtures of [slack.test.ts], and a few inputs of the same kind for
    the CLI loop and the watchdog. *)
Module Sample.

(** The one conversion the tests pin down:
    [1704067200 = 2024-01-01T00:00:00.000Z]. *)
Definition toISOString (ts : jsstring) : option jsstring :=
  if JS.eqb ts (js "1704067200.000000")
  then Some (js "2024-01-01T00:00:00.000Z") else None.

Definition alice : Slack.UserInfo :=
  {| Slack.display_name := Some (js "Alice");
     Slack.real_name := Some (js "Alice Smith");
     Slack.name := Some (js "alice") |}.

(** A transport on which every call resolves. *)
Definition env_up : Slack.Env :=
  {| Slack.post_ok := fun _ => true;
     Slack.lookup_reply := fun _ _ => Slack.LookupResolves (Some alice);
     Slack.start_ok := fun _ => true;
     Slack.stop_ok := fun _ => true;
     Slack.toISOString := toISOString |}.

(** A transport on which every call rejects. *)
Definition env_down : Slack.Env :=
  {| Slack.post_ok := fun _ => false;
     Slack.lookup_reply :=
       fun _ _ => Slack.LookupRejects (Failure "API error");
     Slack.start_ok := fun _ => true;
     Slack.stop_ok := fun _ => true;
     Slack.toISOString := toISOString |}.

Definition groups : gmap jsstring Slack.RegisteredGroup :=
  {[ js "slack:U100200300" :=
       {| Slack.group_name := js "Skip DM"; Slack.folder := js "main";
          Slack.trigger := js "@Andy";
          Slack.added_at := js "2024-01-01T00:00:00.000Z" |} ]}.

Definition fresh : Slack.State :=
  Slack.constructor (js "xoxb-token") (js "xapp-token") groups.

Definition connected : Slack.State := final (Slack.connect env_up) fresh.

Definition the_app : Slack.App :=
  {| Slack.token := js "xoxb-token"; Slack.appToken := js "xapp-token" |}.

Definition dm (userId : string) : Slack.Message :=
  {| Slack.channel_type := Some (js "im");
     Slack.subtype := None;
     Slack.user := Some (js userId);
     Slack.text := Some (js "Hello");
     Slack.ts := Some (js "1704067200.000000") |}.

(** [limit + 1] code units. *)
Definition long_text : jsstring := replicate 4001 120%N.

(** The CLI loop for the [main] group. *)
Definition cli : Chat.Env :=
  {| Chat.ASSISTANT_NAME := js "Andy";
     Chat.groupFolder := js "main";
     Chat.stdin_write_ok := true;
     Chat.stdin_end_ok := true;
     Chat.container_stop_ok := fun _ => true |}.

(** A loop in which every best-effort call of [cleanup] throws. *)
Definition cli_failing : Chat.Env :=
  {| Chat.ASSISTANT_NAME := js "Andy";
     Chat.groupFolder := js "main";
     Chat.stdin_write_ok := false;
     Chat.stdin_end_ok := false;
     Chat.container_stop_ok := fun _ => false |}.

Definition envelope (text : string) : Chat.FileBody :=
  Chat.Parses (Chat.JObj [(js "type", Chat.JStr (js "message"));
                          (js "text", Chat.JStr (js text))]).

(** A mailbox holding a truncated file and a well-formed envelope. *)
Definition files : gmap jsstring Chat.FileBody :=
  <[js "bad.json" := Chat.Malformed (js "{type: mess")]>
    (<[js "msg.json" := envelope " done <internal>scratch</internal>"]> ∅).

Definition inbox : Chat.State :=
  {| Chat.mailbox := Some files;
     Chat.sessions := ∅;
     Chat.db_sessions := ∅;
     Chat.activeProcess := None;
     Chat.activeContainerName := None;
     Chat.trace := [] |}.

(** The loop while a sandbox invocation is active. *)
Definition busy : Chat.State :=
  {| Chat.mailbox := Some ∅;
     Chat.sessions := ∅;
     Chat.db_sessions := ∅;
     Chat.activeProcess :=
       Some {| Chat.killed := false; Chat.has_stdin := true |};
     Chat.activeContainerName := Some (js "nanoclaw-main-1700000000000");
     Chat.trace := [] |}.

(** A streamed output that carries a session token and a reply. *)
Definition progress : Chat.ContainerOutput :=
  {| Chat.status := Chat.Success;
     Chat.result := Chat.RString (js "Working on it");
     Chat.newSessionId := Some (js "session-1");
     Chat.error := None |}.

(** A final output with a newer token. *)
Definition done_output : Chat.ContainerOutput :=
  {| Chat.status := Chat.Success;
     Chat.result := Chat.RNull;
     Chat.newSessionId := Some (js "session-2");
     Chat.error := None |}.

(** A sandbox instance created at 1700000000000 ms. *)
Definition instance : string := "nanoclaw-main-1700000000000".

(** An instance whose name carries no epoch. *)
Definition nameless : string := "nanoclaw-main".

Definition listing : list Watchdog.Container :=
  [ {| Watchdog.id := instance; Watchdog.status := "running" |};
    {| Watchdog.id := nameless; Watchdog.status := "running" |} ].

End Sample.

(* ===================================================================== *)
(** ** The CLI chat loop: start-up                                        *)
(* ===================================================================== *)

Module Cli.

(** [args.indexOf(x)]: the first index holding [x], counted from [i]. *)
Fixpoint indexOf_from (i : nat) (args : list jsstring) (x : jsstring)
    : option nat :=
  match args with
  | [] => None
  | a :: rest => if JS.eqb a x then Some i else indexOf_from (S i) rest x
  end.

Definition indexOf (args : list jsstring) (x : jsstring) : option nat :=
  indexOf_from 0 args x.

(** [parseArgs()] on [process.argv]; [MAIN_GROUP_FOLDER] comes from the
    configuration. *)
Definition parseArgs (MAIN_GROUP_FOLDER : jsstring) (argv : list jsstring)
    : jsstring :=
  let args := drop 2 argv in
  match indexOf args (js "--group") with
  | Some groupIdx =>
      match args !! (groupIdx + 1) with
      | Some v => if truthy v then v else MAIN_GROUP_FOLDER
      | None => MAIN_GROUP_FOLDER
      end
  | None => MAIN_GROUP_FOLDER
  end.

(** [findGroupByFolder(registeredGroups, folder)]; [entries] is
    [Object.entries(registeredGroups)], in the order of the object. *)
Fixpoint findGroupByFolder
    (entries : list (jsstring * Slack.RegisteredGroup)) (folder : jsstring)
    : option (jsstring * Slack.RegisteredGroup) :=
  match entries with
  | [] => None
  | (jid, group) :: rest =>
      if JS.eqb (Slack.folder group) folder then Some (jid, group)
      else findGroupByFolder rest folder
  end.

End Cli.

(* ===================================================================== *)
(** ** More concrete inputs                                               *)
(* ===================================================================== *)

Module Fixture.

(** A user whose profile has no display name. *)
Definition plain_user : Slack.UserInfo :=
  {| Slack.display_name := Some [];
     Slack.real_name := Some (js "Alice Smith");
     Slack.name := Some (js "alice") |}.

(** A transport on which the lookups resolve to [plain_user] and the
    second and later [chat.postMessage] calls are rejected. *)
Definition env_flaky : Slack.Env :=
  {| Slack.post_ok := fun n => (n <? 3)%nat;
     Slack.lookup_reply := fun _ _ => Slack.LookupResolves (Some plain_user);
     Slack.start_ok := fun _ => false;
     Slack.stop_ok := fun _ => false;
     Slack.toISOString := Sample.toISOString |}.

(** An event in a public channel, and one without a timestamp. *)
Definition channel_event : Slack.Message :=
  {| Slack.channel_type := Some (js "channel");
     Slack.subtype := None;
     Slack.user := Some (js "U100200300");
     Slack.text := Some (js "Hello");
     Slack.ts := Some (js "1704067200.000000") |}.

Definition untimed_event : Slack.Message :=
  {| Slack.channel_type := Some (js "im");
     Slack.subtype := None;
     Slack.user := Some (js "U100200300");
     Slack.text := Some (js "Hello");
     Slack.ts := None |}.

(** Mailbox files of other kinds. *)
Definition other_files : gmap jsstring Chat.FileBody :=
  <[js "notes.txt" := Chat.Malformed (js "not for the loop")]>
    (<[js "task.json" :=
         Chat.Parses (Chat.JObj [(js "type", Chat.JStr (js "schedule_task"))])]>
       (<[js "odd.json" :=
            Chat.Parses (Chat.JObj [(js "type", Chat.JStr (js "message"));
                                    (js "text", Chat.JNum 42)])]>
          Sample.files)).

Definition other_inbox : Chat.State :=
  {| Chat.mailbox := Some other_files;
     Chat.sessions := ∅;
     Chat.db_sessions := ∅;
     Chat.activeProcess := None;
     Chat.activeContainerName := None;
     Chat.trace := [] |}.

(** A loop whose child process has been killed already. *)
Definition killed_child : Chat.State :=
  {| Chat.mailbox := Some ∅;
     Chat.sessions := ∅;
     Chat.db_sessions := ∅;
     Chat.activeProcess :=
       Some {| Chat.killed := true; Chat.has_stdin := true |};
     Chat.activeContainerName := Some (js "nanoclaw-main-1700000000000");
     Chat.trace := [] |}.

(** A turn that streams one output with a token and then fails, and a
    turn that completes. *)
Definition failing_run : Chat.AgentRun :=
  {| Chat.launched :=
       Some ({| Chat.killed := false; Chat.has_stdin := true |},
             js "nanoclaw-main-1700000000000");
     Chat.streamed := [Sample.progress];
     Chat.finish := Chat.Rejects (Failure "Container exited with code 1") |}.

Definition good_run : Chat.AgentRun :=
  {| Chat.launched :=
       Some ({| Chat.killed := false; Chat.has_stdin := true |},
             js "nanoclaw-main-1700000000000");
     Chat.streamed := [Sample.progress];
     Chat.finish := Chat.Resolves Sample.done_output |}.

(** [node cli.js --group family] *)
Definition argv : list jsstring :=
  [js "node"; js "cli.js"; js "--group"; js "family"].

Definition family : Slack.RegisteredGroup :=
  {| Slack.group_name := js "Family"; Slack.folder := js "family";
     Slack.trigger := js "@Andy";
     Slack.added_at := js "2024-01-01T00:00:00.000Z" |}.

Definition main_group : Slack.RegisteredGroup :=
  {| Slack.group_name := js "Skip DM"; Slack.folder := js "main";
     Slack.trigger := js "@Andy";
     Slack.added_at := js "2024-01-01T00:00:00.000Z" |}.

Definition entries : list (jsstring * Slack.RegisteredGroup) :=
  [(js "slack:U100200300", main_group); (js "12345@g.us", family)].

(** A stale instance, and an instance whose thirteen digits the shell
    cannot read. *)
Definition stale_listing : list Watchdog.Container :=
  [ {| Watchdog.id := "nanoclaw-old-1600000000000";
       Watchdog.status := "running" |};
    {| Watchdog.id := "nanoclaw-main-1700000000000";
       Watchdog.status := "stopped" |} ].

Definition unreadable : string := "nanoclaw-main-0000000000089".

End Fixture.

(* ===================================================================== *)
(** ** What a turn of the CLI loop leaves behind                          *)
(* ===================================================================== *)

Module Transcript.
Import Chat.

Section WithEnv.
Variable env : Env.

(** The events of the token an output carries: it is recorded for the
    folder of the loop. *)
Definition token_events (o : ContainerOutput) : list event :=
  match carried_token o with
  | Some tok => [SetSession (groupFolder env) tok]
  | None => []
  end.

(** The events of one streamed output: its token is recorded, then its
    reply is printed. *)
Definition output_events (r : ContainerOutput) : list event :=
  token_events r ++ printed env r.

(** The error line a turn prints when it failed: the invocation resolved
    with status [error], or it was rejected. *)
Definition failure_line (fin : AgentFinish) : list event :=
  match fin with
  | Resolves o =>
      match status o with
      | Failed =>
          [ConsoleError
             (error_line (or_else (error o) (js "Unknown error")))]
      | Success => []
      end
  | Rejects e => [ConsoleError (error_line (js (message e)))]
  end.

(** The outputs the handler gets to see in a turn: the streamed ones and,
    unless the invocation is rejected, the final one. *)
Definition received (run : AgentRun) : list ContainerOutput :=
  streamed run ++
  match finish run with
  | Resolves o => [o]
  | Rejects _ => []
  end.

(** The token that the next turn hands to the sandbox. *)
Definition resumed (run : AgentRun) (before : option jsstring)
    : option jsstring :=
  match last_token (received run) with
  | Some tok => Some tok
  | None => before
  end.

End WithEnv.

Definition is_run (e : event) : bool :=
  match e with RunContainerAgent _ => true | _ => false end.

Definition is_unlink (e : event) : bool :=
  match e with Unlink _ => true | _ => false end.

End Transcript.

(* ===================================================================== *)
(** ** The delivered content, in the spec's words                         *)
(* ===================================================================== *)

(** Following the spec's words -- the delivered content is the written
    text with every <internal>...</internal> region removed and the
    surrounding white space trimmed -- and said over the text itself,
    without the scanning functions [strip_internal] and [trim] of the
    code, which are to be compared with it. *)
Module RoundTrip.

(** [s] holds a region: an opening tag with a closing tag after it. *)
Definition has_region (s : jsstring) : Prop :=
  exists a m b, s = a ++ open_tag ++ m ++ close_tag ++ b.

(** [out] is [s] with every region removed.  Regions are taken from the
    left: a region starts at the first opening tag of the text and ends
    with the first closing tag after that opening tag; what follows the
    region is treated in the same way. *)
Inductive regions_removed : jsstring -> jsstring -> Prop :=
| none_left (s : jsstring) :
    ~ has_region s -> regions_removed s s
| region_removed (a m b out : jsstring) :
    (forall p q,
       a ++ open_tag ++ m ++ close_tag ++ b = p ++ open_tag ++ q ->
       length a <= length p) ->
    (forall p q,
       m ++ close_tag ++ b = p ++ close_tag ++ q -> length m <= length p) ->
    regions_removed b out ->
    regions_removed (a ++ open_tag ++ m ++ close_tag ++ b) (a ++ out).

(** [t] is [s] without the white space around it. *)
Definition trimmed (s t : jsstring) : Prop :=
  exists l r,
    s = l ++ t ++ r
    /\ Forall (fun c => is_space c = true) l
    /\ Forall (fun c => is_space c = true) r
    /\ (forall c t', t = c :: t' -> is_space c = false)
    /\ (forall t' c, t = t' ++ [c] -> is_space c = false).

End RoundTrip.

(* ===================================================================== *)
(** * Properties                                                          *)
(* ===================================================================== *)

Create HintDb eff.
#[local] Hint Unfold result final bind ret throw stuck try_catch get
  modify : eff.

(** Unfold the monad operations and compute. *)
Ltac eff_simpl := autounfold with eff; simpl.

(** ** Computations *)

Lemma bind_unfold {S A B} (m : M S A) (k : A -> M S B) (s : S) :
  bind m k s =
    match m s with
    | (Ok a, s') => k a s'
    | (Throw e, s') => (Throw e, s')
    | (Stuck, s') => (Stuck, s')
    end.
Proof. reflexivity. Qed.

Lemma try_catch_unfold {S A} (m : M S A) (h : exn -> M S A) (s : S) :
  try_catch m h s =
    match m s with
    | (Throw e, s') => h e s'
    | r => r
    end.
Proof. reflexivity. Qed.

(** ** Lists and strings *)

Lemma drop_length_app {A} (l k : list A) : drop (length l) (l ++ k) = k.
Proof. by rewrite drop_app_length. Qed.

Lemma slice_take_drop (s : jsstring) (i n : nat) :
  slice s i (i + n) = take n (drop i s).
Proof. unfold slice. f_equal. lia. Qed.

(** *** Prefixes *)

Lemma startsWith_spec (s p : jsstring) :
  startsWith s p = true <-> exists r, s = p ++ r.
Proof.
  revert s. induction p as [|a p IH]; intros [|b s]; simpl.
  - split; [by exists [] | done].
  - split; [by eexists | done].
  - split; [done | by intros [? ?]].
  - destruct (N.eqb_spec a b) as [->|Hne].
    + rewrite IH. split; intros [r Hr]; exists r; congruence.
    + split; [done|]. intros [r Hr]. congruence.
Qed.

Lemma startsWith_length (s p : jsstring) :
  startsWith s p = true -> length p <= length s.
Proof.
  intros [r ->]%startsWith_spec. rewrite length_app. lia.
Qed.

(** *** Removing the internal regions *)

Lemma after_close_eq (s : jsstring) :
  after_close s =
    if startsWith s close_tag then Some (drop (length close_tag) s)
    else match s with
         | [] => None
         | _ :: r => after_close r
         end.
Proof. by destruct s. Qed.

(** The closing tag that the lazy match finds is the first one: the text
    up to it holds no closing tag, and what follows it is returned. *)
Lemma after_close_spec (s rest : jsstring) :
  after_close s = Some rest ->
  exists mid,
    s = mid ++ close_tag ++ rest
    /\ forall i, i < length mid -> startsWith (drop i s) close_tag = false.
Proof.
  revert rest. induction s as [|c s IH]; intros rest; rewrite after_close_eq.
  - discriminate.
  - destruct (startsWith (c :: s) close_tag) eqn:E.
    + apply startsWith_spec in E as [r Hr]. rewrite Hr, drop_app_length.
      intros [= <-]. exists []. split; [done | simpl; lia].
    + intros H. destruct (IH rest H) as (mid & -> & Hmid).
      exists (c :: mid). split; [done|].
      intros [|i] Hi; [done|]. simpl in *. apply Hmid. lia.
Qed.

Lemma after_close_none (s : jsstring) :
  after_close s = None ->
  forall i, startsWith (drop i s) close_tag = false.
Proof.
  induction s as [|c s IH]; rewrite after_close_eq.
  - intros _ i. by rewrite drop_nil.
  - destruct (startsWith (c :: s) close_tag) eqn:E; [done|].
    intros H [|i]; [done | by apply IH].
Qed.

Lemma after_close_length (s rest : jsstring) :
  after_close s = Some rest -> length rest + length close_tag <= length s.
Proof.
  intros (mid & -> & _)%after_close_spec. rewrite !length_app. lia.
Qed.

(** The scan never runs out of steps: any number of steps that covers the
    length of the text gives the same result. *)
Lemma strip_internal_from_enough (n m : nat) (s : jsstring) :
  length s <= n -> length s <= m ->
  strip_internal_from n s = strip_internal_from m s.
Proof.
  revert m s. induction n as [|n IH]; intros m s Hn Hm.
  - destruct s; [by destruct m | simpl in Hn; lia].
  - destruct s as [|c r]; [by destruct m|].
    destruct m as [|m]; [simpl in Hm; lia|].
    simpl in Hn, Hm. cbn [strip_internal_from].
    destruct (startsWith (c :: r) open_tag) eqn:E.
    + destruct (after_close (drop (length open_tag) (c :: r))) as [rest|] eqn:A.
      * apply after_close_length in A. rewrite length_drop in A.
        simpl in A. apply IH; lia.
      * f_equal. apply IH; lia.
    + f_equal. apply IH; lia.
Qed.

(** The three cases of the scan, without the step count. *)
Lemma strip_internal_nil : strip_internal [] = [].
Proof. reflexivity. Qed.

Lemma strip_internal_other (c : N) (r : jsstring) :
  startsWith (c :: r) open_tag = false ->
  strip_internal (c :: r) = c :: strip_internal r.
Proof.
  intros E. unfold strip_internal. cbn [length strip_internal_from].
  by rewrite E.
Qed.

Lemma strip_internal_region (s rest : jsstring) :
  startsWith s open_tag = true ->
  after_close (drop (length open_tag) s) = Some rest ->
  strip_internal s = strip_internal rest.
Proof.
  intros E A. unfold strip_internal. destruct s as [|c r]; [done|].
  cbn [length strip_internal_from]. rewrite E, A.
  apply after_close_length in A. rewrite length_drop in A. simpl in A.
  apply strip_internal_from_enough; lia.
Qed.

Lemma strip_internal_unclosed (c : N) (r : jsstring) :
  startsWith (c :: r) open_tag = true ->
  after_close (drop (length open_tag) (c :: r)) = None ->
  strip_internal (c :: r) = c :: strip_internal r.
Proof.
  intros E A. unfold strip_internal. cbn [length strip_internal_from].
  by rewrite E, A.
Qed.

(** A region is removed whole: text before the first opening tag is kept,
    the region up to its first closing tag goes, and the scan resumes
    after it. *)
Lemma strip_internal_removes_region (before mid rest : jsstring) :
  (forall i, i < length before ->
     startsWith (drop i (before ++ open_tag ++ mid ++ close_tag ++ rest))
       open_tag = false) ->
  (forall i, i < length mid ->
     startsWith (drop i (mid ++ close_tag ++ rest)) close_tag = false) ->
  strip_internal (before ++ open_tag ++ mid ++ close_tag ++ rest)
  = before ++ strip_internal rest.
Proof.
  intros Hbefore Hmid. induction before as [|c before IH].
  - rewrite !app_nil_l. apply strip_internal_region.
    + apply startsWith_spec. by eexists.
    + rewrite drop_app_length.
      clear Hbefore. induction mid as [|a mid IHm]; rewrite after_close_eq.
      * rewrite app_nil_l.
        replace (startsWith (close_tag ++ rest) close_tag) with true
          by (symmetry; apply startsWith_spec; by eexists).
        by rewrite drop_app_length.
      * assert (H0 := Hmid 0 ltac:(cbn [length]; lia)).
        rewrite drop_0 in H0. rewrite H0.
        rewrite <- app_comm_cons. apply IHm.
        intros i Hi. apply (Hmid (S i)). cbn [length]. lia.
  - rewrite <- !app_comm_cons.
    rewrite strip_internal_other
      by (rewrite app_comm_cons; apply (Hbefore 0); cbn [length]; lia).
    f_equal. apply IH. intros i Hi. apply (Hbefore (S i)). cbn [length]. lia.
Qed.

(** Text without an opening tag is left as it is. *)
Lemma strip_internal_no_region (s : jsstring) :
  (forall i, startsWith (drop i s) open_tag = false) ->
  strip_internal s = s.
Proof.
  induction s as [|c s IH]; intros H; [done|].
  rewrite strip_internal_other by apply (H 0).
  f_equal. apply IH. intros i. apply (H (S i)).
Qed.

(** *** Trimming *)

Lemma trimStart_spec (s : jsstring) :
  exists l,
    s = l ++ trimStart s
    /\ Forall (fun c => is_space c = true) l
    /\ (forall c r, trimStart s = c :: r -> is_space c = false).
Proof.
  induction s as [|c s (l & Hs & Hl & Hhead)]; simpl.
  - exists []. by repeat split.
  - destruct (is_space c) eqn:E.
    + exists (c :: l). split; [by rewrite Hs at 1|]. split; [by constructor|done].
    + exists []. split; [done|]. split; [constructor|]. by intros ? ? [= <- _].
Qed.

(** [trim] cuts white space, and only white space, from both ends. *)
Lemma trim_spec (s : jsstring) :
  exists l r,
    s = l ++ trim s ++ r
    /\ Forall (fun c => is_space c = true) l
    /\ Forall (fun c => is_space c = true) r
    /\ (forall c t, trim s = c :: t -> is_space c = false)
    /\ (forall t c, trim s = t ++ [c] -> is_space c = false).
Proof.
  destruct (trimStart_spec s) as (l & Hs & Hl & Hhead).
  destruct (trimStart_spec (rev (trimStart s))) as (r & Hr & Hrsp & Hlast).
  exists l, (rev r). unfold trim, trimEnd.
  set (core := trimStart (rev (trimStart s))) in *.
  assert (Hmid : trimStart s = rev core ++ rev r).
  { rewrite <- rev_app_distr, <- Hr. by rewrite rev_involutive. }
  split; [by rewrite <- Hmid|].
  split; [done|]. split; [by apply Forall_rev|]. split.
  - intros c t Hc. destruct (rev core) as [|c' t'] eqn:E; [discriminate|].
    injection Hc as -> ->. apply (Hhead c (t ++ rev r)). by rewrite Hmid.
  - intros t c Hc. apply (Hlast c (rev t)).
    rewrite <- (rev_involutive core), Hc, rev_app_distr. done.
Qed.

(** ** The Slack channel: sending *)

Section SlackSend.
Import Slack.
Variable env : Env.

Lemma pushes_nil s : pushes [] s = s.
Proof. destruct s. unfold pushes. simpl. by rewrite app_nil_r. Qed.

Lemma pushes_pushes es1 es2 s :
  pushes es2 (pushes es1 s) = pushes (es1 ++ es2) s.
Proof. unfold pushes. simpl. by rewrite app_assoc. Qed.

Lemma push_pushes e s : push e s = pushes [e] s.
Proof. reflexivity. Qed.

Lemma emitted_pushes {A} (m : M State A) (s : State) (a : outcome A) es :
  m s = (a, pushes es s) -> emitted m s = es.
Proof.
  intros H. unfold emitted, final. rewrite H. simpl. apply drop_length_app.
Qed.

Lemma emitted_pushes_from {A} (m : M State A) (s s' : State)
    (a : outcome A) es :
  trace s' = trace s -> m s = (a, pushes es s') -> emitted m s = es.
Proof.
  intros Ht H. unfold emitted, final. rewrite H. simpl. rewrite Ht.
  apply drop_length_app.
Qed.

(** A transport call appends its event, whatever its outcome. *)
Lemma postMessage_run channel text s :
  postMessage env channel text s =
    (if post_ok env (length (trace s)) then Ok tt
     else Throw (Failure "chat.postMessage"),
     pushes [PostMessage channel text] s).
Proof.
  unfold postMessage, emit. eff_simpl.
  rewrite push_pushes. by destruct (post_ok env _).
Qed.

(** *** The slices of the loop *)

Lemma slices_done fuel text i : length text <= i -> slices fuel text i = [].
Proof.
  intros H. destruct fuel; simpl;
    by destruct (Nat.ltb_spec i (length text)); [lia|].
Qed.

Lemma slices_step fuel text i :
  i < length text ->
  slices (S fuel) text i =
    take MAX_LENGTH (drop i text) :: slices fuel text (i + MAX_LENGTH).
Proof.
  intros H. simpl. destruct (Nat.ltb_spec i (length text)); [|lia].
  by rewrite slice_take_drop.
Qed.

(** Concatenated in order, the slices give back the text. *)
Lemma slices_concat fuel text : forall i,
  length text - i <= fuel -> concat (slices fuel text i) = drop i text.
Proof.
  induction fuel as [|fuel IH]; intros i Hfuel.
  - rewrite slices_done by lia. rewrite drop_ge; [done | lia].
  - destruct (Nat.le_gt_cases (length text) i) as [Hge|Hlt].
    + rewrite slices_done by lia. rewrite drop_ge; [done | lia].
    + rewrite slices_step by done. simpl.
      rewrite IH by (unfold MAX_LENGTH; lia).
      rewrite <- drop_drop. apply take_drop.
Qed.

Lemma slices_bounded fuel text : forall i,
  Forall (fun c => 0 < length c <= MAX_LENGTH) (slices fuel text i).
Proof.
  induction fuel as [|fuel IH]; intros i.
  - simpl. destruct (i <? length text); constructor.
  - destruct (Nat.le_gt_cases (length text) i) as [Hge|Hlt].
    + rewrite slices_done by lia. constructor.
    + rewrite slices_step by done. constructor; [|apply IH].
      rewrite length_take, length_drop. unfold MAX_LENGTH. lia.
Qed.

(** Every slice but the last is exactly at the boundary size. *)
Lemma slices_full fuel text : forall i k c,
  slices fuel text i !! k = Some c ->
  S k < length (slices fuel text i) ->
  length c = MAX_LENGTH.
Proof.
  induction fuel as [|fuel IH]; intros i k c Hk Hlast.
  - simpl in Hk. destruct (i <? length text); by rewrite lookup_nil in Hk.
  - destruct (Nat.le_gt_cases (length text) i) as [Hge|Hlt].
    + rewrite slices_done in Hk by lia. by rewrite lookup_nil in Hk.
    + rewrite slices_step in Hk, Hlast by done.
      destruct k as [|k]; simpl in Hk, Hlast.
      * inversion Hk; subst c.
        destruct (Nat.le_gt_cases (length text) (i + MAX_LENGTH)) as [Hle|Hgt].
        -- rewrite slices_done in Hlast by done. simpl in Hlast. lia.
        -- rewrite length_take, length_drop. unfold MAX_LENGTH in *. lia.
      * apply (IH _ _ _ Hk). lia.
Qed.

(** There are as many slices as boundary-sized pieces, rounding up. *)
Lemma slices_count fuel text : forall i,
  length text - i <= fuel ->
  length (slices fuel text i) * MAX_LENGTH < length text - i + MAX_LENGTH
  /\ length text - i <= length (slices fuel text i) * MAX_LENGTH.
Proof.
  induction fuel as [|fuel IH]; intros i Hfuel.
  - rewrite slices_done by lia. unfold MAX_LENGTH. simpl. lia.
  - destruct (Nat.le_gt_cases (length text) i) as [Hge|Hlt].
    + rewrite slices_done by lia. unfold MAX_LENGTH. simpl. lia.
    + rewrite slices_step by done.
      destruct (IH (i + MAX_LENGTH)) as [H1 H2];
        [unfold MAX_LENGTH; lia|].
      change (length (?x :: ?l)) with (S (length l)).
      unfold MAX_LENGTH in *. lia.
Qed.

(** *** The loop with its effects *)

(** The loop never runs out of fuel: it ends normally, or with the
    failure of a transport call. *)
Lemma send_chunks_total fuel channel text : forall i s,
  length text - i <= fuel ->
  result (send_chunks env fuel channel text i) s = Ok tt
  \/ exists e, result (send_chunks env fuel channel text i) s = Throw e.
Proof.
  unfold result.
  induction fuel as [|fuel IH]; intros i s Hfuel; simpl;
    destruct (Nat.ltb_spec i (length text)) as [Hlt|Hge];
    try lia; try (by left).
  rewrite bind_unfold, postMessage_run.
  destruct (post_ok env _); [|right; eauto].
  apply IH. unfold MAX_LENGTH. lia.
Qed.

(** With a transport that does not fail, the loop makes one call per
    slice, in order. *)
Lemma send_chunks_run fuel channel text : forall i s,
  (forall n, post_ok env n = true) ->
  length text - i <= fuel ->
  send_chunks env fuel channel text i s =
    (Ok tt, pushes (PostMessage channel <$> slices fuel text i) s).
Proof.
  induction fuel as [|fuel IH]; intros i s Hok Hfuel; simpl;
    destruct (Nat.ltb_spec i (length text)) as [Hlt|Hge];
    try lia; try (by rewrite fmap_nil, pushes_nil).
  rewrite bind_unfold, postMessage_run, Hok.
  rewrite IH by (done || unfold MAX_LENGTH; lia).
  by rewrite pushes_pushes.
Qed.

(** Whatever the transport does, the calls made are for the first
    slices, in order. *)
Lemma send_chunks_prefix fuel channel text : forall i s,
  exists cs,
    cs `prefix_of` slices fuel text i
    /\ final (send_chunks env fuel channel text i) s =
         pushes (PostMessage channel <$> cs) s.
Proof.
  unfold final.
  induction fuel as [|fuel IH]; intros i s; simpl;
    destruct (Nat.ltb_spec i (length text)) as [Hlt|Hge];
    try (exists []; split; [done | by rewrite fmap_nil, pushes_nil]).
  rewrite bind_unfold, postMessage_run.
  destruct (post_ok env _).
  - destruct (IH (i + MAX_LENGTH)
                (pushes [PostMessage channel (slice text i (i + MAX_LENGTH))] s))
      as (cs & Hpre & Hrun).
    exists (slice text i (i + MAX_LENGTH) :: cs). split.
    + by apply prefix_cons.
    + rewrite Hrun. by rewrite pushes_pushes.
  - exists [slice text i (i + MAX_LENGTH)]. split; [|done].
    apply prefix_cons, prefix_nil.
Qed.

End SlackSend.

Section SlackChannel.
Import Slack.
Variable env : Env.

Lemma posted_texts_app tr1 tr2 :
  posted_texts (tr1 ++ tr2) = posted_texts tr1 ++ posted_texts tr2.
Proof. apply omap_app. Qed.

Lemma posted_texts_posts channel cs :
  posted_texts (PostMessage channel <$> cs) = cs.
Proof.
  induction cs as [|c cs IH]; [done|].
  rewrite fmap_cons. unfold posted_texts in *. simpl. by f_equal.
Qed.

Lemma posted_channels_posts channel cs :
  posted_channels (PostMessage channel <$> cs) = replicate (length cs) channel.
Proof.
  induction cs as [|c cs IH]; [done|].
  rewrite fmap_cons. unfold posted_channels in *. simpl. by f_equal.
Qed.

Lemma posted_channels_app tr1 tr2 :
  posted_channels (tr1 ++ tr2) = posted_channels tr1 ++ posted_channels tr2.
Proof. apply omap_app. Qed.

Lemma log_run l msg s : log l msg s = (Ok tt, pushes [Log l msg] s).
Proof. reflexivity. Qed.

Lemma emit_run e s : emit e s = (Ok tt, pushes [e] s).
Proof. reflexivity. Qed.

(** [sendMessage] on a channel that is not connected: a warning, and
    nothing else. *)
Lemma sendMessage_not_connected jid text s :
  app s = None ->
  sendMessage env jid text s =
    (Ok tt, pushes [Log Warn "Slack app not initialized"] s).
Proof. intros H. unfold sendMessage. eff_simpl. by rewrite H. Qed.

(** [sendMessage] over a transport that does not fail. *)
Lemma sendMessage_connected jid text s a :
  app s = Some a ->
  (forall n, post_ok env n = true) ->
  sendMessage env jid text s =
    (Ok tt,
     pushes ((PostMessage (strip_prefix (js "slack:") jid) <$>
                (if length text <=? MAX_LENGTH then [text]
                 else slices (length text) text 0))
             ++ [Log Info "Slack message sent"]) s).
Proof.
  intros Ha Hok. unfold sendMessage.
  rewrite bind_unfold. unfold get at 1. rewrite Ha.
  rewrite try_catch_unfold, bind_unfold.
  destruct (length text <=? MAX_LENGTH).
  - rewrite postMessage_run, Hok, log_run. by rewrite pushes_pushes.
  - rewrite send_chunks_run by (done || lia).
    rewrite log_run. by rewrite pushes_pushes.
Qed.

(** [sendMessage] always resolves. *)
Lemma sendMessage_resolves jid text s :
  result (sendMessage env jid text) s = Ok tt.
Proof.
  unfold result. destruct (app s) as [a|] eqn:Ha;
    [|by rewrite sendMessage_not_connected].
  unfold sendMessage.
  rewrite bind_unfold. unfold get at 1. rewrite Ha.
  rewrite try_catch_unfold, bind_unfold.
  destruct (length text <=? MAX_LENGTH).
  - rewrite postMessage_run. by destruct (post_ok env _).
  - pose proof (send_chunks_total env (length text)
                  (strip_prefix (js "slack:") jid) text 0 s) as Ht.
    unfold result in Ht.
    destruct (send_chunks env (length text) _ text 0 s) as [[[]| |] s'];
      simpl in *; try done.
    destruct Ht as [Ht|[e Ht]]; [lia|discriminate|discriminate].
Qed.

(** A transport call that fails on a short text: the failure is caught
    and logged, and no further call is made. *)
Lemma sendMessage_failure_logged jid text s a :
  app s = Some a ->
  length text <= MAX_LENGTH ->
  post_ok env (length (trace s)) = false ->
  sendMessage env jid text s =
    (Ok tt,
     pushes [PostMessage (strip_prefix (js "slack:") jid) text;
             Log Error "Failed to send Slack message"] s).
Proof.
  intros Ha Hlen Hfail. unfold sendMessage.
  rewrite bind_unfold. unfold get at 1. rewrite Ha.
  rewrite try_catch_unfold, bind_unfold.
  destruct (Nat.leb_spec (length text) MAX_LENGTH); [|lia].
  by rewrite postMessage_run, Hfail, log_run, pushes_pushes.
Qed.

(** Whatever the transport does, what [sendMessage] hands to it is a
    prefix of the slices of the text. *)
Lemma sendMessage_sends_prefix jid text s a :
  app s = Some a ->
  MAX_LENGTH < length text ->
  posted_texts (emitted (sendMessage env jid text) s)
    `prefix_of` slices (length text) text 0.
Proof.
  intros Ha Hlen. unfold emitted, final, sendMessage.
  rewrite bind_unfold. unfold get at 1. rewrite Ha.
  rewrite try_catch_unfold, bind_unfold.
  destruct (Nat.leb_spec (length text) MAX_LENGTH); [lia|].
  destruct (send_chunks_prefix env (length text)
              (strip_prefix (js "slack:") jid) text 0 s) as (cs & Hpre & Hfin).
  unfold final in Hfin.
  destruct (send_chunks env (length text) _ text 0 s) as [o s'].
  simpl in Hfin. subst s'.
  assert (Hposted : forall tail,
            posted_texts
              (drop (length (trace s))
                 (trace (pushes tail
                    (pushes (PostMessage (strip_prefix (js "slack:") jid) <$> cs) s))))
            = cs ++ posted_texts tail).
  { intros tail. simpl. rewrite <- app_assoc, drop_length_app.
    by rewrite posted_texts_app, posted_texts_posts. }
  destruct o as [[]|e|].
  - rewrite log_run. cbn [snd]. rewrite Hposted. simpl.
    by rewrite app_nil_r.
  - rewrite log_run. cbn [snd]. rewrite Hposted. simpl.
    by rewrite app_nil_r.
  - cbn [snd]. specialize (Hposted []). rewrite pushes_nil in Hposted.
    rewrite Hposted. by rewrite app_nil_r.
Qed.

(** The channel owns exactly the JIDs it builds for inbound events. *)
Lemma ownsJid_slack userId : ownsJid (js "slack:" ++ userId) = true.
Proof. apply startsWith_spec. by eexists. Qed.

End SlackChannel.

(** C2. Over a connected channel and a transport that does not fail,
    [sendMessage] hands the text to the transport in consecutive pieces cut
    at the 4000-code-unit boundary, every call going to the same channel:
    the pieces concatenated in call order are the text, none is longer than
    4000, every piece but the last has exactly 4000; a text of exactly 4000
    makes one call, a text of 4001 makes two, the second with one code
    unit. *)
Theorem sendMessage_chunks (env : Slack.Env) (s : Slack.State)
    (a : Slack.App) (jid text : jsstring) :
  Slack.app s = Some a ->
  (forall n, Slack.post_ok env n = true) ->
  let sent := Slack.posted_texts (Slack.emitted (Slack.sendMessage env jid text) s) in
  result (Slack.sendMessage env jid text) s = Ok tt
  /\ concat sent = text
  /\ Forall (fun c => length c <= 4000) sent
  /\ (forall k c, sent !! k = Some c -> S k < length sent -> length c = 4000)
  /\ (length text = 4000 -> sent = [text])
  /\ (length text = 4001 ->
        exists c1 c2, sent = [c1; c2] /\ length c1 = 4000 /\ length c2 = 1)
  /\ Slack.posted_channels (Slack.emitted (Slack.sendMessage env jid text) s)
       = replicate (length sent) (strip_prefix (js "slack:") jid).
Proof.
  intros Ha Hok sent.
  pose proof (sendMessage_connected env jid text s a Ha Hok) as Hrun.
  assert (Hsent : sent =
            if length text <=? Slack.MAX_LENGTH then [text]
            else Slack.slices (length text) text 0).
  { unfold sent. rewrite (emitted_pushes _ _ _ _ Hrun).
    rewrite posted_texts_app, posted_texts_posts. simpl. apply app_nil_r. }
  split; [unfold result; by rewrite Hrun|].
  assert (Hchan : Slack.posted_channels
                    (Slack.emitted (Slack.sendMessage env jid text) s)
                  = replicate (length sent) (strip_prefix (js "slack:") jid)).
  { rewrite (emitted_pushes _ _ _ _ Hrun), Hsent.
    rewrite posted_channels_app, posted_channels_posts. simpl.
    apply app_nil_r. }
  clearbody sent. subst sent.
  destruct (Nat.leb_spec (length text) Slack.MAX_LENGTH) as [Hle|Hgt].
  - (* a single call *)
    split; [simpl; apply app_nil_r|].
    split; [constructor; [exact Hle | constructor]|].
    split; [intros k c _ Hlast; cbn [length] in Hlast; lia|].
    split; [done|]. split; [|done].
    unfold Slack.MAX_LENGTH in Hle. lia.
  - (* the loop *)
    split; [rewrite slices_concat by lia; apply drop_0|].
    split.
    { eapply Forall_impl; [apply slices_bounded|].
      intros c. cbv beta. unfold Slack.MAX_LENGTH. lia. }
    split; [intros k c Hk Hlast; apply (slices_full _ _ _ _ _ Hk Hlast)|].
    split; [unfold Slack.MAX_LENGTH in Hgt; lia|].
    split; [|done].
    intros H4001.
    pose proof (slices_count (length text) text 0 ltac:(lia)) as [Hc1 Hc2].
    pose proof (slices_concat (length text) text 0 ltac:(lia)) as Hcat.
    pose proof (slices_full (length text) text 0) as Hfull.
    pose proof (slices_bounded (length text) text 0) as Hb.
    destruct (Slack.slices (length text) text 0) as [|c1 [|c2 [|c3 l]]];
      cbn [length] in Hc1, Hc2; unfold Slack.MAX_LENGTH in *; try lia.
    exists c1, c2. split; [done|].
    assert (length c1 = 4000)
      by (apply (Hfull 0 c1); cbn [length]; [done | lia]).
    split; [done|].
    apply (f_equal length) in Hcat. rewrite drop_0 in Hcat.
    cbn [concat] in Hcat. rewrite !length_app in Hcat.
    cbn [length] in Hcat. lia.
Qed.

Lemma sendMessage_chunks_witness :
  Slack.app Sample.connected = Some Sample.the_app
  /\ (forall n, Slack.post_ok Sample.env_up n = true)
  /\ length (Slack.posted_texts
               (Slack.emitted
                  (Slack.sendMessage Sample.env_up (js "slack:U100200300")
                     Sample.long_text) Sample.connected)) = 2.
Proof.
  split; [reflexivity|]. split; [intros n; reflexivity|].
  destruct (sendMessage_chunks Sample.env_up Sample.connected Sample.the_app
              (js "slack:U100200300") Sample.long_text
              eq_refl (fun _ => eq_refl))
    as (_ & _ & _ & _ & _ & H & _).
  destruct (H eq_refl) as (c1 & c2 & -> & _). reflexivity.
Defined.

(** C10. On a channel that is not connected -- as constructed, before any
    [connect()], or once [disconnect()] has resolved -- [isConnected()] is
    [false] and [sendMessage] resolves normally without a transport call:
    all it does is log a warning. *)
Theorem sendMessage_disconnected_noop (env : Slack.Env)
    (s s0 : Slack.State) (bot tok : jsstring)
    (groups : gmap jsstring Slack.RegisteredGroup) (jid text : jsstring) :
  Slack.app s = None ->
  Slack.isConnected s = false
  /\ result (Slack.sendMessage env jid text) s = Ok tt
  /\ Slack.emitted (Slack.sendMessage env jid text) s
       = [Slack.Log Slack.Warn "Slack app not initialized"]
  /\ Slack.posted_texts (Slack.emitted (Slack.sendMessage env jid text) s) = []
  /\ Slack.isConnected (final (Slack.sendMessage env jid text) s) = false
  /\ Slack.app (Slack.constructor bot tok groups) = None
  /\ (result (Slack.disconnect env) s0 = Ok tt ->
        Slack.app (final (Slack.disconnect env) s0) = None).
Proof.
  intros Ha.
  pose proof (sendMessage_not_connected env jid text s Ha) as Hrun.
  split; [unfold Slack.isConnected; by rewrite Ha|].
  split; [unfold result; by rewrite Hrun|].
  rewrite (emitted_pushes _ _ _ _ Hrun).
  split; [done|]. split; [done|].
  split; [unfold final, Slack.isConnected; rewrite Hrun; simpl; by rewrite Ha|].
  split; [done|].
  unfold result, final, Slack.disconnect. eff_simpl.
  destruct (Slack.app s0) eqn:E; simpl; [|done].
  by destruct (Slack.stop_ok env _).
Qed.

Lemma sendMessage_disconnected_noop_witness :
  Slack.app Sample.fresh = None
  /\ Slack.emitted (Slack.sendMessage Sample.env_up (js "slack:U100200300")
                      (js "No app")) Sample.fresh
       = [Slack.Log Slack.Warn "Slack app not initialized"].
Proof.
  split; [reflexivity|].
  apply (sendMessage_disconnected_noop Sample.env_up Sample.fresh
           Sample.connected [] [] ∅ (js "slack:U100200300") (js "No app")
           eq_refl).
Defined.

(** ** The Slack channel: inbound events *)

Section SlackInbound.
Import Slack.
Variable env : Env.

Lemma callbacks_app tr1 tr2 :
  callbacks (tr1 ++ tr2) = callbacks tr1 ++ callbacks tr2.
Proof. apply List.filter_app. Qed.

(** The lookup on a cache miss, case by case: the channel has no app,
    the lookup rejects, or it resolves and the name is cached. *)
Lemma fetchUserName_run userId s :
  fetchUserName env userId s =
    match app s with
    | None =>
        (Ok userId, pushes [Log Debug "Failed to fetch Slack user info"] s)
    | Some _ =>
        match lookup_reply env (length (trace s)) userId with
        | LookupRejects _ =>
            (Ok userId,
             pushes [UsersInfo userId;
                     Log Debug "Failed to fetch Slack user info"] s)
        | LookupResolves u =>
            (Ok (pick_name u userId),
             pushes [UsersInfo userId]
               (set_cache (<[userId := pick_name u userId]> (userNameCache s)) s))
        end
    end.
Proof.
  unfold fetchUserName, users_info, log, emit. eff_simpl.
  destruct (app s); [|done].
  simpl. destruct (lookup_reply env _ userId); simpl; [|done].
  unfold push, pushes. simpl. by rewrite <- app_assoc.
Qed.

(** [resolveUserName] always resolves; it may consult the transport and
    update the cache, and calls no collaborator. *)
Lemma resolveUserName_run userId s :
  exists senderName es cache,
    resolveUserName env userId s =
      (Ok senderName, pushes es (set_cache cache s))
    /\ callbacks es = [].
Proof.
  assert (Hfetch : exists senderName es cache,
            fetchUserName env userId s =
              (Ok senderName, pushes es (set_cache cache s))
            /\ callbacks es = []).
  { rewrite fetchUserName_run. destruct (app s) eqn:Ha.
    - destruct (lookup_reply env _ userId) as [e|u].
      + exists userId, [UsersInfo userId;
                        Log Debug "Failed to fetch Slack user info"],
          (userNameCache s).
        split; [|done]. by destruct s.
      + by eexists _, [UsersInfo userId], _.
    - exists userId, [Log Debug "Failed to fetch Slack user info"],
        (userNameCache s).
      split; [|done]. by destruct s. }
  unfold resolveUserName. rewrite bind_unfold. unfold get at 1.
  destruct (userNameCache s !! userId) as [cached|]; [|done].
  destruct (truthy cached); [|done].
  exists cached, [], (userNameCache s). split; [|done].
  unfold ret. f_equal. destruct s. unfold pushes, set_cache. simpl.
  by rewrite app_nil_r.
Qed.

(** An event that the filters reject is dropped without a trace. *)
Lemma on_message_filtered msg s :
  passes_filters msg = false -> on_message env msg s = (Ok tt, s).
Proof.
  unfold passes_filters, on_message. intros H.
  destruct (bool_decide (channel_type msg = Some (js "im"))); [|done].
  destruct (truthy_opt (subtype msg)); [done|].
  destruct (user msg) as [u|]; [|done].
  simpl in H. by rewrite H.
Qed.

(** An event that passes the filters and carries a valid [ts]. *)
Lemma on_message_run msg userId t s :
  passes_filters msg = true ->
  user msg = Some userId ->
  ts msg ≫= toISOString env = Some t ->
  exists senderName es cache,
    resolveUserName env userId s =
      (Ok senderName, pushes es (set_cache cache s))
    /\ callbacks es = []
    /\ on_message env msg s =
         (Ok tt,
          pushes
            (es ++ OnChatMetadata (js "slack:" ++ userId) t senderName ::
               match registeredGroups s !! (js "slack:" ++ userId) with
               | Some _ =>
                   [OnMessage (js "slack:" ++ userId)
                      {| id := ts msg; chat_jid := js "slack:" ++ userId;
                         sender := userId; sender_name := senderName;
                         content := or_else (text msg) [];
                         timestamp := t; is_from_me := false |};
                    Log Info "Slack message stored"]
               | None => [Log Debug "Message from unregistered Slack DM"]
               end)
            (set_cache cache s)).
Proof.
  intros Hpass Huser Hts.
  destruct (resolveUserName_run userId s) as (senderName & es & cache & Hres & Hcb).
  exists senderName, es, cache. split; [done|]. split; [done|].
  unfold passes_filters in Hpass. rewrite Huser in Hpass.
  apply andb_prop in Hpass as [Hpass Hu]. apply andb_prop in Hpass as [Him Hsub].
  apply negb_true_iff in Hsub. simpl in Hu.
  unfold on_message. rewrite Him, Huser, Hsub, Hu, Hts.
  cbv beta iota zeta delta [negb].
  rewrite bind_unfold. unfold ret at 1.
  rewrite bind_unfold, Hres. rewrite bind_unfold, emit_run, pushes_pushes.
  rewrite bind_unfold. unfold get at 1.
  change (registeredGroups (pushes _ (set_cache cache s)))
    with (registeredGroups s).
  destruct (registeredGroups s !! _) as [g|].
  - rewrite bind_unfold, emit_run, log_run, !pushes_pushes.
    by rewrite <- !app_assoc.
  - rewrite log_run, pushes_pushes. by rewrite <- !app_assoc.
Qed.

(** An event whose [ts] does not convert to a date makes the handler
    reject before it has done anything: [toISOString] throws ahead of the
    lookup and of both callbacks. *)
Lemma on_message_invalid_ts msg userId s :
  passes_filters msg = true ->
  user msg = Some userId ->
  ts msg ≫= toISOString env = None ->
  on_message env msg s = (Throw (RangeError "Invalid time value"), s).
Proof.
  intros Hpass Huser Hts.
  unfold passes_filters in Hpass. rewrite Huser in Hpass.
  apply andb_prop in Hpass as [Hpass Hu]. apply andb_prop in Hpass as [Him Hsub].
  apply negb_true_iff in Hsub. simpl in Hu.
  unfold on_message. by rewrite Him, Huser, Hsub, Hu, Hts.
Qed.

End SlackInbound.

(** C8. For every inbound event that passes the filters of the listener
    (a DM, no subtype, a user id) and carries a valid timestamp, the
    handler resolves, and its calls into the collaborators are exactly:
    [onChatMetadata] for the chat, always and first; then [onMessage] with
    the normalized message if the chat JID is a registered group, and
    nothing when it is not. *)
Theorem inbound_dm_metadata_always_message_iff_registered
    (env : Slack.Env) (s : Slack.State) (msg : Slack.Message)
    (userId t : jsstring) :
  Slack.passes_filters msg = true ->
  Slack.user msg = Some userId ->
  Slack.ts msg ≫= Slack.toISOString env = Some t ->
  let jid := js "slack:" ++ userId in
  let evs := Slack.emitted (Slack.on_message env msg) s in
  exists senderName,
    result (Slack.resolveUserName env userId) s = Ok senderName
    /\ result (Slack.on_message env msg) s = Ok tt
    /\ Slack.callbacks evs =
         Slack.OnChatMetadata jid t senderName ::
         match Slack.registeredGroups s !! jid with
         | Some _ =>
             [Slack.OnMessage jid
                {| Slack.id := Slack.ts msg; Slack.chat_jid := jid;
                   Slack.sender := userId; Slack.sender_name := senderName;
                   Slack.content := or_else (Slack.text msg) [];
                   Slack.timestamp := t; Slack.is_from_me := false |}]
         | None => []
         end
    /\ In (Slack.OnChatMetadata jid t senderName) evs
    /\ ((exists m, In (Slack.OnMessage jid m) evs)
        <-> is_Some (Slack.registeredGroups s !! jid)).
Proof.
  intros Hpass Huser Hts jid evs.
  destruct (on_message_run env msg userId t s Hpass Huser Hts)
    as (senderName & es & cache & Hres & Hcb & Hrun).
  exists senderName.
  split; [unfold result; by rewrite Hres|].
  split; [unfold result; by rewrite Hrun|].
  assert (Hevs : evs = es ++ Slack.OnChatMetadata jid t senderName ::
                   match Slack.registeredGroups s !! jid with
                   | Some _ =>
                       [Slack.OnMessage jid
                          {| Slack.id := Slack.ts msg; Slack.chat_jid := jid;
                             Slack.sender := userId;
                             Slack.sender_name := senderName;
                             Slack.content := or_else (Slack.text msg) [];
                             Slack.timestamp := t;
                             Slack.is_from_me := false |};
                        Slack.Log Slack.Info "Slack message stored"]
                   | None =>
                       [Slack.Log Slack.Debug "Message from unregistered Slack DM"]
                   end).
  { unfold evs. eapply emitted_pushes_from; [|exact Hrun]. reflexivity. }
  clearbody evs. subst evs.
  assert (Hnone : forall e, In e es -> Slack.is_callback e = false).
  { intros e He. destruct (Slack.is_callback e) eqn:E; [|done].
    assert (In e (Slack.callbacks es)) by (apply List.filter_In; auto).
    rewrite Hcb in H. destruct H. }
  split.
  { rewrite callbacks_app, Hcb. simpl.
    by destruct (Slack.registeredGroups s !! jid). }
  split; [apply in_or_app; right; by left|].
  split.
  - intros [m Hm]. apply in_app_or in Hm as [Hm|Hm].
    + by apply Hnone in Hm.
    + destruct (Slack.registeredGroups s !! jid); [by eexists|].
      simpl in Hm. destruct Hm as [Hm|[Hm|[]]]; discriminate.
  - intros [g Hg]. rewrite Hg. eexists. apply in_or_app. right. right. by left.
Qed.

Lemma inbound_dm_metadata_always_message_iff_registered_witness :
  Slack.passes_filters (Sample.dm "U100200300") = true
  /\ Slack.user (Sample.dm "U100200300") = Some (js "U100200300")
  /\ Slack.ts (Sample.dm "U100200300") ≫= Slack.toISOString Sample.env_up
       = Some (js "2024-01-01T00:00:00.000Z")
  /\ result (Slack.on_message Sample.env_up (Sample.dm "U100200300"))
       Sample.connected = Ok tt.
Proof.
  split; [reflexivity|]. split; [reflexivity|]. split; [reflexivity|].
  destruct (inbound_dm_metadata_always_message_iff_registered
              Sample.env_up Sample.connected (Sample.dm "U100200300")
              (js "U100200300") (js "2024-01-01T00:00:00.000Z")
              eq_refl eq_refl eq_refl) as (senderName & _ & H & _).
  exact H.
Defined.

Section SlackFaults.
Import Slack.

(** The loop ends at the first transport call that fails: the calls made
    are for the first slices, every call but the last one made succeeded,
    and the loop ends normally exactly when every slice was sent. *)
Lemma send_chunks_stops env fuel channel text : forall i s,
  length text - i <= fuel ->
  exists cs o,
    send_chunks env fuel channel text i s
      = (o, pushes (PostMessage channel <$> cs) s)
    /\ cs `prefix_of` slices fuel text i
    /\ (forall k, S k < length cs -> post_ok env (length (trace s) + k) = true)
    /\ ((o = Ok tt /\ cs = slices fuel text i
         /\ forall k, k < length cs -> post_ok env (length (trace s) + k) = true)
        \/ (o = Throw (Failure "chat.postMessage")
            /\ exists k, length cs = S k
                 /\ post_ok env (length (trace s) + k) = false)).
Proof.
  induction fuel as [|fuel IH]; intros i s Hfuel.
  - exists [], (Ok tt). rewrite slices_done by lia. simpl.
    destruct (Nat.ltb_spec i (length text)); [lia|].
    rewrite pushes_nil. split; [done|]. split; [done|].
    split; [simpl; lia|]. left. repeat split; simpl; lia.
  - destruct (Nat.le_gt_cases (length text) i) as [Hge|Hlt].
    + exists [], (Ok tt). rewrite slices_done by lia. simpl.
      destruct (Nat.ltb_spec i (length text)); [lia|].
      rewrite pushes_nil. split; [done|]. split; [done|].
      split; [simpl; lia|]. left. repeat split; simpl; lia.
    + rewrite slices_step by done. simpl.
      destruct (Nat.ltb_spec i (length text)); [|lia].
      rewrite bind_unfold, postMessage_run, slice_take_drop.
      set (c := take MAX_LENGTH (drop i text)).
      destruct (post_ok env (length (trace s))) eqn:Hok.
      * destruct (IH (i + MAX_LENGTH) (pushes [PostMessage channel c] s))
          as (cs & o & Hrun & Hpre & Hmid & Hend); [unfold MAX_LENGTH; lia|].
        assert (Hlen : length (trace (pushes [PostMessage channel c] s))
                       = S (length (trace s)))
          by (simpl; rewrite length_app; simpl; lia).
        rewrite Hlen in Hmid, Hend.
        exists (c :: cs), o. rewrite Hrun, pushes_pushes.
        split; [done|]. split; [by apply prefix_cons|].
        split.
        { intros [|k] Hk; [by rewrite Nat.add_0_r|].
          replace (length (trace s) + S k) with (S (length (trace s)) + k) by lia.
          apply Hmid. simpl in Hk. lia. }
        destruct Hend as [(-> & -> & Hall)|(-> & k & Hk & Hfail)].
        -- left. split; [done|]. split; [done|].
           intros [|k] Hk; [by rewrite Nat.add_0_r|].
           replace (length (trace s) + S k) with (S (length (trace s)) + k) by lia.
           apply Hall. simpl in Hk. lia.
        -- right. split; [done|]. exists (S k). split; [simpl; lia|].
           by replace (length (trace s) + S k)
             with (S (length (trace s)) + k) by lia.
      * exists [c], (Throw (Failure "chat.postMessage")).
        split; [done|]. split; [apply prefix_cons, prefix_nil|].
        split; [simpl; lia|]. right. split; [done|].
        exists 0. split; [done|]. by rewrite Nat.add_0_r.
Qed.

Lemma sendMessage_short_run env jid text s a :
  app s = Some a ->
  length text <= MAX_LENGTH ->
  sendMessage env jid text s =
    (Ok tt,
     pushes [PostMessage (strip_prefix (js "slack:") jid) text;
             if post_ok env (length (trace s))
             then Log Info "Slack message sent"
             else Log Error "Failed to send Slack message"] s).
Proof.
  intros Ha Hlen. unfold sendMessage.
  rewrite bind_unfold. unfold get at 1. rewrite Ha.
  rewrite try_catch_unfold, bind_unfold.
  destruct (Nat.leb_spec (length text) MAX_LENGTH); [|lia].
  rewrite postMessage_run.
  destruct (post_ok env (length (trace s))); by rewrite log_run, pushes_pushes.
Qed.

Lemma sendMessage_long_run env jid text s a cs o :
  app s = Some a ->
  MAX_LENGTH < length text ->
  send_chunks env (length text) (strip_prefix (js "slack:") jid) text 0 s
    = (o, pushes (PostMessage (strip_prefix (js "slack:") jid) <$> cs) s) ->
  o <> Stuck ->
  sendMessage env jid text s =
    (Ok tt,
     pushes ((PostMessage (strip_prefix (js "slack:") jid) <$> cs)
             ++ [match o with
                 | Ok _ => Log Info "Slack message sent"
                 | _ => Log Error "Failed to send Slack message"
                 end]) s).
Proof.
  intros Ha Hlen Hrun Ho. unfold sendMessage.
  rewrite bind_unfold. unfold get at 1. rewrite Ha.
  rewrite try_catch_unfold, bind_unfold.
  destruct (Nat.leb_spec (length text) MAX_LENGTH); [lia|].
  rewrite Hrun. destruct o as [[]|e|]; [| |done];
    by rewrite log_run, pushes_pushes.
Qed.

(** When the first transport call of a send fails, it is the only one:
    the first piece was tried, and the error is logged. *)
Lemma sendMessage_first_call_fails env jid text s a :
  app s = Some a ->
  post_ok env (length (trace s)) = false ->
  sendMessage env jid text s =
    (Ok tt,
     pushes [PostMessage (strip_prefix (js "slack:") jid)
               (take MAX_LENGTH text);
             Log Error "Failed to send Slack message"] s).
Proof.
  intros Ha Hfail.
  destruct (Nat.le_gt_cases (length text) MAX_LENGTH) as [Hle|Hgt].
  - rewrite (sendMessage_short_run env jid text s a Ha Hle), Hfail.
    by rewrite take_ge.
  - destruct (send_chunks_stops env (length text)
                (strip_prefix (js "slack:") jid) text 0 s ltac:(lia))
      as (cs & o & Hrun & Hpre & Hmid & Hend).
    assert (Hfirst : slices (length text) text 0
                     = take MAX_LENGTH text
                       :: slices (length text - 1) text (0 + MAX_LENGTH)).
    { destruct (length text) as [|n] eqn:Hn;
        [unfold MAX_LENGTH in Hgt; lia|].
      rewrite slices_step by lia. rewrite drop_0.
      by replace (S n - 1) with n by lia. }
    destruct Hend as [(-> & -> & Hall)|(-> & k & Hk & Hk')].
    + rewrite Hfirst in Hall. specialize (Hall 0 ltac:(cbn [length]; lia)).
      rewrite Nat.add_0_r in Hall. congruence.
    + assert (k = 0) as ->.
      { destruct k as [|k]; [done|].
        specialize (Hmid 0 ltac:(lia)). rewrite Nat.add_0_r in Hmid.
        congruence. }
      assert (cs = [take MAX_LENGTH text]) as ->.
      { rewrite Hfirst in Hpre. destruct cs as [|c [|c' cs]];
          [done| |done].
        destruct Hpre as [rest Hrest]. by inversion Hrest. }
      rewrite (sendMessage_long_run env jid text s a _ _ Ha Hgt Hrun)
        by done.
      done.
Qed.

End SlackFaults.

(** C9. Transport faults stay inside the channel.  [sendMessage] resolves
    normally for every JID and text, in every state and whatever the
    transport does; in particular, on a connected channel whose first
    transport call fails, the call is made, the failure is logged, and
    [sendMessage] still resolves.  When the user-info lookup fails on a
    cache miss, [resolveUserName] resolves to the raw user id, and the
    handling of the inbound event goes on with that name: the chat
    metadata is handed over, and so is the message of a registered
    chat. *)
Theorem transport_faults_contained (env : Slack.Env) (s : Slack.State) :
  (* sending: for every jid and text *)
  (forall jid text : jsstring,
     result (Slack.sendMessage env jid text) s = Ok tt
     /\ (forall a,
           Slack.app s = Some a ->
           Slack.post_ok env (length (Slack.trace s)) = false ->
           Slack.emitted (Slack.sendMessage env jid text) s
           = [Slack.PostMessage (strip_prefix (js "slack:") jid)
                (take Slack.MAX_LENGTH text);
              Slack.Log Slack.Error "Failed to send Slack message"]))
  (* a lookup that fails, and the inbound event it was made for *)
  /\ (forall (msg : Slack.Message) (userId t : jsstring),
        Slack.userNameCache s !! userId = None ->
        (Slack.app s = None
         \/ exists e, Slack.lookup_reply env (length (Slack.trace s)) userId
                      = Slack.LookupRejects e) ->
        Slack.passes_filters msg = true ->
        Slack.user msg = Some userId ->
        Slack.ts msg ≫= Slack.toISOString env = Some t ->
        let chat := js "slack:" ++ userId in
        let evs := Slack.emitted (Slack.on_message env msg) s in
        result (Slack.resolveUserName env userId) s = Ok userId
        /\ result (Slack.on_message env msg) s = Ok tt
        /\ In (Slack.OnChatMetadata chat t userId) evs
        /\ (is_Some (Slack.registeredGroups s !! chat) ->
              In (Slack.OnMessage chat
                    {| Slack.id := Slack.ts msg; Slack.chat_jid := chat;
                       Slack.sender := userId; Slack.sender_name := userId;
                       Slack.content := or_else (Slack.text msg) [];
                       Slack.timestamp := t; Slack.is_from_me := false |})
                 evs)).
Proof.
  split.
  { intros jid text. split; [apply sendMessage_resolves|].
    intros a Ha Hfail.
    by rewrite (emitted_pushes _ _ _ _
                  (sendMessage_first_call_fails env jid text s a Ha Hfail)). }
  intros msg userId t Hmiss Hfail Hpass Huser Hts chat evs.
  assert (Hname : result (Slack.resolveUserName env userId) s = Ok userId).
  { unfold result, Slack.resolveUserName. rewrite bind_unfold.
    unfold get at 1. rewrite Hmiss, fetchUserName_run.
    destruct Hfail as [Ha|[e He]].
    - by rewrite Ha.
    - rewrite He. by destruct (Slack.app s). }
  split; [done|].
  destruct (on_message_run env msg userId t s Hpass Huser Hts)
    as (senderName & es & cache & Hres & _ & Hrun).
  unfold result in Hname. rewrite Hres in Hname.
  inversion Hname; subst senderName.
  split; [unfold result; by rewrite Hrun|].
  assert (Hevs : evs = es ++ Slack.OnChatMetadata chat t userId ::
                   match Slack.registeredGroups s !! chat with
                   | Some _ =>
                       [Slack.OnMessage chat
                          {| Slack.id := Slack.ts msg; Slack.chat_jid := chat;
                             Slack.sender := userId;
                             Slack.sender_name := userId;
                             Slack.content := or_else (Slack.text msg) [];
                             Slack.timestamp := t;
                             Slack.is_from_me := false |};
                        Slack.Log Slack.Info "Slack message stored"]
                   | None =>
                       [Slack.Log Slack.Debug "Message from unregistered Slack DM"]
                   end).
  { unfold evs. eapply emitted_pushes_from; [|exact Hrun]. reflexivity. }
  rewrite Hevs.
  split; [apply in_or_app; right; by left|].
  intros [g Hg]. rewrite Hg. apply in_or_app. right. right. by left.
Qed.

Lemma transport_faults_contained_witness :
  (* a connected channel whose posts fail and whose lookups resolve *)
  Slack.app Sample.connected = Some Sample.the_app
  /\ Slack.post_ok Sample.env_down (length (Slack.trace Sample.connected))
     = false
  /\ result (Slack.sendMessage Sample.env_down (js "slack:U100200300")
               (js "Will fail")) Sample.connected = Ok tt
  /\ Slack.emitted (Slack.sendMessage Sample.env_down (js "slack:U100200300")
                      (js "Will fail")) Sample.connected
     = [Slack.PostMessage (js "U100200300") (js "Will fail");
        Slack.Log Slack.Error "Failed to send Slack message"]
  (* a lookup that fails *)
  /\ Slack.userNameCache Sample.connected !! js "U100200300" = None
  /\ Slack.passes_filters (Sample.dm "U100200300") = true
  /\ result (Slack.resolveUserName Sample.env_down (js "U100200300"))
       Sample.connected = Ok (js "U100200300").
Proof.
  destruct (transport_faults_contained Sample.env_down Sample.connected)
    as [Hsend Hlookup].
  destruct (Hsend (js "slack:U100200300") (js "Will fail")) as [H1 H2].
  destruct (Hlookup (Sample.dm "U100200300") (js "U100200300")
              (js "2024-01-01T00:00:00.000Z") eq_refl
              (or_intror (ex_intro _ (Failure "API error") eq_refl))
              eq_refl eq_refl eq_refl) as (H3 & _).
  split; [reflexivity|]. split; [reflexivity|]. split; [exact H1|].
  split; [exact (H2 Sample.the_app eq_refl eq_refl)|].
  split; [reflexivity|]. split; [reflexivity|]. exact H3.
Defined.

(** ** The CLI loop: the IPC mailbox *)

Section Mailbox.
Import Chat.
Variable env : Env.

Lemma chat_pushes_nil s : pushes [] s = s.
Proof. destruct s. unfold pushes. simpl. by rewrite app_nil_r. Qed.

Lemma chat_pushes_pushes es1 es2 s :
  pushes es2 (pushes es1 s) = pushes (es1 ++ es2) s.
Proof. unfold pushes. simpl. by rewrite app_assoc. Qed.

Lemma chat_emit_run e s : emit e s = (Ok tt, pushes [e] s).
Proof. reflexivity. Qed.

Lemma chat_emitted_from {A} (m : M State A) (s s' : State)
    (a : outcome A) es :
  trace s' = trace s -> m s = (a, pushes es s') -> emitted m s = es.
Proof.
  intros Ht H. unfold emitted, final. rewrite H. simpl. rewrite Ht.
  apply drop_length_app.
Qed.

Lemma set_mailbox_same s dir : mailbox s = Some dir -> set_mailbox (Some dir) s = s.
Proof. intros H. destruct s. simpl in H. by subst. Qed.

Lemma unlinkSync_run file s dir body :
  mailbox s = Some dir -> dir !! file = Some body ->
  unlinkSync file s =
    (Ok tt, pushes [Unlink file] (set_mailbox (Some (delete file dir)) s)).
Proof.
  intros Hm Hf. unfold unlinkSync. rewrite bind_unfold. unfold get at 1.
  by rewrite Hm, Hf.
Qed.

(** The loop body never throws.  On a file it can read, it does what
    [poll_events] says: nothing at all, or some events ending with the
    deletion of the file. *)
Lemma poll_file_run file s dir body :
  mailbox s = Some dir -> dir !! file = Some body ->
  poll_file env file s =
    (Ok tt,
     match poll_events env file body with
     | Some es => pushes es (set_mailbox (Some (delete file dir)) s)
     | None => s
     end).
Proof.
  intros Hm Hf.
  pose proof (unlinkSync_run file s dir body Hm Hf) as Hun.
  assert (Hun' : forall es,
    unlinkSync file (pushes es s) =
      (Ok tt, pushes (es ++ [Unlink file])
                (set_mailbox (Some (delete file dir)) s))).
  { intros es. rewrite (unlinkSync_run file (pushes es s) dir body); try done.
    f_equal. unfold pushes, set_mailbox. simpl. by rewrite <- app_assoc. }
  unfold poll_file. rewrite try_catch_unfold, bind_unfold.
  unfold readFileSync. rewrite bind_unfold. unfold get at 1.
  rewrite Hm. simpl. rewrite Hf. unfold ret at 1.
  destruct body as [raw|v]; [done|].
  rewrite bind_unfold. simpl JSON_parse. unfold ret at 1.
  destruct v as [|b|z|str|items|fields];
    [done
    | by cbv [bind get_prop ret is_message]; rewrite Hun ..
    |].
  cbv [bind get_prop ret]. simpl poll_events.
  destruct (is_message (assoc (js "type") fields)); [|by rewrite Hun].
  destruct (assoc (js "text") fields) as [[|b|z|str|items|fs]|];
    cbv [truthy_value].
  - by rewrite Hun.
  - destruct b; cbv [replace_and_trim throw]; [done | by rewrite Hun].
  - destruct (negb (z =? 0)%Z); cbv [replace_and_trim throw];
      [done | by rewrite Hun].
  - destruct (truthy str) eqn:Hs; [|by rewrite andb_false_r, Hun].
    rewrite andb_true_r. cbv [replace_and_trim ret].
    destruct (truthy (visible_text str)); cbv beta iota;
      [|by rewrite Hun].
    by rewrite !chat_emit_run, chat_pushes_pushes, Hun'.
  - done.
  - done.
  - by rewrite Hun.
Qed.

Lemma poll_file_missing file s :
  mailbox s ≫= (fun dir => dir !! file) = None ->
  poll_file env file s = (Ok tt, s).
Proof.
  intros H. unfold poll_file, readFileSync.
  rewrite try_catch_unfold, !bind_unfold. unfold get at 1. by rewrite H.
Qed.

Lemma chat_pushes_set es1 es2 m1 m2 s :
  pushes es2 (set_mailbox m2 (pushes es1 (set_mailbox m1 s)))
  = pushes (es1 ++ es2) (set_mailbox m2 s).
Proof. unfold pushes, set_mailbox. simpl. by rewrite app_assoc. Qed.

(** The loop over the listing: every file contributes its own events,
    in listing order; the files that were consumed are gone and nothing
    else in the directory changes. *)
Lemma poll_loop_run (dir : gmap jsstring FileBody) (l : list jsstring) :
  NoDup l ->
  forall s d,
    mailbox s = Some d ->
    (forall f, f ∈ l -> d !! f = dir !! f) ->
    exists d',
      for_each l (poll_file env) s =
        (Ok tt,
         pushes (flat_map (file_events env dir) l)
                (set_mailbox (Some d') s))
      /\ forall f,
           d' !! f =
             if decide (f ∈ l) then
               match dir !! f ≫= poll_events env f with
               | Some _ => None
               | None => dir !! f
               end
             else d !! f.
Proof.
  induction 1 as [|f l Hnotin Hnodup IH]; intros s d Hm Hsame.
  - exists d. simpl. rewrite set_mailbox_same, chat_pushes_nil by done.
    by split.
  - assert (Hf : d !! f = dir !! f) by (apply Hsame; left).
    cbn [for_each flat_map]. rewrite bind_unfold.
    unfold file_events at 1.
    destruct (dir !! f) as [body|] eqn:Hdir.
    + rewrite (poll_file_run f s d body Hm Hf). simpl.
      destruct (poll_events env f body) as [es|] eqn:Hev.
      * destruct (IH (pushes es (set_mailbox (Some (delete f d)) s))
                    (delete f d)) as (d' & Hrun & Hd'); [done| |].
        { intros g Hg. assert (f <> g) by (by intros ->).
          rewrite lookup_delete_ne by done. apply Hsame. by right. }
        exists d'. split; [by rewrite Hrun, chat_pushes_set|].
        intros g. rewrite Hd'. destruct (decide (g = f)) as [->|Hne].
        -- rewrite decide_False by done. rewrite decide_True by left.
           rewrite Hdir. simpl. rewrite Hev. apply lookup_delete_eq.
        -- destruct (decide (g ∈ l)) as [Hin|Hout].
           ++ by rewrite decide_True by (by right).
           ++ rewrite decide_False; [by apply lookup_delete_ne|].
              intros [?|?]%elem_of_cons; done.
      * destruct (IH s d) as (d' & Hrun & Hd'); [done| |].
        { intros g Hg. apply Hsame. by right. }
        exists d'. split; [done|].
        intros g. rewrite Hd'. destruct (decide (g = f)) as [->|Hne].
        -- rewrite decide_False by done. rewrite decide_True by left.
           rewrite Hdir. simpl. by rewrite Hev.
        -- destruct (decide (g ∈ l)) as [Hin|Hout].
           ++ by rewrite decide_True by (by right).
           ++ rewrite decide_False; [done|].
              intros [?|?]%elem_of_cons; done.
    + rewrite poll_file_missing by (by rewrite Hm; simpl; rewrite Hf).
      simpl. destruct (IH s d) as (d' & Hrun & Hd'); [done| |].
      { intros g Hg. apply Hsame. by right. }
      exists d'. split; [done|].
      intros g. rewrite Hd'. destruct (decide (g = f)) as [->|Hne].
      * rewrite decide_False by done. rewrite decide_True by left.
        by rewrite Hdir.
      * destruct (decide (g ∈ l)) as [Hin|Hout].
        -- by rewrite decide_True by (by right).
        -- rewrite decide_False; [done|].
           intros [?|?]%elem_of_cons; done.
Qed.

Lemma json_files_NoDup (dir : gmap jsstring FileBody) :
  NoDup (json_files dir).
Proof.
  unfold json_files. apply NoDup_ListNoDup, List.NoDup_filter.
  apply NoDup_ListNoDup, NoDup_fst_map_to_list.
Qed.

Lemma elem_of_json_files (dir : gmap jsstring FileBody) file :
  file ∈ json_files dir
  <-> is_Some (dir !! file) /\ endsWith file (js ".json") = true.
Proof.
  unfold json_files. rewrite list_elem_of_In, List.filter_In.
  rewrite <- list_elem_of_In, list_elem_of_fmap. split.
  - intros [([f b] & -> & Hin) Hjson]. split; [|done].
    apply elem_of_map_to_list in Hin. by exists b.
  - intros [[b Hb] Hjson]. split; [|done].
    exists (file, b). split; [done|]. by apply elem_of_map_to_list.
Qed.

(** One polling pass over an existing directory. *)
Lemma ipc_poll_run s dir :
  mailbox s = Some dir ->
  exists dir',
    ipc_poll env s =
      (Ok tt,
       pushes (flat_map (file_events env dir) (json_files dir))
              (set_mailbox (Some dir') s))
    /\ forall f,
         dir' !! f =
           if decide (f ∈ json_files dir) then
             match dir !! f ≫= poll_events env f with
             | Some _ => None
             | None => dir !! f
             end
           else dir !! f.
Proof.
  intros Hm.
  destruct (poll_loop_run dir (json_files dir) (json_files_NoDup dir)
              s dir Hm (fun _ _ => eq_refl)) as (dir' & Hrun & Hd').
  exists dir'. split; [|done].
  unfold ipc_poll, readdirSync.
  rewrite try_catch_unfold, !bind_unfold. unfold get at 1. rewrite Hm.
  unfold ret at 1. fold (json_files dir). by rewrite Hrun.
Qed.

(** When the directory does not exist the pass does nothing. *)
Lemma ipc_poll_no_directory s :
  mailbox s = None -> ipc_poll env s = (Ok tt, s).
Proof.
  intros Hm. unfold ipc_poll, readdirSync.
  rewrite try_catch_unfold, !bind_unfold. unfold get at 1. by rewrite Hm.
Qed.

End Mailbox.

Section MailboxFiles.
Import Chat.
Variable env : Env.

(** The only deletion among the events of a file is its own. *)
Lemma poll_events_unlink file body es f :
  poll_events env file body = Some es -> In (Unlink f) es -> f = file.
Proof.
  unfold poll_events. intros Hev Hin.
  assert (Hone : es = [Unlink file] -> f = file).
  { intros ->. destruct Hin as [Hin|[]]. by inversion Hin. }
  destruct body as [raw|[|b|z|str|items|fields]]; try discriminate;
    try (apply Hone; congruence).
  destruct (is_message _); [|apply Hone; congruence].
  destruct (assoc (js "text") fields) as [[|b|z|str|items|fs]|];
    simpl in Hev; try discriminate; try (apply Hone; congruence).
  - destruct b; [discriminate | apply Hone; congruence].
  - destruct (negb _); [discriminate | apply Hone; congruence].
  - destruct (truthy (visible_text str) && truthy str);
      [|apply Hone; congruence].
    inversion Hev; subst es.
    destruct Hin as [Hin|[Hin|[Hin|[]]]]; try discriminate.
    by inversion Hin.
Qed.

Lemma file_events_unlink dir file f :
  In (Unlink f) (file_events env dir file) ->
  f = file /\ is_Some (dir !! file ≫= poll_events env file).
Proof.
  unfold file_events. destruct (dir !! file) as [body|]; simpl; [|done].
  destruct (poll_events env file body) as [es|] eqn:Hev; simpl; [|done].
  intros Hin. split; [by eapply poll_events_unlink | by eexists].
Qed.

(** Nothing is left of a string that is empty to begin with. *)
Lemma truthy_visible_text t :
  truthy (visible_text t) && truthy t = truthy (visible_text t).
Proof. destruct t; [reflexivity | apply andb_true_r]. Qed.

(** The events of a deliverable envelope. *)
Lemma poll_events_envelope file fields t :
  assoc (js "type") fields = Some (JStr (js "message")) ->
  assoc (js "text") fields = Some (JStr t) ->
  poll_events env file (Parses (JObj fields)) =
    Some ((if truthy (visible_text t)
           then [ConsoleLog (reply_line env (visible_text t)); Prompt]
           else []) ++ [Unlink file]).
Proof.
  intros Hty Htx. unfold poll_events. rewrite Hty, Htx.
  change (is_message (Some (JStr (js "message")))) with true. cbv iota.
  rewrite truthy_visible_text. by destruct (truthy (visible_text t)).
Qed.

End MailboxFiles.

(** C1, as the code has it.  A file whose contents fail to parse is
    skipped: the loop body does nothing at all for it -- no delivery, and
    no deletion either -- so after the polling pass the file is still in
    the mailbox with the same contents, and every later pass meets it
    again. *)
Theorem malformed_file_left_in_place (env : Chat.Env) (s : Chat.State)
    (dir : gmap jsstring Chat.FileBody) (file raw : jsstring) :
  Chat.mailbox s = Some dir ->
  dir !! file = Some (Chat.Malformed raw) ->
  Chat.poll_file env file s = (Ok tt, s)
  /\ Chat.file_events env dir file = []
  /\ result (Chat.ipc_poll env) s = Ok tt
  /\ Chat.mailbox (final (Chat.ipc_poll env) s) ≫= (fun d => d !! file)
       = Some (Chat.Malformed raw)
  /\ ~ In (Chat.Unlink file) (Chat.emitted (Chat.ipc_poll env) s).
Proof.
  intros Hm Hf.
  split; [by rewrite (poll_file_run env file s dir _ Hm Hf)|].
  assert (Hnone : Chat.file_events env dir file = [])
    by (unfold Chat.file_events; by rewrite Hf).
  split; [done|].
  destruct (ipc_poll_run env s dir Hm) as (dir' & Hrun & Hd').
  split; [unfold result; by rewrite Hrun|].
  split.
  - unfold final. rewrite Hrun. simpl. rewrite Hd', Hf. simpl.
    by destruct (decide _).
  - erewrite chat_emitted_from; [|  |exact Hrun]; [|reflexivity].
    intros Hin. apply List.in_flat_map in Hin as (g & _ & Hg).
    pose proof (file_events_unlink env dir g file Hg) as [<- _].
    rewrite Hnone in Hg. destruct Hg.
Qed.

Lemma malformed_file_left_in_place_witness :
  Chat.mailbox Sample.inbox = Some Sample.files
  /\ Sample.files !! js "bad.json" = Some (Chat.Malformed (js "{type: mess"))
  /\ Chat.poll_file Sample.cli (js "bad.json") Sample.inbox
       = (Ok tt, Sample.inbox).
Proof.
  split; [reflexivity|]. split; [reflexivity|].
  apply (malformed_file_left_in_place Sample.cli Sample.inbox Sample.files
           (js "bad.json") (js "{type: mess") eq_refl eq_refl).
Defined.

(** C1, as stated, fails: after a polling pass over a mailbox that holds
    the unparseable [bad.json], the file has not been deleted, and the
    next pass finds the same file again. *)
Lemma malformed_file_deleted_cex :
  Sample.files !! js "bad.json" = Some (Chat.Malformed (js "{type: mess"))
  /\ endsWith (js "bad.json") (js ".json") = true
  /\ Chat.mailbox (final (Chat.ipc_poll Sample.cli) Sample.inbox)
       ≫= (fun d => d !! js "bad.json") <> None
  /\ Chat.mailbox
       (final (Chat.ipc_poll Sample.cli)
          (final (Chat.ipc_poll Sample.cli) Sample.inbox))
       ≫= (fun d => d !! js "bad.json") <> None.
Proof. repeat split; vm_compute; congruence. Qed.

Section ShownContent.
Import RoundTrip.

Lemma occurs_startsWith (s p tag q : jsstring) :
  s = p ++ tag ++ q -> startsWith (drop (length p) s) tag = true.
Proof.
  intros ->. rewrite drop_app_length. apply startsWith_spec. by exists q.
Qed.

(** A text that does not start with a region keeps its first code unit. *)
Lemma regions_removed_cons (c : N) (r out : jsstring) :
  (forall m b, c :: r <> open_tag ++ m ++ close_tag ++ b) ->
  regions_removed r out -> regions_removed (c :: r) (c :: out).
Proof.
  intros Hhead Hr. destruct Hr as [r Hno|a m b out Hleft Hlazy Hrest].
  - apply none_left. intros (a & m & b & Heq).
    destruct a as [|c' a].
    + by apply (Hhead m b).
    + apply Hno. exists a, m, b.
      rewrite <- app_comm_cons in Heq. by inversion Heq.
  - rewrite !app_comm_cons. apply region_removed; [|done|done].
    intros p q Heq. destruct p as [|c' p].
    + exfalso. rewrite app_nil_l in Heq.
      set (x := (c :: a) ++ open_tag ++ m) in *.
      assert (Hx : length open_tag <= length x)
        by (unfold x; rewrite !length_app; lia).
      apply (Hhead (drop (length open_tag) x) b).
      assert (Hs : (c :: a) ++ open_tag ++ m ++ close_tag ++ b
                   = x ++ close_tag ++ b)
        by (unfold x; by rewrite <- !app_assoc).
      rewrite <- app_comm_cons in Hs. rewrite Hs.
      rewrite <- app_comm_cons, Hs in Heq.
      assert (Htake : take (length open_tag) x = open_tag).
      { apply (f_equal (take (length open_tag))) in Heq.
        rewrite take_app_le in Heq by done.
        by rewrite Heq, take_app_length. }
      rewrite <- (take_drop (length open_tag) x) at 1.
      by rewrite Htake, <- app_assoc.
    + rewrite <- !app_comm_cons in Heq. inversion Heq as [[Hc Hr]].
      cbn [length]. apply le_n_S. by apply (Hleft p q).
Qed.

Lemma strip_internal_from_regions_removed (fuel : nat) :
  forall s : jsstring,
    length s <= fuel -> regions_removed s (strip_internal_from fuel s).
Proof.
  assert (Hnil : ~ has_region []).
  { intros (a & m & b & Heq).
    apply (f_equal length) in Heq. rewrite !length_app in Heq.
    assert (0 < length open_tag) by (vm_compute; lia).
    cbn [length] in Heq. lia. }
  induction fuel as [|fuel IH]; intros s Hlen.
  - destruct s as [|c r]; [|cbn [length] in Hlen; lia].
    cbn [strip_internal_from]. by apply none_left.
  - destruct s as [|c r].
    { cbn [strip_internal_from]. by apply none_left. }
    cbn [strip_internal_from].
    assert (Hr : regions_removed r (strip_internal_from fuel r))
      by (apply IH; cbn [length] in Hlen; lia).
    destruct (startsWith (c :: r) open_tag) eqn:Hopen.
    + apply startsWith_spec in Hopen as [s1 Hs1].
      rewrite Hs1, drop_app_length.
      destruct (after_close s1) as [rest|] eqn:Hclose.
      * destruct (after_close_spec s1 rest Hclose) as (mid & Hmid & Hfirst).
        pose proof (after_close_length s1 rest Hclose) as Hshort.
        rewrite Hmid.
        apply (region_removed [] mid rest (strip_internal_from fuel rest)).
        -- intros p q _. cbn [length]. lia.
        -- intros p q Heq.
           destruct (Nat.le_gt_cases (length mid) (length p)) as [|Hlt];
             [done|].
           exfalso. rewrite <- Hmid in Heq.
           apply occurs_startsWith in Heq.
           by rewrite (Hfirst (length p) Hlt) in Heq.
        -- apply IH.
           apply (f_equal length) in Hs1. rewrite length_app in Hs1.
           assert (0 < length open_tag) by (vm_compute; lia).
           cbn [length] in Hs1, Hlen. lia.
      * rewrite <- Hs1. apply regions_removed_cons; [|done].
        intros m b Heq. rewrite Hs1 in Heq. apply app_inv_head in Heq.
        apply occurs_startsWith in Heq.
        by rewrite (after_close_none s1 Hclose) in Heq.
    + apply regions_removed_cons; [|done].
      intros m b Heq.
      assert (startsWith (c :: r) open_tag = true)
        by (apply startsWith_spec; by eexists).
      congruence.
Qed.

(** The scan of the code removes the regions of the text. *)
Lemma strip_internal_regions_removed (s : jsstring) :
  regions_removed s (strip_internal s).
Proof. by apply strip_internal_from_regions_removed. Qed.

(** ... and there is one text only with the regions removed. *)
Lemma regions_removed_functional (s out1 out2 : jsstring) :
  regions_removed s out1 -> regions_removed s out2 -> out1 = out2.
Proof.
  intros H1. revert out2.
  induction H1 as [s Hno|a m b out Hleft Hlazy Hrest IH]; intros out2 H2.
  - inversion H2 as [|a m b out Hl Hz Hr Heq]; [done|].
    destruct Hno. subst. by exists a, m, b.
  - remember (a ++ open_tag ++ m ++ close_tag ++ b) as s eqn:Hs.
    destruct H2 as [s Hno|a' m' b' out' Hleft' Hlazy' Hrest'].
    + destruct Hno. by exists a, m, b.
    + assert (Hlen : length a = length a').
      { apply Nat.le_antisymm.
        - by apply (Hleft a' (m' ++ close_tag ++ b')).
        - by apply (Hleft' a (m ++ close_tag ++ b)). }
      apply app_inj_1 in Hs as [Ha Hs]; [|done]. subst a'.
      apply app_inv_head in Hs.
      assert (Hlen' : length m' = length m).
      { apply Nat.le_antisymm.
        - by apply (Hlazy' m b).
        - by apply (Hlazy m' b'). }
      apply app_inj_1 in Hs as [Hm Hs]; [|done]. subst m'.
      apply app_inv_head in Hs. subst b'.
      f_equal. by apply IH.
Qed.

(** [trim] removes the white space around a text. *)
Lemma trim_trimmed (s : jsstring) : trimmed s (trim s).
Proof.
  destruct (trim_spec s) as (l & r & Hs & Hl & Hr & H1 & H2).
  by exists l, r.
Qed.

Lemma trimStart_app_spaces (l x : jsstring) :
  Forall (fun c => is_space c = true) l -> trimStart (l ++ x) = trimStart x.
Proof.
  induction 1 as [|c l Hc _ IH]; [done|].
  rewrite <- app_comm_cons. cbn [trimStart]. by rewrite Hc.
Qed.

(** ... and it is the only text that is [s] without the white space
    around it. *)
Lemma trimmed_functional (s t : jsstring) : trimmed s t -> t = trim s.
Proof.
  intros (l & r & -> & Hl & Hr & Hfirst & Hlast).
  unfold trim, trimEnd. rewrite trimStart_app_spaces by done.
  destruct t as [|c t'].
  - rewrite app_nil_l.
    replace (trimStart r) with (@nil N)
      by (rewrite <- (app_nil_r r); by rewrite trimStart_app_spaces).
    done.
  - assert (Hc : is_space c = false) by by apply (Hfirst c t').
    rewrite <- app_comm_cons. cbn [trimStart]. rewrite Hc.
    rewrite app_comm_cons, rev_app_distr.
    rewrite trimStart_app_spaces by by apply List.Forall_rev.
    destruct (rev (c :: t')) as [|d u] eqn:Hrev.
    + apply (f_equal (@rev N)) in Hrev. rewrite rev_involutive in Hrev.
      discriminate.
    + assert (Ht : c :: t' = rev u ++ [d]).
      { apply (f_equal (@rev N)) in Hrev.
        by rewrite rev_involutive in Hrev. }
      cbn [trimStart]. rewrite (Hlast (rev u) d Ht).
      by rewrite <- Hrev, rev_involutive.
Qed.

End ShownContent.

(** C6. Round trip through the mailbox.  For a file that parses to
    [{type: "message", text}] with a string [text], the content that is
    delivered is the written text with every [<internal>...</internal>]
    region removed and the surrounding white space trimmed, and it is the
    only text of that description.  The loop body prints one line for it
    -- a line break, the name of the assistant, a colon, a space and the
    content -- and prompts; when the content is empty it prints nothing.
    Then it deletes the file, in both cases.  In a polling pass these are
    the events of that file, and the file is gone afterwards. *)
Theorem mailbox_round_trip (env : Chat.Env) (s : Chat.State)
    (dir : gmap jsstring Chat.FileBody) (file : jsstring)
    (fields : list (jsstring * Chat.json)) (text : jsstring) :
  Chat.mailbox s = Some dir ->
  dir !! file = Some (Chat.Parses (Chat.JObj fields)) ->
  Chat.assoc (js "type") fields = Some (Chat.JStr (js "message")) ->
  Chat.assoc (js "text") fields = Some (Chat.JStr text) ->
  endsWith file (js ".json") = true ->
  exists stripped shown,
    (* the delivered content *)
    RoundTrip.regions_removed text stripped
    /\ RoundTrip.trimmed stripped shown
    /\ (forall stripped' shown',
          RoundTrip.regions_removed text stripped' ->
          RoundTrip.trimmed stripped' shown' -> shown' = shown)
    /\ let delivery :=
         match shown with
         | [] => []
         | _ :: _ =>
             [Chat.ConsoleLog
                (js (String "010" EmptyString) ++ Chat.ASSISTANT_NAME env
                 ++ js ": " ++ shown);
              Chat.Prompt]
         end in
       (* the loop body on this file *)
       result (Chat.poll_file env file) s = Ok tt
       /\ Chat.emitted (Chat.poll_file env file) s
          = delivery ++ [Chat.Unlink file]
       /\ Chat.mailbox (final (Chat.poll_file env file) s)
          = Some (delete file dir)
       (* a whole pass *)
       /\ (exists before after,
             Chat.emitted (Chat.ipc_poll env) s
             = before ++ (delivery ++ [Chat.Unlink file]) ++ after)
       /\ Chat.mailbox (final (Chat.ipc_poll env) s)
            ≫= (fun d => d !! file) = None.
Proof.
  intros Hm Hf Hty Htx Hjson.
  exists (strip_internal text), (trim (strip_internal text)).
  split; [apply strip_internal_regions_removed|].
  split; [apply trim_trimmed|].
  split.
  { intros stripped' shown' Hr Ht.
    rewrite (regions_removed_functional _ _ _ Hr
               (strip_internal_regions_removed text)) in Ht.
    by apply trimmed_functional. }
  intros delivery.
  pose proof (poll_events_envelope env file fields text Hty Htx) as Hev.
  assert (Hdel : (if truthy (visible_text text)
                  then [Chat.ConsoleLog
                          (Chat.reply_line env (visible_text text));
                        Chat.Prompt]
                  else []) = delivery).
  { unfold delivery, visible_text, Chat.reply_line.
    by destruct (trim (strip_internal text)). }
  rewrite Hdel in Hev. clearbody delivery. clear Hdel.
  pose proof (poll_file_run env file s dir _ Hm Hf) as Hrun.
  rewrite Hev in Hrun.
  split; [unfold result; by rewrite Hrun|].
  split; [eapply chat_emitted_from; [|exact Hrun]; reflexivity|].
  split; [unfold final; by rewrite Hrun|].
  destruct (ipc_poll_run env s dir Hm) as (dir' & Hpass & Hd').
  assert (Hin : file ∈ Chat.json_files dir)
    by (apply elem_of_json_files; split; [by eexists | done]).
  split.
  - erewrite chat_emitted_from; [|  |exact Hpass]; [|reflexivity].
    apply list_elem_of_split in Hin as (l1 & l2 & ->).
    exists (flat_map (Chat.file_events env dir) l1),
           (flat_map (Chat.file_events env dir) l2).
    rewrite List.flat_map_app. cbn [flat_map]. f_equal. f_equal.
    unfold Chat.file_events. rewrite Hf. unfold mbind, option_bind.
    by rewrite Hev.
  - unfold final. rewrite Hpass. cbn [snd Chat.mailbox Chat.pushes Chat.set_mailbox].
    unfold mbind at 1, option_bind at 1. rewrite Hd'.
    rewrite decide_True by done. rewrite Hf. unfold mbind, option_bind.
    by rewrite Hev.
Qed.

Lemma mailbox_round_trip_witness :
  Chat.mailbox Sample.inbox = Some Sample.files
  /\ Sample.files !! js "msg.json"
       = Some (Sample.envelope " done <internal>scratch</internal>")
  /\ endsWith (js "msg.json") (js ".json") = true
  /\ Chat.emitted (Chat.poll_file Sample.cli (js "msg.json")) Sample.inbox
       = [Chat.ConsoleLog (js (String "010" "Andy: done"));
          Chat.Prompt; Chat.Unlink (js "msg.json")].
Proof.
  split; [reflexivity|]. split; [reflexivity|]. split; [reflexivity|].
  destruct (mailbox_round_trip Sample.cli Sample.inbox Sample.files
              (js "msg.json") _ (js " done <internal>scratch</internal>")
              eq_refl eq_refl eq_refl eq_refl eq_refl)
    as (stripped & shown & Hr & Ht & _ & _ & Hemitted & _).
  assert (Hshown : shown = js "done").
  { rewrite (regions_removed_functional _ _ _ Hr
               (strip_internal_regions_removed _)) in Ht.
    by rewrite (trimmed_functional _ _ Ht). }
  rewrite Hemitted, Hshown. reflexivity.
Defined.

(** ** The CLI loop: cleanup on exit *)

Section Cleanup.
Import Chat.
Variable env : Env.

(** The sentinel step: the write is attempted; the stream is closed when
    the write did not throw; nothing escapes the [try]. *)
Lemma sentinel_step_run p s :
  has_stdin p = true ->
  try_catch (stdin_write env p close_sentinel >> stdin_end env p)
            (fun _ => ret tt) s =
    (Ok tt,
     pushes (StdinWrite close_sentinel ::
             if stdin_write_ok env then [StdinEnd] else []) s).
Proof.
  intros Hin. unfold stdin_write, stdin_end. rewrite Hin.
  rewrite try_catch_unfold, !bind_unfold, chat_emit_run.
  destruct (stdin_write_ok env); [|done].
  unfold ret at 1. rewrite bind_unfold, chat_emit_run, chat_pushes_pushes.
  by destruct (stdin_end_ok env).
Qed.

(** The forced stop: attempted, and nothing escapes the [try]. *)
Lemma stop_step_run name s :
  try_catch (container_stop env name) (fun _ => ret tt) s =
    (Ok tt, pushes [ContainerStop name] s).
Proof.
  unfold container_stop.
  rewrite try_catch_unfold, bind_unfold, chat_emit_run.
  by destruct (container_stop_ok env name).
Qed.

Lemma cleanup_run s p name :
  activeProcess s = Some p -> killed p = false -> has_stdin p = true ->
  activeContainerName s = Some name -> truthy name = true ->
  cleanup env s =
    (Ok tt,
     pushes ([ClearInterval; StdinWrite close_sentinel]
             ++ (if stdin_write_ok env then [StdinEnd] else [])
             ++ [ContainerStop name; Exit 0]) s).
Proof.
  intros Hp Hk Hin Hn Ht. unfold cleanup.
  rewrite bind_unfold, chat_emit_run, bind_unfold. unfold get at 1.
  change (activeProcess (pushes _ s)) with (activeProcess s).
  change (activeContainerName (pushes _ s)) with (activeContainerName s).
  rewrite Hp, Hk, Hn, Ht. cbv [negb]. cbv iota.
  rewrite bind_unfold, bind_unfold, sentinel_step_run by done.
  rewrite stop_step_run, chat_emit_run, !chat_pushes_pushes.
  by destruct (stdin_write_ok env).
Qed.

(** With no active process there is nothing to stop. *)
Lemma cleanup_idle s :
  activeProcess s = None ->
  cleanup env s = (Ok tt, pushes [ClearInterval; Exit 0] s).
Proof.
  intros Hp. unfold cleanup.
  rewrite bind_unfold, chat_emit_run, bind_unfold. unfold get at 1.
  change (activeProcess (pushes _ s)) with (activeProcess s).
  rewrite Hp. rewrite bind_unfold. unfold ret at 1.
  by rewrite chat_emit_run, chat_pushes_pushes.
Qed.

End Cleanup.

(** C7. On cancellation of an active sandbox invocation (a live child
    process with its input stream, and a container name), [cleanup]
    attempts both steps whatever fails: it writes the sentinel to the
    input stream -- and closes the stream unless the write itself threw --
    and then issues the forced stop of the container, whether or not the
    sentinel step failed; a failing stop comes after the sentinel step and
    cannot undo it.  The process then exits with status 0. *)
Theorem cleanup_attempts_both_steps (env : Chat.Env) (s : Chat.State)
    (p : Chat.ChildProcess) (name : jsstring) :
  Chat.activeProcess s = Some p ->
  Chat.killed p = false ->
  Chat.has_stdin p = true ->
  Chat.activeContainerName s = Some name ->
  truthy name = true ->
  let evs := Chat.emitted (Chat.cleanup env) s in
  result (Chat.cleanup env) s = Ok tt
  /\ evs = [Chat.ClearInterval; Chat.StdinWrite Chat.close_sentinel]
           ++ (if Chat.stdin_write_ok env then [Chat.StdinEnd] else [])
           ++ [Chat.ContainerStop name; Chat.Exit 0]
  /\ In (Chat.StdinWrite Chat.close_sentinel) evs
  /\ (Chat.stdin_write_ok env = true -> In Chat.StdinEnd evs)
  /\ In (Chat.ContainerStop name) evs.
Proof.
  intros Hp Hk Hin Hn Ht evs.
  pose proof (cleanup_run env s p name Hp Hk Hin Hn Ht) as Hrun.
  assert (Hevs : evs = [Chat.ClearInterval; Chat.StdinWrite Chat.close_sentinel]
           ++ (if Chat.stdin_write_ok env then [Chat.StdinEnd] else [])
           ++ [Chat.ContainerStop name; Chat.Exit 0])
    by (eapply chat_emitted_from; [|exact Hrun]; reflexivity).
  split; [unfold result; by rewrite Hrun|].
  split; [done|]. rewrite Hevs.
  split; [right; by left|].
  split; [intros ->; right; right; by left|].
  destruct (Chat.stdin_write_ok env); simpl; tauto.
Qed.

Lemma cleanup_attempts_both_steps_witness :
  Chat.activeProcess Sample.busy
    = Some {| Chat.killed := false; Chat.has_stdin := true |}
  /\ Chat.activeContainerName Sample.busy
       = Some (js "nanoclaw-main-1700000000000")
  /\ Chat.emitted (Chat.cleanup Sample.cli_failing) Sample.busy
       = [Chat.ClearInterval; Chat.StdinWrite Chat.close_sentinel;
          Chat.ContainerStop (js "nanoclaw-main-1700000000000");
          Chat.Exit 0].
Proof.
  split; [reflexivity|]. split; [reflexivity|].
  apply (cleanup_attempts_both_steps Sample.cli_failing Sample.busy
           {| Chat.killed := false; Chat.has_stdin := true |}
           (js "nanoclaw-main-1700000000000")
           eq_refl eq_refl eq_refl eq_refl eq_refl).
Defined.

(** ** The CLI loop: session tokens *)

Section Sessions.
Import Chat.
Variable env : Env.

Lemma update_session_run o s :
  update_session env o s =
    (Ok tt,
     match carried_token o with
     | Some tok => recorded env tok s
     | None => s
     end).
Proof.
  unfold update_session, carried_token.
  destruct (newSessionId o) as [tok|]; [|done].
  by destruct (truthy tok).
Qed.

Lemma on_output_run r s :
  on_output env r s =
    (Ok tt,
     pushes (printed env r)
       match carried_token r with
       | Some tok => recorded env tok s
       | None => s
       end).
Proof.
  unfold on_output, printed. rewrite bind_unfold, update_session_run.
  destruct (result r) as [|raw|str].
  - by rewrite chat_pushes_nil.
  - destruct (truthy raw); simpl andb; [|by rewrite chat_pushes_nil].
    destruct (truthy (visible_text raw)); [done | by rewrite chat_pushes_nil].
  - destruct (truthy (visible_text str)); [done | by rewrite chat_pushes_nil].
Qed.

Lemma on_final_run o s :
  on_final env o s =
    (Ok tt,
     pushes
       match status o with
       | Failed =>
           [ConsoleError
              (error_line (or_else (error o) (js "Unknown error")))]
       | Success => []
       end
       match carried_token o with
       | Some tok => recorded env tok s
       | None => s
       end).
Proof.
  unfold on_final. rewrite bind_unfold, update_session_run.
  destruct (status o); [by rewrite chat_pushes_nil | done].
Qed.

Lemma printed_surfaced r : Forall (fun e => is_surfaced e = true) (printed env r).
Proof.
  unfold printed. destruct (result r) as [|raw|str];
    repeat match goal with |- context [if ?b then _ else _] => destruct b end;
    by repeat constructor.
Qed.

(** Handling a sequence of streamed outputs leaves the last token carried
    in both session tables. *)
Lemma stream_run outs : forall s,
  exists s',
    for_each outs (on_output env) s = (Ok tt, s')
    /\ db_sessions s' = with_last_token (groupFolder env) outs (db_sessions s)
    /\ sessions s' = with_last_token (groupFolder env) outs (sessions s).
Proof.
  unfold with_last_token.
  induction outs as [|o outs IH]; intros s; [by exists s|].
  cbn [for_each last_token]. rewrite bind_unfold, on_output_run.
  destruct (IH (pushes (printed env o)
                  match carried_token o with
                  | Some tok => recorded env tok s
                  | None => s
                  end)) as (s' & Hrun & Hdb & Hmem).
  exists s'. split; [done|]. rewrite Hdb, Hmem.
  destruct (last_token outs) as [tok'|], (carried_token o) as [tok|];
    simpl; by rewrite ?insert_insert_eq.
Qed.

Lemma last_token_snoc outs output :
  last_token (outs ++ [output]) =
    match carried_token output with
    | Some tok => Some tok
    | None => last_token outs
    end.
Proof.
  induction outs as [|o outs IH]; simpl.
  - by destruct (carried_token output).
  - rewrite IH. destruct (carried_token output); [done|].
    by destruct (last_token outs).
Qed.

(** A whole turn whose invocation resolves: the session tables hold the
    last token among the streamed outputs and the final output. *)
Lemma turn_sessions run output s :
  finish run = Resolves output ->
  exists s',
    turn env run s = (Ok tt, s')
    /\ db_sessions s'
       = with_last_token (groupFolder env) (streamed run ++ [output])
           (db_sessions s)
    /\ sessions s'
       = with_last_token (groupFolder env) (streamed run ++ [output])
           (sessions s).
Proof.
  intros Hfin. unfold turn.
  rewrite bind_unfold, chat_emit_run, bind_unfold, chat_emit_run.
  rewrite bind_unfold. unfold get at 1.
  rewrite bind_unfold, try_catch_unfold, bind_unfold.
  unfold runContainerAgent.
  rewrite bind_unfold, chat_emit_run, bind_unfold.
  set (s1 := pushes _ (pushes _ (pushes _ s))).
  assert (Hlaunch : exists s2,
            match launched run with
            | Some (proc, name) => on_process proc name
            | None => ret tt
            end s1 = (Ok tt, s2)
            /\ db_sessions s2 = db_sessions s /\ sessions s2 = sessions s).
  { destruct (launched run) as [[proc name]|]; by eexists. }
  destruct Hlaunch as (s2 & -> & Hdb2 & Hmem2).
  rewrite bind_unfold.
  destruct (stream_run (streamed run) s2) as (s3 & -> & Hdb3 & Hmem3).
  rewrite Hfin. unfold ret at 1. rewrite on_final_run.
  rewrite bind_unfold. unfold modify at 1.
  rewrite bind_unfold, chat_emit_run, chat_emit_run.
  eexists. split; [reflexivity|].
  unfold with_last_token in *. rewrite last_token_snoc.
  destruct (carried_token output) as [tok|]; simpl;
    rewrite ?Hdb3, ?Hmem3, ?Hdb2, ?Hmem2;
    destruct (last_token (streamed run)); by rewrite ?insert_insert_eq.
Qed.

End Sessions.

(** C5. Whenever an output of the sandbox invocation -- a streamed one or
    the final one -- carries a session token, the first thing the handler
    does with that output is to record the token with [setSession]; what
    it shows to the user (the reply of a streamed output, the error line
    of a failed turn) comes after.  The token replaces whatever was stored
    for the folder, so a later token overwrites an earlier one and after a
    turn the folder holds the token of the final output. *)
Theorem session_token_persisted_first (env : Chat.Env) (s : Chat.State)
    (r final_output : Chat.ContainerOutput) (tok tok2 : jsstring) :
  Chat.newSessionId r = Some tok -> truthy tok = true ->
  Chat.newSessionId final_output = Some tok2 -> truthy tok2 = true ->
  let folder := Chat.groupFolder env in
  (* a streamed output *)
  (exists rest,
     Chat.emitted (Chat.on_output env r) s = Chat.SetSession folder tok :: rest
     /\ Forall (fun e => Chat.is_surfaced e = true) rest)
  /\ Chat.db_sessions (final (Chat.on_output env r) s)
       = <[folder := tok]> (Chat.db_sessions s)
  (* the final output *)
  /\ (exists rest,
        Chat.emitted (Chat.on_final env final_output) s
          = Chat.SetSession folder tok2 :: rest
        /\ Forall (fun e => Chat.is_surfaced e = true) rest)
  /\ Chat.db_sessions (final (Chat.on_final env final_output) s)
       = <[folder := tok2]> (Chat.db_sessions s)
  (* a later token overwrites an earlier one *)
  /\ Chat.db_sessions
       (final (Chat.on_final env final_output)
          (final (Chat.on_output env r) s))
       = <[folder := tok2]> (Chat.db_sessions s)
  /\ (forall run, Chat.finish run = Chat.Resolves final_output ->
        Chat.db_sessions (final (Chat.turn env run) s) !! folder = Some tok2).
Proof.
  intros Hr Ht Hf Ht2 folder.
  assert (Hc : Chat.carried_token r = Some tok)
    by (unfold Chat.carried_token; by rewrite Hr, Ht).
  assert (Hc2 : Chat.carried_token final_output = Some tok2)
    by (unfold Chat.carried_token; by rewrite Hf, Ht2).
  assert (Hout : forall s0, Chat.on_output env r s0 =
            (Ok tt, Chat.pushes (Chat.printed env r) (Chat.recorded env tok s0)))
    by (intros s0; by rewrite on_output_run, Hc).
  assert (Hfin : forall s0, Chat.on_final env final_output s0 =
            (Ok tt,
             Chat.pushes
               match Chat.status final_output with
               | Chat.Failed =>
                   [Chat.ConsoleError
                      (Chat.error_line
                         (or_else (Chat.error final_output)
                                  (js "Unknown error")))]
               | Chat.Success => []
               end (Chat.recorded env tok2 s0)))
    by (intros s0; by rewrite on_final_run, Hc2).
  split.
  { exists (Chat.printed env r). split; [|apply printed_surfaced].
    unfold Chat.emitted, final. rewrite Hout. simpl.
    rewrite <- app_assoc. apply drop_length_app. }
  split; [unfold final; by rewrite Hout|].
  split.
  { eexists. split.
    - unfold Chat.emitted, final. rewrite Hfin. simpl.
      rewrite <- app_assoc. apply drop_length_app.
    - destruct (Chat.status final_output); by repeat constructor. }
  split; [unfold final; by rewrite Hfin|].
  split.
  { unfold final. rewrite Hout, Hfin. simpl. apply insert_insert_eq. }
  intros run Hrun.
  destruct (turn_sessions env run final_output s Hrun) as (s' & Hturn & Hdb & _).
  unfold final. rewrite Hturn. simpl. rewrite Hdb.
  unfold Chat.with_last_token. rewrite last_token_snoc, Hc2.
  apply lookup_insert_eq.
Qed.

Lemma session_token_persisted_first_witness :
  Chat.newSessionId Sample.progress = Some (js "session-1")
  /\ Chat.newSessionId Sample.done_output = Some (js "session-2")
  /\ Chat.db_sessions
       (final (Chat.on_final Sample.cli Sample.done_output)
          (final (Chat.on_output Sample.cli Sample.progress) Sample.inbox))
       = <[js "main" := js "session-2"]> (Chat.db_sessions Sample.inbox).
Proof.
  split; [reflexivity|]. split; [reflexivity|].
  apply (session_token_persisted_first Sample.cli Sample.inbox
           Sample.progress Sample.done_output
           (js "session-1") (js "session-2")
           eq_refl eq_refl eq_refl eq_refl).
Defined.

(** ** The watchdog script *)

Section WatchdogFacts.
Import Watchdog.
Local Open Scope Z_scope.

(** *** Shell arithmetic within range *)

Lemma wrap64_small z : - 2 ^ 63 <= z < 2 ^ 63 -> wrap64 z = z.
Proof. intros H. unfold wrap64. rewrite Z.mod_small; lia. Qed.

Lemma div64_nonneg a : 0 <= a < 2 ^ 63 -> div64 a 1000 = a / 1000.
Proof.
  intros H. unfold div64. rewrite Z.quot_div_nonneg by lia.
  apply wrap64_small.
  assert (0 <= a / 1000 <= a) by (split; [apply Z.div_pos | apply Z.div_le_upper_bound]; lia).
  lia.
Qed.

Lemma is_digit_value d : is_digit d = true -> 0 <= digit_value d <= 9.
Proof. unfold is_digit, digit_value. lia. Qed.

(** The value of a numeral is at least what was accumulated, and is
    bounded by its number of digits. *)
Lemma read_base_bounds ds : forall acc v,
  0 <= acc ->
  forallb is_digit ds = true ->
  read_base 10 acc ds = Some v ->
  acc <= v < (acc + 1) * 10 ^ Z.of_nat (length ds).
Proof.
  induction ds as [|d ds IH]; intros acc v Hacc Hds Hv; simpl in *.
  - inversion Hv; subst. lia.
  - apply andb_prop in Hds as [Hd Hds].
    pose proof (is_digit_value d Hd) as Hdv.
    destruct (digit_value d <? 10) eqn:E; [|discriminate].
    apply IH in Hv; [|lia|done].
    rewrite Nat2Z.inj_succ, Z.pow_succ_r by lia.
    assert (0 < 10 ^ Z.of_nat (length ds)) by (apply Z.pow_pos_nonneg; lia).
    split; [lia|]. nia.
Qed.

(** The shell reads a decimal numeral without a leading zero as the
    number it stands for. *)
Lemma bash_number_decimal s v :
  decimal_of s = Some v -> v < 2 ^ 63 -> bash_number s = Value v /\ 0 <= v.
Proof.
  unfold decimal_of, bash_number. intros Hdec Hv.
  destruct (list_ascii_of_string s) as [|d rest]; [discriminate|].
  destruct (forallb is_digit (d :: rest)) eqn:Hds; [|discriminate].
  destruct (Ascii.eqb d "0"); [discriminate|]. cbn [andb negb] in Hdec.
  pose proof (read_base_bounds (d :: rest) 0 v ltac:(lia) Hds Hdec) as [H0 _].
  rewrite Hdec, wrap64_small by lia. done.
Qed.

(** *** The reaper *)

(** What [grep] extracts is thirteen digits. *)
Lemma grep_epoch_digits name digits :
  grep_epoch name = Some digits ->
  forallb is_digit (list_ascii_of_string digits) = true
  /\ length (list_ascii_of_string digits) = 13%nat.
Proof.
  unfold grep_epoch. intros H.
  destruct (Nat.leb_spec 13 (length (list_ascii_of_string name))); [|discriminate].
  destruct (forallb is_digit _) eqn:Hds; [|discriminate].
  inversion H; subst digits. rewrite list_ascii_of_string_of_list_ascii.
  split; [done|]. rewrite length_drop. lia.
Qed.

Lemma embedded_epoch_range name digits epoch :
  grep_epoch name = Some digits -> decimal_of digits = Some epoch ->
  0 <= epoch < 10 ^ 13.
Proof.
  intros Hg Hd. apply grep_epoch_digits in Hg as [Hds Hlen].
  unfold decimal_of in Hd.
  destruct (list_ascii_of_string digits) as [|d rest]; [discriminate|].
  rewrite Hds in Hd. destruct (Ascii.eqb d "0"); [discriminate|].
  cbn [andb negb] in Hd.
  pose proof (read_base_bounds (d :: rest) 0 epoch ltac:(lia) Hds Hd) as Hb.
  rewrite Hlen in Hb. lia.
Qed.

(** The loop body on an instance whose name embeds the epoch [epoch]:
    the age is taken in whole seconds. *)
Lemma examine_embedded now name digits epoch :
  0 <= now < 2 ^ 63 ->
  grep_epoch name = Some digits -> decimal_of digits = Some epoch ->
  examine now name =
    if now - epoch / 1000 >? max_age_seconds
    then Stop (now - epoch / 1000) else Keep (now - epoch / 1000).
Proof.
  intros Hnow Hg Hd.
  pose proof (embedded_epoch_range name digits epoch Hg Hd) as He.
  unfold examine. rewrite Hg.
  destruct (bash_number_decimal digits epoch Hd) as [-> _]; [lia|].
  rewrite div64_nonneg by lia.
  assert (0 <= epoch / 1000 <= epoch)
    by (split; [apply Z.div_pos | apply Z.div_le_upper_bound]; lia).
  unfold sub64. by rewrite wrap64_small by lia.
Qed.

Lemma examine_no_epoch now name : grep_epoch name = None -> examine now name = NoEpoch.
Proof. intros H. unfold examine. by rewrite H. Qed.

(** The loop stops an instance only on the verdict [Stop]. *)
Lemma stops_reap now name names :
  stops name (reap now names) = true ->
  In name names /\ exists age, examine now name = Stop age.
Proof.
  induction names as [|n names IH]; simpl; [discriminate|].
  destruct (examine now n) as [| |age|age] eqn:E; simpl; try discriminate;
    try (intros H; apply IH in H as [? ?]; by auto).
  destruct (String.eqb_spec n name) as [->|Hne].
  - intros _. split; [by left | by eexists].
  - simpl. intros H; apply IH in H as [? ?]; by auto.
Qed.

(** Unless an arithmetic error abandons the loop, every instance with the
    verdict [Stop] is stopped. *)
Lemma reap_stops now name names age :
  Forall (fun n => examine now n <> ArithError) names ->
  In name names -> examine now name = Stop age ->
  stops name (reap now names) = true.
Proof.
  intros Hno Hin Hstop. induction names as [|n names IH]; [destruct Hin|].
  inversion Hno as [|? ? Hn Hrest]; subst. simpl.
  destruct Hin as [->|Hin].
  - rewrite Hstop. simpl. by rewrite String.eqb_refl.
  - destruct (examine now n) as [| |a|a]; simpl; try done; try by apply IH.
    rewrite IH by done. apply orb_true_r.
Qed.

Lemma reap_no_pkill now names : existsb is_pkill (reap now names) = false.
Proof.
  induction names as [|n names IH]; [done|]. simpl.
  by destruct (examine now n).
Qed.

Lemma in_running_nanoclaw name cs :
  In {| id := name; status := "running" |} cs ->
  String.prefix "nanoclaw-" name = true ->
  In name (running_nanoclaw cs).
Proof.
  intros Hin Hpre. unfold running_nanoclaw.
  apply List.in_map_iff. exists {| id := name; status := "running" |}.
  split; [done|]. apply List.filter_In. split; [done|].
  simpl. by rewrite Hpre.
Qed.

(** *** The heartbeat check *)

(** The check on a heartbeat file that holds a decimal numeral: the host
    is terminated when the age, in whole seconds from the clock in whole
    seconds, exceeds the threshold. *)
Lemma check_heartbeat_numeral now contents beat :
  0 <= now -> now * 1000 < 2 ^ 63 ->
  decimal_of (command_subst contents) = Some beat -> beat < 2 ^ 63 ->
  check_heartbeat now (Some contents) =
    Some (if Z.quot (now * 1000 - beat) 1000 >? MAX_STALE_SECONDS
          then [Log (StaleHeartbeat (Z.quot (now * 1000 - beat) 1000));
                Pkill "node.*dist/index.js"; Log Killed]
          else []).
Proof.
  intros Hnow Hms Hdec Hbeat. unfold check_heartbeat.
  destruct (bash_number_decimal _ beat Hdec Hbeat) as [Hnum Hpos].
  destruct (String.eqb_spec (command_subst contents) EmptyString) as [E|_].
  { rewrite E in Hdec. discriminate. }
  rewrite Hnum. unfold mul64, sub64, div64.
  rewrite (wrap64_small (now * 1000)) by lia.
  rewrite (wrap64_small (now * 1000 - beat)) by lia.
  rewrite wrap64_small; [by destruct (_ >? _)|].
  Z.quot_rem_to_equations. lia.
Qed.

End WatchdogFacts.

(** C3, as the code has it.  The reaper measures age in whole seconds:
    the clock in seconds minus the embedded epoch cut to seconds.  An
    instance whose age is at most the maximum lifetime (3,900,000 ms) --
    in particular exactly at it -- is not stopped; an instance is stopped
    when that age in seconds exceeds 3900, which is certain once it is a
    full second over the maximum lifetime, provided the loop reaches it;
    and an instance whose name does not end in thirteen digits is never
    stopped, whatever the clock says. *)
Theorem reaper_boundary (now_ms epoch : Z) (name digits other : string)
    (cs : list Watchdog.Container) :
  (0 <= now_ms < 2 ^ 63)%Z ->
  Watchdog.grep_epoch name = Some digits ->
  Watchdog.decimal_of digits = Some epoch ->
  Watchdog.grep_epoch other = None ->
  let now := Watchdog.date_seconds now_ms in
  let age_ms := (now_ms - epoch)%Z in
  (* the loop body *)
  Watchdog.examine now name =
    (if (now - epoch / 1000 >? Watchdog.max_age_seconds)%Z
     then Watchdog.Stop (now - epoch / 1000)
     else Watchdog.Keep (now - epoch / 1000))
  /\ ((age_ms <= Watchdog.max_age_ms)%Z ->
        Watchdog.examine now name = Watchdog.Keep (now - epoch / 1000))
  /\ ((Watchdog.max_age_ms + 1000 <= age_ms)%Z ->
        Watchdog.examine now name = Watchdog.Stop (now - epoch / 1000))
  /\ (forall t, Watchdog.examine t other = Watchdog.NoEpoch)
  (* the whole sweep *)
  /\ ((age_ms <= Watchdog.max_age_ms)%Z ->
        Watchdog.stops name (Watchdog.cleanup_containers now cs) = false)
  /\ ((Watchdog.max_age_ms + 1000 <= age_ms)%Z ->
        In {| Watchdog.id := name; Watchdog.status := "running" |} cs ->
        String.prefix "nanoclaw-" name = true ->
        Forall (fun n => Watchdog.examine now n <> Watchdog.ArithError)
               (Watchdog.running_nanoclaw cs) ->
        Watchdog.stops name (Watchdog.cleanup_containers now cs) = true)
  /\ (forall t, Watchdog.stops other (Watchdog.cleanup_containers t cs) = false).
Proof.
  intros Hnow Hg Hd Hother now age_ms.
  pose proof (embedded_epoch_range name digits epoch Hg Hd) as He.
  assert (Hrange : (0 <= now < 2 ^ 63)%Z).
  { unfold now, Watchdog.date_seconds.
    split; [apply Z.div_pos; lia|].
    apply Z.div_lt_upper_bound; lia. }
  pose proof (examine_embedded now name digits epoch Hrange Hg Hd) as Hex.
  assert (Hkeep : (age_ms <= Watchdog.max_age_ms)%Z ->
            Watchdog.examine now name = Watchdog.Keep (now - epoch / 1000)%Z).
  { intros Hage. rewrite Hex.
    unfold age_ms, Watchdog.max_age_ms, Watchdog.max_age_seconds,
      now, Watchdog.date_seconds in *.
    destruct (Z.gtb_spec (now_ms / 1000 - epoch / 1000) 3900); [|done].
    Z.div_mod_to_equations. lia. }
  assert (Hstop : (Watchdog.max_age_ms + 1000 <= age_ms)%Z ->
            Watchdog.examine now name = Watchdog.Stop (now - epoch / 1000)%Z).
  { intros Hage. rewrite Hex.
    unfold age_ms, Watchdog.max_age_ms, Watchdog.max_age_seconds,
      now, Watchdog.date_seconds in *.
    destruct (Z.gtb_spec (now_ms / 1000 - epoch / 1000) 3900); [done|].
    Z.div_mod_to_equations. lia. }
  split; [done|]. split; [done|]. split; [done|].
  split; [intros t; by apply examine_no_epoch|].
  split.
  { intros Hage. destruct (Watchdog.stops name _) eqn:E; [|done].
    apply stops_reap in E as [_ [age E]]. rewrite (Hkeep Hage) in E.
    discriminate. }
  split.
  { intros Hage Hin Hpre Hno. unfold Watchdog.cleanup_containers.
    eapply reap_stops; [done | by apply in_running_nanoclaw | by apply Hstop]. }
  intros t. destruct (Watchdog.stops other _) eqn:E; [|done].
  apply stops_reap in E as [_ [age E]].
  rewrite (examine_no_epoch t other Hother) in E. discriminate.
Qed.

Lemma reaper_boundary_witness :
  Watchdog.grep_epoch Sample.instance = Some "1700000000000"%string
  /\ Watchdog.decimal_of "1700000000000" = Some 1700000000000%Z
  /\ Watchdog.grep_epoch Sample.nameless = None
  /\ Watchdog.examine (Watchdog.date_seconds 1700003900000) Sample.instance
       = Watchdog.Keep 3900
  /\ Watchdog.stops Sample.nameless
       (Watchdog.cleanup_containers 9999999999 Sample.listing) = false.
Proof.
  split; [reflexivity|]. split; [reflexivity|]. split; [reflexivity|].
  destruct (reaper_boundary 1700003900000 1700000000000 Sample.instance
              "1700000000000" Sample.nameless Sample.listing
              ltac:(lia) eq_refl eq_refl eq_refl)
    as (_ & Hkeep & _ & _ & _ & _ & Hnever).
  split; [apply Hkeep; vm_compute; discriminate | apply Hnever].
Defined.

(** C3, as stated, fails: an instance created at 1700000000000 ms and
    examined at 1700003900001 ms is one millisecond over the maximum
    lifetime, and the sweep does not stop it. *)
Lemma reaper_one_millisecond_over_cex :
  Watchdog.grep_epoch Sample.instance = Some "1700000000000"%string
  /\ (1700003900001 - 1700000000000 = Watchdog.max_age_ms + 1)%Z
  /\ Watchdog.examine (Watchdog.date_seconds 1700003900001) Sample.instance
       = Watchdog.Keep 3900
  /\ Watchdog.stops Sample.instance
       (Watchdog.cleanup_containers (Watchdog.date_seconds 1700003900001)
          Sample.listing) = false.
Proof. repeat split; vm_compute; reflexivity. Qed.

(** C4, as the code has it.  The watchdog measures the heartbeat age in
    whole seconds, from a clock in whole seconds.  An age of at most the
    staleness threshold (300,000 ms) -- in particular exactly at it, and
    in fact anything short of a full second over -- does not terminate the
    host; the host is terminated exactly when the clock in seconds, taken
    back to milliseconds, is at least 301,000 ms past the heartbeat, which
    is certain once the age is 301,999 ms or more.  When the heartbeat
    file is absent the check only logs: the run consists of the container
    sweep, which does not depend on the heartbeat, and that log line, and
    the host is not terminated. *)
Theorem watchdog_boundary (now_ms beat : Z) (contents : string)
    (t_reaper t_check : Z) (cs : list Watchdog.Container) :
  (0 <= now_ms < 2 ^ 63)%Z ->
  Watchdog.decimal_of (Watchdog.command_subst contents) = Some beat ->
  (beat < 2 ^ 63)%Z ->
  let now := Watchdog.date_seconds now_ms in
  let age_ms := (now_ms - beat)%Z in
  let run := Watchdog.check_heartbeat now (Some contents) in
  ((age_ms = Watchdog.max_stale_ms)%Z -> Watchdog.terminates_host run = false)
  /\ ((age_ms < Watchdog.max_stale_ms + 1000)%Z ->
        Watchdog.terminates_host run = false)
  /\ ((Watchdog.max_stale_ms + 1999 <= age_ms)%Z ->
        Watchdog.terminates_host run = true)
  /\ (Watchdog.terminates_host run = true
      <-> (Watchdog.max_stale_ms + 1000 <= now * 1000 - beat)%Z)
  (* no heartbeat file *)
  /\ Watchdog.check_heartbeat t_check None
       = Some [Watchdog.Log Watchdog.NoHeartbeatFile]
  /\ Watchdog.watchdog t_reaper t_check cs None
       = Some (Watchdog.cleanup_containers t_reaper cs
               ++ [Watchdog.Log Watchdog.NoHeartbeatFile])
  /\ Watchdog.terminates_host (Watchdog.watchdog t_reaper t_check cs None)
       = false.
Proof.
  intros Hnow Hdec Hbeat now age_ms run.
  assert (Hsec : (0 <= now /\ now * 1000 <= now_ms /\ now_ms < now * 1000 + 1000)%Z).
  { unfold now, Watchdog.date_seconds. Z.div_mod_to_equations. lia. }
  assert (Hrun : run =
            Some (if (Z.quot (now * 1000 - beat) 1000 >? Watchdog.MAX_STALE_SECONDS)%Z
                  then [Watchdog.Log (Watchdog.StaleHeartbeat
                                        (Z.quot (now * 1000 - beat) 1000));
                        Watchdog.Pkill "node.*dist/index.js";
                        Watchdog.Log Watchdog.Killed]
                  else []))
    by (apply check_heartbeat_numeral; lia || done).
  assert (Hiff : Watchdog.terminates_host run = true
                 <-> (Watchdog.max_stale_ms + 1000 <= now * 1000 - beat)%Z).
  { rewrite Hrun.
    unfold Watchdog.max_stale_ms, Watchdog.MAX_STALE_SECONDS.
    destruct (Z.gtb_spec (Z.quot (now * 1000 - beat) 1000) 300) as [Hgt|Hle];
      simpl; (split; [intros H|intros H; try done]);
      try discriminate; revert Hgt || revert Hle;
      Z.quot_rem_to_equations; lia. }
  assert (Hnot : (now * 1000 - beat < Watchdog.max_stale_ms + 1000)%Z ->
                 Watchdog.terminates_host run = false).
  { intros Hlt. apply not_true_is_false. intros E. apply Hiff in E. lia. }
  unfold age_ms, Watchdog.max_stale_ms, Watchdog.MAX_STALE_SECONDS in *.
  split; [intros; apply Hnot; lia|].
  split; [intros; apply Hnot; lia|].
  split; [intros; apply Hiff; lia|].
  split; [done|]. split; [done|]. split; [done|].
  unfold Watchdog.watchdog, Watchdog.terminates_host. simpl.
  rewrite existsb_app. unfold Watchdog.cleanup_containers.
  by rewrite reap_no_pkill.
Qed.

Lemma watchdog_boundary_witness :
  Watchdog.decimal_of (Watchdog.command_subst "1700000000000")
    = Some 1700000000000%Z
  /\ Watchdog.terminates_host
       (Watchdog.check_heartbeat (Watchdog.date_seconds 1700000300000)
          (Some "1700000000000"%string)) = false
  /\ Watchdog.terminates_host
       (Watchdog.check_heartbeat (Watchdog.date_seconds 1700000301999)
          (Some "1700000000000"%string)) = true.
Proof.
  split; [reflexivity|]. split.
  - destruct (watchdog_boundary 1700000300000 1700000000000 "1700000000000"
                0 0 [] ltac:(lia) eq_refl ltac:(lia)) as (Hat & _).
    apply Hat. reflexivity.
  - destruct (watchdog_boundary 1700000301999 1700000000000 "1700000000000"
                0 0 [] ltac:(lia) eq_refl ltac:(lia)) as (_ & _ & Hover & _).
    apply Hover. vm_compute. discriminate.
Defined.

(** C4, as stated, fails: with the heartbeat at 1700000000000 ms and the
    clock at 1700000300500 ms the age is half a second over the staleness
    threshold, and the host is not terminated. *)
Lemma watchdog_half_second_over_cex :
  (1700000300500 - 1700000000000 > Watchdog.max_stale_ms)%Z
  /\ Watchdog.check_heartbeat (Watchdog.date_seconds 1700000300500)
       (Some "1700000000000"%string) = Some []
  /\ Watchdog.terminates_host
       (Watchdog.check_heartbeat (Watchdog.date_seconds 1700000300500)
          (Some "1700000000000"%string)) = false.
Proof. repeat split; vm_compute; reflexivity. Qed.

(* ===================================================================== *)
(** * Further properties of the Slack channel                             *)
(* ===================================================================== *)

Section SlackNames.
Import Slack.

Lemma or_else_truthy a b : truthy b = true -> truthy (or_else a b) = true.
Proof.
  intros Hb. unfold or_else. destruct a as [x|]; [|done].
  by destruct (truthy x) eqn:E.
Qed.

Lemma pick_name_truthy u userId :
  truthy userId = true -> truthy (pick_name u userId) = true.
Proof.
  intros H. unfold pick_name. destruct u as [u|]; [|done].
  by repeat apply or_else_truthy.
Qed.

Lemma resolveUserName_hit env userId cached s :
  userNameCache s !! userId = Some cached -> truthy cached = true ->
  resolveUserName env userId s = (Ok cached, s).
Proof.
  intros Hc Ht. unfold resolveUserName. rewrite bind_unfold.
  unfold get at 1. by rewrite Hc, Ht.
Qed.

Lemma resolveUserName_miss env userId s :
  userNameCache s !! userId = None ->
  resolveUserName env userId s = fetchUserName env userId s.
Proof.
  intros Hc. unfold resolveUserName. rewrite bind_unfold.
  unfold get at 1. by rewrite Hc.
Qed.

(** X1. A user name that was looked up once is served from the cache
    afterwards: after a lookup that resolves, the name is stored under the
    user id, and resolving the same user again returns the same name
    without a transport call and without touching the state, whatever the
    transport would answer. *)
Theorem resolveUserName_cached_once (env env' : Env) (s : State) (a : App)
    (userId : jsstring) (u : option UserInfo) :
  app s = Some a ->
  userNameCache s !! userId = None ->
  lookup_reply env (length (trace s)) userId = LookupResolves u ->
  truthy userId = true ->
  let resolved := pick_name u userId in
  let s1 := final (resolveUserName env userId) s in
  result (resolveUserName env userId) s = Ok resolved
  /\ emitted (resolveUserName env userId) s = [UsersInfo userId]
  /\ userNameCache s1 !! userId = Some resolved
  /\ resolveUserName env' userId s1 = (Ok resolved, s1).
Proof.
  intros Ha Hmiss Hreply Hu resolved s1.
  assert (Hrun : resolveUserName env userId s =
            (Ok resolved,
             pushes [UsersInfo userId]
               (set_cache (<[userId := resolved]> (userNameCache s)) s)))
    by (by rewrite resolveUserName_miss, fetchUserName_run, Ha, Hreply).
  assert (Hs1 : s1 = pushes [UsersInfo userId]
                  (set_cache (<[userId := resolved]> (userNameCache s)) s))
    by (unfold s1, final; by rewrite Hrun).
  split; [unfold result; by rewrite Hrun|].
  split; [eapply emitted_pushes_from; [|exact Hrun]; reflexivity|].
  assert (Hcache : userNameCache s1 !! userId = Some resolved)
    by (rewrite Hs1; apply lookup_insert_eq).
  split; [done|].
  apply resolveUserName_hit; [done|]. by apply pick_name_truthy.
Qed.

Lemma resolveUserName_cached_once_witness :
  app Sample.connected = Some Sample.the_app
  /\ userNameCache Sample.connected !! js "U100200300" = None
  /\ result (resolveUserName Sample.env_down (js "U100200300"))
       (final (resolveUserName Sample.env_up (js "U100200300"))
          Sample.connected)
     = Ok (js "Alice").
Proof.
  split; [reflexivity|]. split; [reflexivity|].
  destruct (resolveUserName_cached_once Sample.env_up Sample.env_down
              Sample.connected Sample.the_app (js "U100200300")
              (Some Sample.alice) eq_refl eq_refl eq_refl eq_refl)
    as (_ & _ & _ & H).
  unfold result. by rewrite H.
Defined.

(** X2. A lookup that fails is not remembered.  On a cache miss, when
    there is no app or the transport rejects the lookup, [resolveUserName]
    still resolves, to the raw user id; the failure is logged, and the
    cache is left as it was.  So the next message from the same user asks
    the transport again and gets the real name once the lookup resolves. *)
Theorem failed_lookup_is_retried (env env' : Env) (s : State) (a : App)
    (userId : jsstring) (u : option UserInfo) :
  userNameCache s !! userId = None ->
  (app s = None
   \/ exists e, lookup_reply env (length (trace s)) userId = LookupRejects e) ->
  let s1 := final (resolveUserName env userId) s in
  result (resolveUserName env userId) s = Ok userId
  /\ (exists before,
        emitted (resolveUserName env userId) s
        = before ++ [Log Debug "Failed to fetch Slack user info"])
  /\ userNameCache s1 = userNameCache s
  /\ app s1 = app s
  /\ (app s1 = Some a ->
      lookup_reply env' (length (trace s1)) userId = LookupResolves u ->
      result (resolveUserName env' userId) s1 = Ok (pick_name u userId)
      /\ In (UsersInfo userId) (emitted (resolveUserName env' userId) s1)).
Proof.
  intros Hmiss Hfail s1.
  assert (Hfirst : exists before,
            resolveUserName env userId s
            = (Ok userId,
               pushes (before ++ [Log Debug "Failed to fetch Slack user info"])
                      s)).
  { rewrite resolveUserName_miss, fetchUserName_run by done.
    destruct (app s) as [a0|] eqn:Ha0.
    - destruct Hfail as [?|[e He]]; [done|]. rewrite He.
      by exists [UsersInfo userId].
    - by exists []. }
  destruct Hfirst as (before & Hfirst).
  split; [unfold result; by rewrite Hfirst|].
  split; [exists before; by rewrite (emitted_pushes _ _ _ _ Hfirst)|].
  assert (Hs1 : userNameCache s1 = userNameCache s /\ app s1 = app s)
    by (unfold s1, final; by rewrite Hfirst).
  destruct Hs1 as [Hcache Happ]. split; [done|]. split; [done|].
  intros Ha Hreply.
  assert (Hrun : resolveUserName env' userId s1 =
            (Ok (pick_name u userId),
             pushes [UsersInfo userId]
               (set_cache (<[userId := pick_name u userId]> (userNameCache s1))
                  s1))).
  { rewrite resolveUserName_miss by (by rewrite Hcache).
    by rewrite fetchUserName_run, Ha, Hreply. }
  split; [unfold result; by rewrite Hrun|].
  erewrite emitted_pushes_from; [| |exact Hrun]; [by left | reflexivity].
Qed.

Lemma failed_lookup_is_retried_witness :
  userNameCache Sample.connected !! js "U100200300" = None
  /\ result (resolveUserName Sample.env_down (js "U100200300"))
       Sample.connected = Ok (js "U100200300")
  /\ userNameCache
       (final (resolveUserName Sample.env_down (js "U100200300"))
          Sample.connected)
     = userNameCache Sample.connected.
Proof.
  split; [reflexivity|].
  destruct (failed_lookup_is_retried Sample.env_down Sample.env_up
              Sample.connected Sample.the_app (js "U100200300") None eq_refl
              (or_intror (ex_intro _ (Failure "API error") eq_refl)))
    as (H1 & _ & H2 & _).
  split; [exact H1 | exact H2].
Defined.

(** X3. The sender name is never empty: for a non-empty user id,
    [resolveUserName] resolves, in every state and whatever the transport
    does, to a non-empty name -- a cached one, one of the names of the
    profile, or the user id itself. *)
Theorem sender_name_never_empty (env : Env) (s : State) (userId : jsstring) :
  truthy userId = true ->
  exists senderName,
    result (resolveUserName env userId) s = Ok senderName
    /\ truthy senderName = true.
Proof.
  intros Hu. unfold result.
  destruct (userNameCache s !! userId) as [cached|] eqn:Hc.
  - destruct (truthy cached) eqn:Ht.
    + exists cached. by rewrite (resolveUserName_hit env userId cached s).
    + unfold resolveUserName. rewrite bind_unfold. unfold get at 1.
      rewrite Hc, Ht, fetchUserName_run.
      destruct (app s); [|by exists userId].
      destruct (lookup_reply env _ userId) as [e|u]; [by exists userId|].
      exists (pick_name u userId). split; [done | by apply pick_name_truthy].
  - rewrite resolveUserName_miss, fetchUserName_run by done.
    destruct (app s); [|by exists userId].
    destruct (lookup_reply env _ userId) as [e|u]; [by exists userId|].
    exists (pick_name u userId). split; [done | by apply pick_name_truthy].
Qed.

Lemma sender_name_never_empty_witness :
  truthy (js "U100200300") = true
  /\ exists senderName,
       result (resolveUserName Fixture.env_flaky (js "U100200300"))
         Sample.connected = Ok senderName
       /\ truthy senderName = true.
Proof.
  split; [reflexivity|].
  apply (sender_name_never_empty Fixture.env_flaky Sample.connected
           (js "U100200300") eq_refl).
Defined.

(** X4. The display name is chosen by a fixed order of preference: the
    profile's display name if it is not empty, else the real name if it is
    not empty, else the handle if it is not empty, else the raw user id. *)
Theorem display_name_fallback (env : Env) (s : State) (a : App)
    (userId : jsstring) (info : UserInfo) :
  app s = Some a ->
  userNameCache s !! userId = None ->
  lookup_reply env (length (trace s)) userId = LookupResolves (Some info) ->
  let resolved := result (resolveUserName env userId) s in
  (forall d, display_name info = Some d -> truthy d = true -> resolved = Ok d)
  /\ (forall r, truthy_opt (display_name info) = false ->
        real_name info = Some r -> truthy r = true -> resolved = Ok r)
  /\ (forall n, truthy_opt (display_name info) = false ->
        truthy_opt (real_name info) = false ->
        name info = Some n -> truthy n = true -> resolved = Ok n)
  /\ (truthy_opt (display_name info) = false ->
      truthy_opt (real_name info) = false ->
      truthy_opt (name info) = false -> resolved = Ok userId).
Proof.
  intros Ha Hmiss Hreply resolved.
  assert (Hres : resolved = Ok (pick_name (Some info) userId)).
  { unfold resolved, result.
    by rewrite resolveUserName_miss, fetchUserName_run, Ha, Hreply. }
  rewrite Hres. unfold pick_name, or_else, truthy_opt.
  repeat split.
  - intros d -> Hd. by rewrite Hd.
  - intros r Hd -> Hr. rewrite Hr.
    destruct (display_name info) as [d|]; [by rewrite Hd | done].
  - intros n Hd Hr -> Hn. rewrite Hn.
    destruct (display_name info) as [d|], (real_name info) as [r|];
      by rewrite ?Hd, ?Hr.
  - intros Hd Hr Hn.
    destruct (display_name info) as [d|], (real_name info) as [r|],
      (name info) as [n|]; by rewrite ?Hd, ?Hr, ?Hn.
Qed.

Lemma display_name_fallback_witness :
  app Sample.connected = Some Sample.the_app
  /\ userNameCache Sample.connected !! js "U100200300" = None
  /\ result (resolveUserName Fixture.env_flaky (js "U100200300"))
       Sample.connected = Ok (js "Alice Smith").
Proof.
  split; [reflexivity|]. split; [reflexivity|].
  destruct (display_name_fallback Fixture.env_flaky Sample.connected
              Sample.the_app (js "U100200300") Fixture.plain_user
              eq_refl eq_refl eq_refl) as (_ & H & _).
  apply (H (js "Alice Smith")); reflexivity.
Defined.

End SlackNames.

Section SlackEvents.
Import Slack.

Lemma passes_filters_user msg :
  passes_filters msg = true ->
  exists userId, user msg = Some userId /\ truthy userId = true.
Proof.
  unfold passes_filters. intros [_ Hu]%andb_prop.
  destruct (user msg) as [u|]; [by exists u | done].
Qed.

Lemma strip_prefix_app (p u : jsstring) : strip_prefix p (p ++ u) = u.
Proof.
  unfold strip_prefix.
  replace (startsWith (p ++ u) p) with true
    by (symmetry; apply startsWith_spec; by eexists).
  apply drop_app_length.
Qed.

(** What the listener emits: nothing at all, or the events of the name
    lookup, the metadata call and, for a registered chat, the message. *)
Lemma on_message_emitted env msg s :
  emitted (on_message env msg) s = []
  \/ exists userId t senderName es,
       user msg = Some userId
       /\ callbacks es = []
       /\ emitted (on_message env msg) s =
            es ++ OnChatMetadata (js "slack:" ++ userId) t senderName ::
              match registeredGroups s !! (js "slack:" ++ userId) with
              | Some _ =>
                  [OnMessage (js "slack:" ++ userId)
                     {| id := ts msg; chat_jid := js "slack:" ++ userId;
                        sender := userId; sender_name := senderName;
                        content := or_else (text msg) [];
                        timestamp := t; is_from_me := false |};
                   Log Info "Slack message stored"]
              | None => [Log Debug "Message from unregistered Slack DM"]
              end.
Proof.
  destruct (passes_filters msg) eqn:Hpass.
  - destruct (passes_filters_user msg Hpass) as (userId & Huser & Hu).
    destruct (ts msg ≫= toISOString env) as [t|] eqn:Hts.
    + right.
      destruct (on_message_run env msg userId t s Hpass Huser Hts)
        as (senderName & es & cache & _ & Hcb & Hrun).
      exists userId, t, senderName, es. split; [done|]. split; [done|].
      eapply emitted_pushes_from; [|exact Hrun]. reflexivity.
    + left. unfold emitted, final.
      rewrite (on_message_invalid_ts env msg userId s Hpass Huser Hts).
      simpl. by rewrite drop_ge.
  - left. unfold emitted, final. rewrite on_message_filtered by done.
    simpl. by rewrite drop_ge.
Qed.

(** X5. Every conversation that the listener forwards is one that the
    channel owns, and replying to it reaches the sender: the JID handed to
    [onMessage] is ["slack:"] followed by the user id of the event, it is
    the [chat_jid] of the message, [ownsJid] accepts it, the chat is a
    registered one, and [sendMessage] to that JID posts to the user id. *)
Theorem forwarded_jid_round_trip (env env' : Env) (s s' : State)
    (msg : Message) (jid : jsstring) (m : NewMessage) (a : App)
    (reply : jsstring) :
  In (OnMessage jid m) (emitted (on_message env msg) s) ->
  app s' = Some a ->
  (forall n, post_ok env' n = true) ->
  jid = js "slack:" ++ sender m
  /\ user msg = Some (sender m)
  /\ chat_jid m = jid
  /\ is_from_me m = false
  /\ ownsJid jid = true
  /\ is_Some (registeredGroups s !! jid)
  /\ (exists n,
        posted_channels (emitted (sendMessage env' jid reply) s')
        = replicate (S n) (sender m))
  /\ concat (posted_texts (emitted (sendMessage env' jid reply) s')) = reply.
Proof.
  intros Hin Ha Hok.
  destruct (on_message_emitted env msg s) as [Hnil|Hev].
  { rewrite Hnil in Hin. destruct Hin. }
  destruct Hev as (userId & t & senderName & es & Huser & Hcb & Hev).
  rewrite Hev in Hin. apply in_app_or in Hin as [Hin|Hin].
  { assert (In (OnMessage jid m) (callbacks es))
      by (apply List.filter_In; by split).
    rewrite Hcb in H. destruct H. }
  destruct Hin as [Hin|Hin]; [discriminate|].
  destruct (registeredGroups s !! (js "slack:" ++ userId)) as [g|] eqn:Hg;
    [|destruct Hin as [Hin|[]]; discriminate].
  destruct Hin as [Hin|[Hin|[]]]; [|discriminate].
  assert (Hjid : jid = js "slack:" ++ userId) by congruence.
  assert (Hm : m = {| id := ts msg; chat_jid := js "slack:" ++ userId;
                      sender := userId; sender_name := senderName;
                      content := or_else (text msg) [];
                      timestamp := t; is_from_me := false |}) by congruence.
  clear Hin. subst jid m. cbn [sender chat_jid is_from_me].
  split; [done|]. split; [done|]. split; [done|]. split; [done|].
  split; [apply ownsJid_slack|]. split; [by rewrite Hg|].
  rewrite (emitted_pushes _ _ _ _
             (sendMessage_connected env' (js "slack:" ++ userId) reply s' a Ha Hok)).
  rewrite posted_channels_app, posted_channels_posts, strip_prefix_app.
  rewrite posted_texts_app, posted_texts_posts.
  cbn [posted_channels posted_texts omap]. rewrite !app_nil_r.
  destruct (Nat.leb_spec (length reply) MAX_LENGTH) as [Hle|Hgt].
  - split; [by exists 0 | apply app_nil_r].
  - split.
    + destruct (length reply) as [|n] eqn:Hn;
        [unfold MAX_LENGTH in Hgt; lia|].
      rewrite slices_step by lia. cbn [length]. by eexists.
    + rewrite slices_concat by lia. apply drop_0.
Qed.

Lemma forwarded_jid_round_trip_witness :
  In (OnMessage (js "slack:U100200300")
        {| id := Some (js "1704067200.000000");
           chat_jid := js "slack:U100200300"; sender := js "U100200300";
           sender_name := js "Alice"; content := js "Hello";
           timestamp := js "2024-01-01T00:00:00.000Z"; is_from_me := false |})
     (emitted (on_message Sample.env_up (Sample.dm "U100200300"))
        Sample.connected)
  /\ posted_channels
       (emitted (sendMessage Sample.env_up (js "slack:U100200300") (js "Hi"))
          Sample.connected) = [js "U100200300"].
Proof.
  assert (Hin : In (OnMessage (js "slack:U100200300")
        {| id := Some (js "1704067200.000000");
           chat_jid := js "slack:U100200300"; sender := js "U100200300";
           sender_name := js "Alice"; content := js "Hello";
           timestamp := js "2024-01-01T00:00:00.000Z"; is_from_me := false |})
     (emitted (on_message Sample.env_up (Sample.dm "U100200300"))
        Sample.connected)) by (vm_compute; tauto).
  split; [exact Hin|].
  pose proof (forwarded_jid_round_trip Sample.env_up Sample.env_up
                Sample.connected Sample.connected (Sample.dm "U100200300")
                _ _ Sample.the_app (js "Hi") Hin eq_refl (fun _ => eq_refl))
    as (_ & _ & _ & _ & _ & _ & _).
  reflexivity.
Defined.

(** X6. Events that are not for the channel leave no trace: an event that
    is not a direct message, or that has a subtype (an edit, a bot
    message), or that has no user id, makes no lookup and no callback and
    changes nothing. *)
Theorem ignored_events_leave_no_trace (env : Env) (s : State) (msg : Message) :
  (channel_type msg <> Some (js "im")
   \/ truthy_opt (subtype msg) = true
   \/ truthy_opt (user msg) = false) ->
  on_message env msg s = (Ok tt, s)
  /\ emitted (on_message env msg) s = [].
Proof.
  intros H.
  assert (Hrun : on_message env msg s = (Ok tt, s)).
  { apply on_message_filtered. unfold passes_filters.
    destruct H as [H|[H|H]].
    - by rewrite bool_decide_eq_false_2.
    - rewrite H. apply andb_false_intro1, andb_false_r.
    - rewrite H. apply andb_false_r. }
  split; [done|]. unfold emitted, final. rewrite Hrun. simpl. by rewrite drop_ge.
Qed.

Lemma ignored_events_leave_no_trace_witness :
  channel_type Fixture.channel_event <> Some (js "im")
  /\ on_message Sample.env_up Fixture.channel_event Sample.connected
     = (Ok tt, Sample.connected).
Proof.
  assert (H : channel_type Fixture.channel_event <> Some (js "im"))
    by (vm_compute; discriminate).
  split; [exact H|].
  apply (ignored_events_leave_no_trace Sample.env_up Sample.connected
           Fixture.channel_event (or_introl H)).
Defined.

(** X7. An event without a usable timestamp is refused before anything is
    done with it: when [ts] is missing or does not convert to a date, the
    handler rejects with a [RangeError] ahead of the name lookup and of
    both callbacks, and leaves the state as it was. *)
Theorem untimed_event_rejected_first (env : Env) (s : State) (msg : Message) :
  passes_filters msg = true ->
  ts msg ≫= toISOString env = None ->
  on_message env msg s = (Throw (RangeError "Invalid time value"), s)
  /\ emitted (on_message env msg) s = [].
Proof.
  intros Hpass Hts.
  destruct (passes_filters_user msg Hpass) as (userId & Huser & _).
  pose proof (on_message_invalid_ts env msg userId s Hpass Huser Hts) as Hrun.
  split; [done|]. unfold emitted, final. rewrite Hrun. simpl. by rewrite drop_ge.
Qed.

Lemma untimed_event_rejected_first_witness :
  passes_filters Fixture.untimed_event = true
  /\ result (on_message Sample.env_up Fixture.untimed_event) Sample.connected
     = Throw (RangeError "Invalid time value").
Proof.
  split; [reflexivity|].
  destruct (untimed_event_rejected_first Sample.env_up Sample.connected
              Fixture.untimed_event eq_refl eq_refl) as [H _].
  unfold result. by rewrite H.
Defined.

(** X8. [connect] stores the app before it starts it: the channel reports
    itself connected after [connect] whether or not [app.start()]
    resolved; when the start is rejected, [connect] rejects with that
    failure and the connection is not logged. *)
Theorem connect_marks_connected (env : Env) (s : State) :
  isConnected (final (connect env) s) = true
  /\ app (final (connect env) s)
     = Some {| token := botToken s; appToken := appTokenField s |}
  /\ (start_ok env (length (trace s)) = true ->
      result (connect env) s = Ok tt
      /\ emitted (connect env) s = [AppStart; Log Info "Slack bot connected"])
  /\ (start_ok env (length (trace s)) = false ->
      result (connect env) s = Throw (Failure "app.start")
      /\ emitted (connect env) s = [AppStart]).
Proof.
  unfold isConnected, result, final, emitted, final, connect, emit, log, emit.
  eff_simpl. destruct (start_ok env (length (trace s))); simpl.
  - repeat split; try done. by rewrite <- app_assoc, drop_length_app.
  - repeat split; try done. by rewrite drop_length_app.
Qed.

Lemma connect_marks_connected_witness :
  start_ok Fixture.env_flaky (length (trace Sample.fresh)) = false
  /\ result (connect Fixture.env_flaky) Sample.fresh
     = Throw (Failure "app.start")
  /\ isConnected (final (connect Fixture.env_flaky) Sample.fresh) = true.
Proof.
  split; [reflexivity|].
  destruct (connect_marks_connected Fixture.env_flaky Sample.fresh)
    as (Hc & _ & _ & Hfail).
  split; [apply Hfail; reflexivity | exact Hc].
Defined.

(** X9. [disconnect] forgets the app only after [app.stop()] has
    resolved.  On a connected channel a rejected stop makes [disconnect]
    reject and leaves the channel connected; a stop that resolves leaves
    it disconnected, and a further [disconnect] then does nothing -- no
    second stop. *)
Theorem disconnect_forgets_after_stop (env env' : Env) (s : State) (a : App) :
  app s = Some a ->
  let s1 := final (disconnect env) s in
  (stop_ok env (length (trace s)) = false ->
     result (disconnect env) s = Throw (Failure "app.stop")
     /\ app s1 = Some a
     /\ isConnected s1 = true)
  /\ (stop_ok env (length (trace s)) = true ->
        result (disconnect env) s = Ok tt
        /\ emitted (disconnect env) s = [AppStop; Log Info "Slack bot stopped"]
        /\ isConnected s1 = false
        /\ disconnect env' s1 = (Ok tt, s1)).
Proof.
  intros Ha s1. unfold s1, isConnected, result, final, emitted, final.
  unfold disconnect, emit, log, emit. eff_simpl. rewrite Ha. simpl.
  split; intros ->; simpl.
  - by rewrite Ha.
  - repeat split; try done. by rewrite <- app_assoc, drop_length_app.
Qed.

Lemma disconnect_forgets_after_stop_witness :
  app Sample.connected = Some Sample.the_app
  /\ stop_ok Fixture.env_flaky (length (trace Sample.connected)) = false
  /\ isConnected (final (disconnect Fixture.env_flaky) Sample.connected) = true.
Proof.
  split; [reflexivity|]. split; [reflexivity|].
  destruct (disconnect_forgets_after_stop Fixture.env_flaky Sample.env_up
              Sample.connected Sample.the_app eq_refl) as [H _].
  apply H. reflexivity.
Defined.

End SlackEvents.

Section SlackSending.
Import Slack.

(** X10. [sendMessage] gives up at the first transport call that fails.
    On a connected channel the calls it makes are for the first pieces of
    the text, in order, and at least one is made; every call before the
    last one made succeeded.  Either all pieces were sent and the last
    event is the log of a sent message, or the last call made is the one
    that failed, no further piece is sent, and the last event is the
    error log. *)
Theorem sendMessage_stops_at_failure (env : Env) (s : State) (a : App)
    (jid text : jsstring) :
  app s = Some a ->
  let channel := strip_prefix (js "slack:") jid in
  let pieces :=
    if length text <=? MAX_LENGTH then [text]
    else slices (length text) text 0 in
  exists sent,
    sent `prefix_of` pieces
    /\ sent <> []
    /\ (forall k, S k < length sent ->
          post_ok env (length (trace s) + k) = true)
    /\ ((emitted (sendMessage env jid text) s
           = (PostMessage channel <$> sent) ++ [Log Info "Slack message sent"]
         /\ sent = pieces
         /\ forall k, k < length sent ->
              post_ok env (length (trace s) + k) = true)
        \/ (emitted (sendMessage env jid text) s
              = (PostMessage channel <$> sent)
                ++ [Log Error "Failed to send Slack message"]
            /\ post_ok env (length (trace s) + (length sent - 1)) = false)).
Proof.
  intros Ha channel pieces. unfold pieces.
  destruct (Nat.leb_spec (length text) MAX_LENGTH) as [Hle|Hgt].
  - pose proof (sendMessage_short_run env jid text s a Ha Hle) as Hrun.
    fold channel in Hrun.
    rewrite (emitted_pushes _ _ _ _ Hrun).
    exists [text]. split; [done|]. split; [done|].
    split; [cbn [length]; lia|]. cbn [length].
    rewrite Nat.add_0_r.
    destruct (post_ok env (length (trace s))) eqn:Hok; [left | by right].
    split; [done|]. split; [done|].
    intros k Hk. replace k with 0 by lia. by rewrite Nat.add_0_r.
  - destruct (send_chunks_stops env (length text) channel text 0 s ltac:(lia))
      as (cs & o & Hrun & Hpre & Hmid & Hend).
    assert (Ho : o <> Stuck)
      by (destruct Hend as [(-> & _)|(-> & _)]; discriminate).
    pose proof (sendMessage_long_run env jid text s a cs o Ha Hgt Hrun Ho)
      as Hsend.
    fold channel in Hsend. rewrite (emitted_pushes _ _ _ _ Hsend).
    exists cs. split; [done|].
    assert (Hne : cs <> []).
    { destruct Hend as [(_ & -> & _)|(_ & k & Hk & _)].
      - destruct (length text) as [|n] eqn:Hn;
          [unfold MAX_LENGTH in Hgt; lia|].
        rewrite slices_step by lia. done.
      - intros ->. discriminate. }
    split; [done|]. split; [done|].
    destruct Hend as [(-> & Hall & Hok)|(-> & k & Hk & Hfail)].
    + by left.
    + right. split; [done|]. rewrite Hk.
      by replace (S k - 1) with k by lia.
Qed.

Lemma sendMessage_stops_at_failure_witness :
  app Sample.connected = Some Sample.the_app
  /\ posted_texts
       (emitted (sendMessage Fixture.env_flaky (js "slack:U100200300")
                   (replicate 9000 120%N)) Sample.connected)
     = [replicate 4000 120%N; replicate 4000 120%N].
Proof.
  split; [reflexivity|].
  destruct (sendMessage_stops_at_failure Fixture.env_flaky Sample.connected
              Sample.the_app (js "slack:U100200300") (replicate 9000 120%N)
              eq_refl) as (sent & _).
  vm_compute. reflexivity.
Defined.

(** X11. Over a connected channel and a transport that does not fail, the
    number of transport calls is the length of the text divided by 4000,
    rounded up, and one for a text of at most 4000 code units -- the empty
    text included, which is posted as it is. *)
Theorem sendMessage_call_count (env : Env) (s : State) (a : App)
    (jid text : jsstring) :
  app s = Some a ->
  (forall n, post_ok env n = true) ->
  let sent := posted_texts (emitted (sendMessage env jid text) s) in
  length sent = Nat.max 1 ((length text + 3999) / 4000)
  /\ (text = [] -> sent = [[]]).
Proof.
  intros Ha Hok sent.
  assert (Hsent : sent =
            if length text <=? MAX_LENGTH then [text]
            else slices (length text) text 0).
  { unfold sent.
    rewrite (emitted_pushes _ _ _ _ (sendMessage_connected env jid text s a Ha Hok)).
    rewrite posted_texts_app, posted_texts_posts. apply app_nil_r. }
  rewrite Hsent. clear Hsent sent. split.
  - destruct (Nat.leb_spec (length text) MAX_LENGTH) as [Hle|Hgt];
      unfold MAX_LENGTH in *.
    + cbn [length].
      assert ((length text + 3999) / 4000 <= 1)
        by (apply Nat.lt_succ_r, Nat.Div0.div_lt_upper_bound; lia).
      lia.
    + pose proof (slices_count (length text) text 0 ltac:(lia)) as [H1 H2].
      unfold MAX_LENGTH in *.
      set (n := length (slices (length text) text 0)) in *.
      assert (Hn : (length text + 3999) / 4000 = n).
      { symmetry. apply Nat.div_unique with (r := length text + 3999 - 4000 * n); lia. }
      rewrite Hn. lia.
  - by intros ->.
Qed.

Lemma sendMessage_call_count_witness :
  app Sample.connected = Some Sample.the_app
  /\ (forall n, post_ok Sample.env_up n = true)
  /\ length (posted_texts
               (emitted (sendMessage Sample.env_up (js "slack:U100200300")
                           (replicate 8001 120%N)) Sample.connected)) = 3.
Proof.
  split; [reflexivity|]. split; [intros n; reflexivity|].
  destruct (sendMessage_call_count Sample.env_up Sample.connected
              Sample.the_app (js "slack:U100200300") (replicate 8001 120%N)
              eq_refl (fun _ => eq_refl)) as [H _].
  rewrite H. vm_compute. reflexivity.
Defined.

End SlackSending.

(* ===================================================================== *)
(** * Further properties of the CLI loop                                  *)
(* ===================================================================== *)

Section Turns.
Import Chat Transcript.
Variable env : Env.

Lemma with_last_token_cons (folder : jsstring) (o : ContainerOutput)
    (outs : list ContainerOutput) (table : gmap jsstring jsstring) :
  with_last_token folder (o :: outs) table
  = with_last_token folder outs (with_last_token folder [o] table).
Proof.
  unfold with_last_token. cbn [last_token].
  destruct (last_token outs) as [tok'|], (carried_token o) as [tok|];
    by rewrite ?insert_insert_eq.
Qed.

Lemma with_last_token_app (folder : jsstring)
    (outs1 : list ContainerOutput) :
  forall (outs2 : list ContainerOutput) (table : gmap jsstring jsstring),
  with_last_token folder (outs1 ++ outs2) table
  = with_last_token folder outs2 (with_last_token folder outs1 table).
Proof.
  induction outs1 as [|o outs1 IH]; intros outs2 table; [done|].
  rewrite <- app_comm_cons, with_last_token_cons, IH.
  by rewrite (with_last_token_cons folder o outs1).
Qed.

(** One streamed output: what it changes, field by field. *)
Lemma on_output_fields r s :
  exists s',
    on_output env r s = (Ok tt, s')
    /\ mailbox s' = mailbox s
    /\ activeProcess s' = activeProcess s
    /\ activeContainerName s' = activeContainerName s
    /\ sessions s' = with_last_token (groupFolder env) [r] (sessions s)
    /\ db_sessions s' = with_last_token (groupFolder env) [r] (db_sessions s)
    /\ trace s' = trace s ++ output_events env r.
Proof.
  rewrite on_output_run. eexists. split; [reflexivity|].
  unfold with_last_token, output_events, token_events. cbn [last_token].
  destruct (carried_token r) as [tok|]; simpl;
    rewrite <- ?app_assoc; by repeat split.
Qed.

Lemma stream_fields outs : forall s,
  exists s',
    for_each outs (on_output env) s = (Ok tt, s')
    /\ mailbox s' = mailbox s
    /\ activeProcess s' = activeProcess s
    /\ activeContainerName s' = activeContainerName s
    /\ sessions s' = with_last_token (groupFolder env) outs (sessions s)
    /\ db_sessions s'
       = with_last_token (groupFolder env) outs (db_sessions s)
    /\ trace s' = trace s ++ flat_map (output_events env) outs.
Proof.
  induction outs as [|o outs IH]; intros s.
  - exists s. rewrite app_nil_r. by repeat split.
  - cbn [for_each flat_map]. rewrite bind_unfold.
    destruct (on_output_fields o s)
      as (s1 & -> & Hm1 & Hp1 & Hn1 & Hs1 & Hd1 & Ht1).
    destruct (IH s1) as (s2 & -> & Hm2 & Hp2 & Hn2 & Hs2 & Hd2 & Ht2).
    exists s2. split; [done|].
    rewrite Hm2, Hp2, Hn2, Hs2, Hd2, Ht2, Hm1, Hp1, Hn1, Hs1, Hd1, Ht1.
    rewrite !(with_last_token_cons _ o outs), app_assoc.
    by repeat split.
Qed.

(** A whole turn, field by field. *)
Lemma turn_fields run s :
  exists s',
    turn env run s = (Ok tt, s')
    /\ mailbox s' = mailbox s
    /\ activeProcess s' = None
    /\ activeContainerName s' = None
    /\ sessions s'
       = with_last_token (groupFolder env) (received run) (sessions s)
    /\ db_sessions s'
       = with_last_token (groupFolder env) (received run) (db_sessions s)
    /\ trace s'
       = trace s
         ++ [WriteTasksSnapshot; WriteGroupsSnapshot;
             RunContainerAgent (sessions s !! groupFolder env)]
         ++ flat_map (output_events env) (streamed run)
         ++ match finish run with
            | Resolves o => token_events env o
            | Rejects _ => []
            end
         ++ failure_line (finish run)
         ++ [ConsoleLog []; Prompt].
Proof.
  unfold turn.
  rewrite bind_unfold, chat_emit_run, bind_unfold, chat_emit_run.
  rewrite bind_unfold. unfold get at 1.
  rewrite bind_unfold, try_catch_unfold, bind_unfold.
  unfold runContainerAgent.
  rewrite bind_unfold, chat_emit_run, bind_unfold.
  set (s1 := pushes _ (pushes _ (pushes _ s))).
  assert (Hlaunch : exists s2,
            match launched run with
            | Some (proc, name) => on_process proc name
            | None => ret tt
            end s1 = (Ok tt, s2)
            /\ mailbox s2 = mailbox s
            /\ db_sessions s2 = db_sessions s /\ sessions s2 = sessions s
            /\ trace s2 = trace s1).
  { destruct (launched run) as [[proc name]|]; by eexists. }
  destruct Hlaunch as (s2 & -> & Hm2 & Hd2 & Hs2 & Ht2).
  rewrite bind_unfold.
  destruct (stream_fields (streamed run) s2)
    as (s3 & -> & Hm3 & _ & _ & Hs3 & Hd3 & Ht3).
  unfold received. rewrite !with_last_token_app.
  rewrite Hs2 in Hs3. rewrite Hd2 in Hd3. rewrite Hm2 in Hm3.
  assert (Ht : trace s3 = trace s
                 ++ [WriteTasksSnapshot; WriteGroupsSnapshot;
                     RunContainerAgent (sessions s !! groupFolder env)]
                 ++ flat_map (output_events env) (streamed run)).
  { rewrite Ht3, Ht2. unfold s1. simpl. by rewrite <- !app_assoc. }
  rewrite <- Hs3, <- Hd3, <- Hm3.
  clearbody s1. clear Hm2 Hm3 Hs2 Hd2 Hs3 Hd3 Ht2 Ht3.
  destruct (finish run) as [o|e].
  - unfold ret at 1. rewrite on_final_run.
    rewrite bind_unfold. unfold modify at 1.
    rewrite bind_unfold, chat_emit_run, chat_emit_run.
    eexists. split; [reflexivity|].
    unfold with_last_token, token_events, failure_line. cbn [last_token].
    destruct (carried_token o) as [tok|]; simpl; rewrite Ht;
      rewrite <- ?app_assoc; by repeat split.
  - unfold throw at 1. rewrite chat_emit_run.
    rewrite bind_unfold. unfold modify at 1.
    rewrite bind_unfold, chat_emit_run, chat_emit_run.
    eexists. split; [reflexivity|].
    unfold with_last_token, failure_line. cbn [last_token]. simpl. rewrite Ht.
    rewrite <- ?app_assoc. by repeat split.
Qed.

End Turns.

Section TurnFacts.
Import Chat Transcript.

Lemma chat_emitted_trace {A} (m : M State A) (s s' : State)
    (a : outcome A) (es : list event) :
  m s = (a, s') -> trace s' = trace s ++ es -> emitted m s = es.
Proof.
  intros Hrun Ht. unfold emitted, final. rewrite Hrun. simpl.
  by rewrite Ht, drop_app_length.
Qed.

Lemma filter_surfaced_outputs env outs :
  List.filter is_surfaced (flat_map (output_events env) outs)
  = flat_map (printed env) outs.
Proof.
  induction outs as [|o outs IH]; [done|].
  cbn [flat_map]. rewrite List.filter_app, IH. f_equal.
  unfold output_events, token_events. rewrite List.filter_app.
  replace (List.filter is_surfaced
             match carried_token o with
             | Some tok => [SetSession (groupFolder env) tok]
             | None => []
             end) with (@nil event) by by destruct (carried_token o).
  rewrite app_nil_l. apply List.forallb_filter_id.
  apply List.forallb_forall. intros e He.
  pose proof (printed_surfaced env o) as H.
  rewrite Forall_forall in H. apply H. by apply list_elem_of_In.
Qed.

Lemma filter_run_outputs env outs :
  List.filter is_run (flat_map (output_events env) outs) = [].
Proof.
  induction outs as [|o outs IH]; [done|].
  cbn [flat_map]. rewrite List.filter_app, IH, app_nil_r.
  unfold output_events, token_events, printed. rewrite List.filter_app.
  destruct (carried_token o), (result o) as [|raw|str];
    repeat match goal with |- context [if ?b then _ else _] => destruct b end;
    done.
Qed.

(** The general shape of [cleanup]. *)
Lemma cleanup_fields env s :
  exists mid,
    cleanup env s = (Ok tt, pushes (ClearInterval :: mid ++ [Exit 0]) s)
    /\ ((forall p, activeProcess s = Some p -> killed p = true) -> mid = [])
    /\ (forall e, In e mid ->
          e = StdinWrite close_sentinel \/ e = StdinEnd
          \/ exists name, e = ContainerStop name)
    /\ (forall name, In (ContainerStop name) mid <->
          (exists p, activeProcess s = Some p /\ killed p = false)
          /\ activeContainerName s = Some name /\ truthy name = true)
    /\ (In (StdinWrite close_sentinel) mid <->
          exists p, activeProcess s = Some p /\ killed p = false
                    /\ has_stdin p = true).
Proof.
  unfold cleanup. rewrite bind_unfold, chat_emit_run, bind_unfold.
  unfold get at 1. rewrite bind_unfold.
  destruct (activeProcess s) as [p|] eqn:Hp.
  2:{ cbn [activeProcess pushes]. rewrite Hp.
      unfold ret at 1. rewrite chat_emit_run, chat_pushes_pushes.
      exists []. split; [done|]. split; [done|]. split; [by intros e []|].
      split; [split; [by intros []|by intros [(p & Hq & _) _]]|].
      split; [by intros []|by intros (p & Hq & _)]. }
  cbn [activeProcess pushes]. rewrite Hp.
  destruct (killed p) eqn:Hk; cbn [negb].
  { unfold ret at 1. rewrite chat_emit_run, chat_pushes_pushes.
    exists []. split; [done|]. split; [done|]. split; [by intros e []|].
    split; [split; [by intros []|]|split; [by intros []|]].
    - intros [(q & Hq & Hq') _]. congruence.
    - intros (q & Hq & Hq' & _). congruence. }
  rewrite bind_unfold.
  assert (Hsent : exists w,
            try_catch (stdin_write env p close_sentinel >> stdin_end env p)
                      (fun _ => ret tt) (pushes [ClearInterval] s)
            = (Ok tt, pushes w (pushes [ClearInterval] s))
            /\ (has_stdin p = true ->
                  exists rest, w = StdinWrite close_sentinel :: rest
                    /\ (rest = [] \/ rest = [StdinEnd]))
            /\ (has_stdin p = false -> w = [])).
  { destruct (has_stdin p) eqn:Hs.
    - rewrite sentinel_step_run by done. eexists. split; [reflexivity|].
      split; [|done]. intros _. eexists. split; [reflexivity|].
      destruct (stdin_write_ok env); auto.
    - exists []. rewrite chat_pushes_nil. split; [|done].
      rewrite try_catch_unfold, bind_unfold.
      unfold stdin_write, stdin_end. by rewrite Hs. }
  destruct Hsent as (w & -> & Hw1 & Hw0).
  assert (Hstop : exists k,
            match activeContainerName s with
            | Some name =>
                if truthy name
                then try_catch (container_stop env name) (fun _ => ret tt)
                else ret tt
            | None => ret tt
            end (pushes w (pushes [ClearInterval] s))
            = (Ok tt, pushes k (pushes w (pushes [ClearInterval] s)))
            /\ (forall name, In (ContainerStop name) k <->
                  activeContainerName s = Some name /\ truthy name = true)
            /\ (forall e, In e k -> exists name, e = ContainerStop name)).
  { destruct (activeContainerName s) as [name|] eqn:Hn.
    - destruct (truthy name) eqn:Ht.
      + rewrite stop_step_run. exists [ContainerStop name].
        split; [done|]. split.
        * intros n. split.
          -- intros [H|[]]. by inversion H; subst.
          -- intros [H _]. inversion H; subst. by left.
        * intros e [<-|[]]. by eexists.
      + exists []. rewrite chat_pushes_nil. split; [done|]. split.
        * intros n. split; [by intros []|]. intros [H H']. congruence.
        * by intros e [].
    - exists []. rewrite chat_pushes_nil. split; [done|]. split.
      + intros n. split; [by intros []|]. by intros [H _].
      + by intros e []. }
  destruct Hstop as (k & Hstop & Hkn & Hk').
  cbn [activeContainerName pushes]. rewrite Hstop.
  rewrite chat_emit_run, !chat_pushes_pushes.
  exists (w ++ k). split; [by rewrite <- !app_assoc|].
  split; [intros H; specialize (H p eq_refl); congruence|].
  split; [|split].
  - intros e He. apply in_app_or in He as [He|He].
    + destruct (has_stdin p) eqn:Hs.
      * destruct (Hw1 eq_refl) as (rest & -> & [-> | ->]);
          simpl in He; intuition.
      * rewrite (Hw0 eq_refl) in He. destruct He.
    + right. right. by apply Hk'.
  - intros name. rewrite in_app_iff, Hkn. split.
    + intros [Hin|H]; [|split; [by exists p|done]].
      exfalso. destruct (has_stdin p) eqn:Hs.
      * destruct (Hw1 eq_refl) as (rest & -> & [-> | ->]);
          simpl in Hin; intuition congruence.
      * rewrite (Hw0 eq_refl) in Hin. destruct Hin.
    + intros [_ H]. by right.
  - rewrite in_app_iff. split.
    + intros [Hin|Hin].
      * exists p. split; [done|]. split; [done|].
        destruct (has_stdin p) eqn:Hs; [done|].
        rewrite (Hw0 eq_refl) in Hin. destruct Hin.
      * apply Hk' in Hin as (name & Hin). discriminate.
    + intros (q & Hq & _ & Hs). left.
      assert (q = p) as -> by congruence.
      destruct (Hw1 Hs) as (rest & -> & _). by left.
Qed.

End TurnFacts.

Section TurnProperties.
Import Chat Transcript.

(** X12. A turn always comes back to the prompt.  Whatever the sandbox
    invocation does -- it may fail before the launch is confirmed, stream
    any outputs, resolve or be rejected -- the handler ends normally, its
    last two actions are the blank line and the prompt, and it has
    forgotten the child process and the container name; so a cancellation
    right after the turn neither writes to a child nor stops a container,
    it only clears the interval and exits. *)
Theorem turn_returns_to_prompt (env : Env) (run : AgentRun) (s : State) :
  Eff.result (turn env run) s = Ok tt
  /\ activeProcess (final (turn env run) s) = None
  /\ activeContainerName (final (turn env run) s) = None
  /\ (exists before,
        emitted (turn env run) s = before ++ [ConsoleLog []; Prompt])
  /\ emitted (cleanup env) (final (turn env run) s) = [ClearInterval; Exit 0].
Proof.
  destruct (turn_fields env run s)
    as (s' & Hrun & _ & Hp & Hn & _ & _ & Ht).
  unfold Eff.result, final. rewrite Hrun. cbn [fst snd].
  split; [done|]. split; [done|]. split; [done|]. split.
  - rewrite (chat_emitted_trace _ _ _ _ _ Hrun Ht).
    eexists. by rewrite !app_assoc.
  - by rewrite (chat_emitted_from _ _ _ _ _ eq_refl (cleanup_idle env s' Hp)).
Qed.

(** X13. What a turn shows to the user is, in this order: the replies of
    the streamed outputs, the error line if the turn failed (the
    invocation resolved with status [error], or was rejected), and one
    blank line.  In particular the result of the final output is never
    printed: only streamed outputs are. *)
Theorem turn_shows_streamed_replies (env : Env) (run : AgentRun) (s : State) :
  List.filter is_surfaced (emitted (turn env run) s)
  = flat_map (printed env) (streamed run)
    ++ failure_line (finish run)
    ++ [ConsoleLog []].
Proof.
  destruct (turn_fields env run s)
    as (s' & Hrun & _ & _ & _ & _ & _ & Ht).
  rewrite (chat_emitted_trace _ _ _ _ _ Hrun Ht).
  rewrite !List.filter_app, filter_surfaced_outputs.
  cbn [List.filter is_surfaced app]. f_equal.
  replace (List.filter is_surfaced
             match finish run with
             | Resolves o => token_events env o
             | Rejects _ => []
             end) with (@nil event).
  2:{ destruct (finish run) as [o|e]; [|done].
      unfold token_events. by destruct (carried_token o). }
  rewrite app_nil_l. f_equal.
  unfold failure_line.
  destruct (finish run) as [o|e]; [by destruct (status o) | done].
Qed.

(** X14. The sandbox is invoked exactly once per turn, and it is handed
    the session of the previous turn: the last token that turn received
    -- from a streamed output or from the final one, and from the streamed
    ones alone when the invocation was rejected -- or, when it received
    none, the session the folder had before. *)
Theorem next_turn_resumes_session (env : Env) (run1 run2 : AgentRun)
    (s : State) :
  List.filter is_run (emitted (turn env run2) (final (turn env run1) s))
  = [RunContainerAgent (resumed run1 (sessions s !! groupFolder env))].
Proof.
  destruct (turn_fields env run1 s)
    as (s1 & Hrun1 & _ & _ & _ & Hs1 & _ & _).
  unfold final at 1. rewrite Hrun1. cbn [snd].
  destruct (turn_fields env run2 s1)
    as (s2 & Hrun2 & _ & _ & _ & _ & _ & Ht2).
  rewrite (chat_emitted_trace _ _ _ _ _ Hrun2 Ht2).
  rewrite !List.filter_app, filter_run_outputs.
  replace (List.filter is_run
             match finish run2 with
             | Resolves o => token_events env o
             | Rejects _ => []
             end) with (@nil event).
  2:{ destruct (finish run2) as [o|e]; [|done].
      unfold token_events. by destruct (carried_token o). }
  replace (List.filter is_run (failure_line (finish run2)))
    with (@nil event).
  2:{ unfold failure_line.
      destruct (finish run2) as [o|e]; [by destruct (status o) | done]. }
  cbn [List.filter is_run app]. do 2 f_equal.
  rewrite Hs1. unfold resumed, with_last_token.
  destruct (last_token (received run1)) as [tok|]; [|done].
  by rewrite lookup_insert_eq.
Qed.

(** X15. The in-memory session table and the persisted one stay in step.
    If they agree before a line is handled they agree afterwards, whatever
    the line is and whatever the sandbox does; and handling a line changes
    the session of no folder but the loop's own. *)
Theorem session_tables_stay_in_step (env : Env) (line : jsstring)
    (run : AgentRun) (s : State) :
  sessions s = db_sessions s ->
  let s' := final (on_line env line run) s in
  sessions s' = db_sessions s'
  /\ forall folder, folder <> groupFolder env ->
       sessions s' !! folder = sessions s !! folder
       /\ db_sessions s' !! folder = db_sessions s !! folder.
Proof.
  intros Heq. unfold on_line, final.
  destruct (negb (truthy (trim line))).
  { rewrite chat_emit_run. by cbn. }
  destruct (JS.eqb (trim line) (js "exit") || JS.eqb (trim line) (js "quit")).
  { destruct (cleanup_fields env s) as (mid & -> & _). by cbn. }
  destruct (turn_fields env run s)
    as (s' & -> & _ & _ & _ & Hs & Hd & _).
  cbn [snd]. rewrite Hs, Hd, Heq. split; [done|].
  intros folder Hne. unfold with_last_token.
  destruct (last_token (received run)) as [tok|]; [|done].
  by rewrite !lookup_insert_ne.
Qed.

Lemma session_tables_stay_in_step_witness :
  sessions Sample.inbox = db_sessions Sample.inbox
  /\ sessions (final (on_line Sample.cli (js "hello") Fixture.good_run)
                 Sample.inbox)
     = db_sessions (final (on_line Sample.cli (js "hello") Fixture.good_run)
                      Sample.inbox).
Proof.
  split; [reflexivity|].
  exact (proj1 (session_tables_stay_in_step Sample.cli (js "hello")
                  Fixture.good_run Sample.inbox eq_refl)).
Defined.

Lemma trimStart_spaces (line : jsstring) :
  Forall (fun c => is_space c = true) line -> trimStart line = [].
Proof.
  induction 1 as [|c r Hc _ IH]; [done|]. simpl. by rewrite Hc.
Qed.

Lemma trim_blank (line : jsstring) :
  trim line = [] <-> Forall (fun c => is_space c = true) line.
Proof.
  split.
  - intros Ht. destruct (trim_spec line) as (l & r & Hl & Hsl & Hsr & _).
    rewrite Ht, app_nil_l in Hl. rewrite Hl. by apply Forall_app.
  - intros H. unfold trim. by rewrite trimStart_spaces.
Qed.

(** X16. A line is answered with the prompt alone exactly when it is
    blank -- empty, or made of white space and line terminators only.
    For a blank line nothing else happens: no snapshot is written and the
    sandbox is not invoked. *)
Theorem blank_line_only_prompts (env : Env) (line : jsstring)
    (run : AgentRun) (s : State) :
  emitted (on_line env line run) s = [Prompt]
  <-> Forall (fun c => is_space c = true) line.
Proof.
  rewrite <- trim_blank. unfold on_line.
  destruct (trim line) as [|c t] eqn:Ht; cbn [truthy negb].
  - split; [done|]. intros _.
    by rewrite (chat_emitted_from _ _ _ _ _ eq_refl (chat_emit_run Prompt s)).
  - split; [|done]. intros Hev. exfalso.
    destruct (JS.eqb (c :: t) (js "exit") || JS.eqb (c :: t) (js "quit")).
    + destruct (cleanup_fields env s) as (mid & Hrun & _).
      rewrite (chat_emitted_from _ _ _ _ _ eq_refl Hrun) in Hev.
      discriminate.
    + destruct (turn_fields env run s)
        as (s' & Hrun & _ & _ & _ & _ & _ & Htr).
      rewrite (chat_emitted_trace _ _ _ _ _ Hrun Htr) in Hev.
      discriminate.
Qed.

(** X17. Cancellation never fails and always ends the process.  In every
    state and whatever the best-effort calls do, [cleanup] returns
    normally; it first clears the polling interval and last exits with
    status 0, exactly once.  In between it writes the sentinel exactly
    when there is a child that was not killed and has an input stream,
    and stops a container exactly when there is a child that was not
    killed and a non-empty container name; with no child, or a killed
    one, it does nothing in between. *)
Theorem cleanup_always_exits (env : Env) (s : State) :
  Eff.result (cleanup env) s = Ok tt
  /\ exists mid,
       emitted (cleanup env) s = ClearInterval :: mid ++ [Exit 0]
       /\ (forall code, ~ In (Exit code) mid)
       /\ ~ In ClearInterval mid
       /\ ((forall p, activeProcess s = Some p -> killed p = true) ->
             mid = [])
       /\ (In (StdinWrite close_sentinel) mid <->
             exists p, activeProcess s = Some p /\ killed p = false
                       /\ has_stdin p = true)
       /\ (forall name, In (ContainerStop name) mid <->
             (exists p, activeProcess s = Some p /\ killed p = false)
             /\ activeContainerName s = Some name /\ truthy name = true).
Proof.
  destruct (cleanup_fields env s) as (mid & Hrun & Hidle & Hkind & Hstop & Hw).
  unfold Eff.result. rewrite Hrun. split; [done|].
  exists mid. rewrite (chat_emitted_from _ _ _ _ _ eq_refl Hrun).
  split; [done|]. split; [|split; [|done]].
  - intros code Hin. apply Hkind in Hin as [H|[H|(n & H)]]; discriminate.
  - intros Hin. apply Hkind in Hin as [H|[H|(n & H)]]; discriminate.
Qed.

End TurnProperties.

Section MailboxFacts.
Import Chat Transcript.

Lemma flat_map_nil {A B} (f : A -> list B) (l : list A) :
  (forall x, x ∈ l -> f x = []) -> flat_map f l = [].
Proof.
  induction l as [|x l IH]; intros H; [done|].
  cbn [flat_map]. rewrite (H x) by by left.
  apply IH. intros y Hy. apply H. by right.
Qed.

(** A file that the loop body gets through is deleted at the end. *)
Lemma poll_events_has_unlink env file body es :
  poll_events env file body = Some es -> In (Unlink file) es.
Proof.
  unfold poll_events. intros H.
  repeat match type of H with
         | context [match ?x with _ => _ end] => destruct x
         end;
    inversion H; subst; simpl; auto.
Qed.

(** A polling pass, file by file. *)
Lemma pass_fields env s dir :
  mailbox s = Some dir ->
  exists dir' evs,
    ipc_poll env s = (Ok tt, pushes evs (set_mailbox (Some dir') s))
    /\ (forall f,
          dir' !! f =
            match dir !! f with
            | Some body =>
                if endsWith f (js ".json") then
                  match poll_events env f body with
                  | Some _ => None
                  | None => Some body
                  end
                else Some body
            | None => None
            end)
    /\ (forall f,
          In (Unlink f) evs <->
          exists body es,
            dir !! f = Some body /\ endsWith f (js ".json") = true
            /\ poll_events env f body = Some es).
Proof.
  intros Hm. destruct (ipc_poll_run env s dir Hm) as (dir' & Hrun & Hd').
  exists dir', (flat_map (file_events env dir) (json_files dir)).
  split; [done|]. split.
  - intros f. rewrite Hd'. destruct (dir !! f) as [body|] eqn:Hf.
    + destruct (endsWith f (js ".json")) eqn:He.
      * rewrite decide_True
          by (apply elem_of_json_files; split; [by eexists | done]).
        done.
      * rewrite decide_False; [done|].
        intros Hin. apply elem_of_json_files in Hin as [_ Hin]. congruence.
    + by destruct (decide _).
  - intros f. split.
    + intros Hin. apply List.in_flat_map in Hin as (g & Hg & Hin).
      pose proof (file_events_unlink env dir g f Hin) as [-> Hsome].
      apply list_elem_of_In, elem_of_json_files in Hg as [[body Hb] He].
      rewrite Hb in Hsome. destruct Hsome as [es Hes].
      by exists body, es.
    + intros (body & es & Hb & He & Hes).
      apply List.in_flat_map. exists f. split.
      * apply list_elem_of_In, elem_of_json_files.
        split; [by eexists | done].
      * unfold file_events. rewrite Hb. cbn. rewrite Hes. cbn.
        by apply poll_events_has_unlink in Hes.
Qed.

End MailboxFacts.

Section MailboxProperties.
Import Chat Transcript.

(** X18. A second polling pass right after a pass does nothing.  Every
    file a pass gets through is gone afterwards, and every file it skips
    is skipped again with the same outcome: the second pass prints
    nothing, deletes nothing and leaves the state as it found it. *)
Theorem second_pass_is_silent (env : Env) (s : State) :
  ipc_poll env (final (ipc_poll env) s) = (Ok tt, final (ipc_poll env) s).
Proof.
  destruct (mailbox s) as [dir|] eqn:Hm.
  2:{ unfold final. rewrite (ipc_poll_no_directory env s Hm). cbn [snd].
      by apply ipc_poll_no_directory. }
  destruct (pass_fields env s dir Hm) as (dir1 & evs & Hrun & Hd1 & _).
  unfold final. rewrite Hrun. cbn [snd].
  set (s1 := pushes evs (set_mailbox (Some dir1) s)).
  destruct (pass_fields env s1 dir1 eq_refl) as (dir2 & evs2 & Hrun2 & Hd2 & Hu2).
  assert (Hskip : forall f body,
            dir1 !! f = Some body -> endsWith f (js ".json") = true ->
            poll_events env f body = None).
  { intros f body Hf He. rewrite Hd1 in Hf.
    destruct (dir !! f) as [b|]; [|done]. rewrite He in Hf.
    destruct (poll_events env f b) eqn:Hp; [done|]. congruence. }
  assert (dir2 = dir1) as ->.
  { apply map_eq. intros f. rewrite Hd2.
    destruct (dir1 !! f) as [body|] eqn:Hf; [|done].
    destruct (endsWith f (js ".json")) eqn:He; [|done].
    by rewrite (Hskip f body Hf He). }
  assert (evs2 = []) as ->.
  { destruct (ipc_poll_run env s1 dir1 eq_refl) as (d & Hrun' & _).
    rewrite Hrun' in Hrun2.
    assert (Ht : trace (pushes (flat_map (file_events env dir1)
                                  (json_files dir1))
                          (set_mailbox (Some d) s1))
                 = trace (pushes evs2 (set_mailbox (Some dir1) s1)))
      by congruence.
    cbn [trace pushes set_mailbox] in Ht.
    apply app_inv_head in Ht. rewrite <- Ht.
    apply flat_map_nil. intros f Hf.
    apply elem_of_json_files in Hf as [[body Hb] He].
    unfold file_events. rewrite Hb. cbn.
    by rewrite (Hskip f body Hb He). }
  rewrite Hrun2, chat_pushes_nil. by rewrite set_mailbox_same.
Qed.

(** X19. A polling pass removes exactly the files it unlinks, and only
    files of the mailbox whose name ends in [.json] are unlinked.  A file
    without a deletion in the pass is in the mailbox afterwards with the
    contents it had; in particular every file of another kind is. *)
Theorem pass_removes_what_it_unlinks (env : Env) (s : State)
    (dir : gmap jsstring FileBody) (file : jsstring) :
  mailbox s = Some dir ->
  let evs := emitted (ipc_poll env) s in
  let after := mailbox (final (ipc_poll env) s) ≫= (fun d => d !! file) in
  (In (Unlink file) evs ->
     endsWith file (js ".json") = true /\ is_Some (dir !! file)
     /\ after = None)
  /\ (~ In (Unlink file) evs -> after = dir !! file)
  /\ (endsWith file (js ".json") = false ->
        ~ In (Unlink file) evs /\ after = dir !! file).
Proof.
  intros Hm evs after.
  destruct (pass_fields env s dir Hm) as (dir' & es & Hrun & Hd & Hu).
  assert (Hevs : evs = es)
    by (unfold evs; by rewrite (chat_emitted_trace _ _ _ _ _ Hrun eq_refl)).
  assert (Hafter : after = dir' !! file)
    by (unfold after, final; by rewrite Hrun).
  rewrite Hevs, Hafter, Hd, Hu. clear Hevs Hafter.
  split; [|split].
  - intros (body & es' & Hb & He & Hp). rewrite Hb, He, Hp.
    split; [done|]. split; [by eexists | done].
  - intros Hno. destruct (dir !! file) as [body|]; [|done].
    destruct (endsWith file (js ".json")) eqn:He; [|done].
    destruct (poll_events env file body) as [es'|] eqn:Hp; [|done].
    destruct Hno. by exists body, es'.
  - intros He. rewrite He. split.
    + intros (body & es' & _ & He' & _). congruence.
    + by destruct (dir !! file).
Qed.

Lemma pass_removes_what_it_unlinks_witness :
  mailbox Fixture.other_inbox = Some Fixture.other_files
  /\ endsWith (js "notes.txt") (js ".json") = false
  /\ mailbox (final (ipc_poll Sample.cli) Fixture.other_inbox)
       ≫= (fun d => d !! js "notes.txt")
     = Fixture.other_files !! js "notes.txt".
Proof.
  split; [reflexivity|]. split; [reflexivity|].
  exact (proj2 (proj2 (proj2
           (pass_removes_what_it_unlinks Sample.cli Fixture.other_inbox
              Fixture.other_files (js "notes.txt") eq_refl))
           eq_refl)).
Defined.

(** X20. Envelopes that are not for the user are discarded without a
    word.  A file that parses to anything but [null] and is not a message
    with a text -- its [type] is not [message], or its [text] is missing
    or falsy -- is deleted by the loop body, and nothing is printed. *)
Theorem other_envelopes_are_discarded (env : Env) (s : State)
    (dir : gmap jsstring FileBody) (file : jsstring) (v : json) :
  mailbox s = Some dir ->
  dir !! file = Some (Parses v) ->
  v <> JNull ->
  (forall fields, v = JObj fields ->
     is_message (assoc (js "type") fields) = false
     \/ truthy_value (assoc (js "text") fields) = false) ->
  Eff.result (poll_file env file) s = Ok tt
  /\ emitted (poll_file env file) s = [Unlink file]
  /\ mailbox (final (poll_file env file) s) = Some (delete file dir).
Proof.
  intros Hm Hf Hnull Hobj.
  pose proof (poll_file_run env file s dir _ Hm Hf) as Hrun.
  assert (Hev : poll_events env file (Parses v) = Some [Unlink file]).
  { destruct v as [|b|z|t|items|fields]; try done.
    cbn [poll_events].
    destruct (is_message (assoc (js "type") fields)) eqn:Hty; [|done].
    destruct (Hobj fields eq_refl) as [H|H]; [congruence|].
    destruct (assoc (js "text") fields) as [x|]; [|done].
    destruct x as [|b|z|t|items|fs]; try by rewrite H.
    cbn [truthy_value] in H. by rewrite H, andb_false_r. }
  rewrite Hev in Hrun.
  split; [unfold Eff.result; by rewrite Hrun|].
  split; [eapply chat_emitted_from; [|exact Hrun]; reflexivity|].
  unfold final. by rewrite Hrun.
Qed.

Lemma other_envelopes_are_discarded_witness :
  mailbox Fixture.other_inbox = Some Fixture.other_files
  /\ emitted (poll_file Sample.cli (js "task.json")) Fixture.other_inbox
     = [Unlink (js "task.json")].
Proof.
  split; [reflexivity|].
  refine (proj1 (proj2
            (other_envelopes_are_discarded Sample.cli Fixture.other_inbox
               Fixture.other_files (js "task.json")
               (JObj [(js "type", JStr (js "schedule_task"))])
               eq_refl eq_refl _ _))).
  - discriminate.
  - intros fields H. inversion H; subst. by left.
Defined.

(** X21. A file does not have to be malformed to be stuck.  A file that
    parses to [null], or to a message whose [text] is truthy but not a
    string, makes the loop body throw after the parse; the exception is
    swallowed, so nothing is printed, the file is not deleted, and it is
    still in the mailbox with the same contents after a whole pass. *)
Theorem throwing_envelopes_are_kept (env : Env) (s : State)
    (dir : gmap jsstring FileBody) (file : jsstring) (v : json) :
  mailbox s = Some dir ->
  dir !! file = Some (Parses v) ->
  (v = JNull
   \/ exists fields x,
        v = JObj fields
        /\ is_message (assoc (js "type") fields) = true
        /\ assoc (js "text") fields = Some x
        /\ truthy_value (Some x) = true
        /\ forall t, x <> JStr t) ->
  poll_file env file s = (Ok tt, s)
  /\ mailbox (final (ipc_poll env) s) ≫= (fun d => d !! file)
     = Some (Parses v)
  /\ ~ In (Unlink file) (emitted (ipc_poll env) s).
Proof.
  intros Hm Hf Hv.
  assert (Hev : poll_events env file (Parses v) = None).
  { destruct Hv as [->|(fields & x & -> & Hty & Htx & Htr & Hns)]; [done|].
    cbn [poll_events]. rewrite Hty, Htx.
    destruct x as [|b|z|t|items|fs]; try by rewrite Htr.
    by destruct (Hns t). }
  pose proof (poll_file_run env file s dir _ Hm Hf) as Hrun.
  rewrite Hev in Hrun. split; [done|].
  destruct (pass_fields env s dir Hm) as (dir' & es & Hpass & Hd & Hu).
  split.
  - unfold final. rewrite Hpass. cbn [snd mailbox pushes set_mailbox].
    cbn. rewrite Hd, Hf, Hev. by destruct (endsWith file (js ".json")).
  - rewrite (chat_emitted_trace _ _ _ _ _ Hpass eq_refl), Hu.
    intros (body & es' & Hb & _ & Hp). congruence.
Qed.

Lemma throwing_envelopes_are_kept_witness :
  mailbox Fixture.other_inbox = Some Fixture.other_files
  /\ poll_file Sample.cli (js "odd.json") Fixture.other_inbox
     = (Ok tt, Fixture.other_inbox).
Proof.
  split; [reflexivity|].
  refine (proj1
            (throwing_envelopes_are_kept Sample.cli Fixture.other_inbox
               Fixture.other_files (js "odd.json")
               (JObj [(js "type", JStr (js "message")); (js "text", JNum 42)])
               eq_refl eq_refl _)).
  right. exists [(js "type", JStr (js "message")); (js "text", JNum 42)],
                (JNum 42).
  repeat split; try reflexivity. discriminate.
Defined.

End MailboxProperties.

(* ===================================================================== *)
(** * Further properties of the shown text and of the start-up            *)
(* ===================================================================== *)

Section ShownText.

Lemma after_close_sublist (s rest : jsstring) :
  after_close s = Some rest -> rest `sublist_of` s.
Proof.
  intros H. destruct (after_close_spec s rest H) as (mid & Hs & _).
  rewrite Hs. by do 2 apply sublist_inserts_l.
Qed.

Lemma strip_internal_from_sublist (fuel : nat) : forall s : jsstring,
  strip_internal_from fuel s `sublist_of` s.
Proof.
  induction fuel as [|fuel IH]; intros s.
  - by destruct s.
  - destruct s as [|c r]; [done|].
    cbn [strip_internal_from].
    destruct (startsWith (c :: r) open_tag); [|by apply sublist_skip].
    destruct (after_close (drop (length open_tag) (c :: r))) as [rest|] eqn:Ha;
      [|by apply sublist_skip].
    etrans; [apply IH|].
    etrans; [by apply after_close_sublist|]. apply sublist_drop.
Qed.

(** X22. The text shown for a reply is cut out of the reply: it is a
    subsequence of the raw text -- code units are only ever removed, never
    added, changed or reordered -- and it neither starts nor ends with
    white space. *)
Theorem visible_text_is_cut_out (raw : jsstring) :
  visible_text raw `sublist_of` raw
  /\ length (visible_text raw) <= length raw
  /\ (forall c t, visible_text raw = c :: t -> is_space c = false)
  /\ (forall t c, visible_text raw = t ++ [c] -> is_space c = false).
Proof.
  assert (Hsub : visible_text raw `sublist_of` raw).
  { unfold visible_text.
    transitivity (strip_internal raw); [|apply strip_internal_from_sublist].
    destruct (trim_spec (strip_internal raw)) as (l & r & Hs & _).
    assert (H : trim (strip_internal raw)
                `sublist_of` l ++ trim (strip_internal raw) ++ r)
      by (by apply sublist_inserts_l, sublist_inserts_r).
    by rewrite <- Hs in H. }
  split; [done|]. split; [by apply sublist_length|].
  unfold visible_text.
  destruct (trim_spec (strip_internal raw)) as (l & r & _ & _ & _ & H1 & H2).
  by split.
Qed.

End ShownText.

Section StartUp.
Import Cli.

Lemma indexOf_from_spec (x : jsstring) (args : list jsstring) : forall i,
  match indexOf_from i args x with
  | Some j =>
      exists before after,
        args = before ++ x :: after /\ x ∉ before /\ j = i + length before
  | None => x ∉ args
  end.
Proof.
  induction args as [|a rest IH]; intros i; cbn [indexOf_from].
  - apply not_elem_of_nil.
  - unfold JS.eqb. destruct (bool_decide_reflect (a = x)) as [->|Hne].
    + exists [], rest. split; [done|]. split; [apply not_elem_of_nil|].
      cbn [length]. lia.
    + specialize (IH (S i)).
      destruct (indexOf_from (S i) rest x) as [j|].
      * destruct IH as (before & after & -> & Hnot & ->).
        exists (a :: before), after. split; [done|]. split.
        -- apply not_elem_of_cons. split; [congruence | done].
        -- cbn [length]. lia.
      * apply not_elem_of_cons. split; [congruence | done].
Qed.

(** X23. [parseArgs] reads the folder after the first [--group] among
    the arguments proper (the first two entries of [argv] are not
    arguments).  Without a [--group] the folder is the main one; with
    one, it is the entry that follows the first [--group], and the main
    folder again when nothing follows or an empty string does. *)
Theorem parseArgs_first_group (MAIN : jsstring) (argv : list jsstring) :
  (js "--group" ∉ drop 2 argv /\ parseArgs MAIN argv = MAIN)
  \/ exists before after,
       drop 2 argv = before ++ js "--group" :: after
       /\ js "--group" ∉ before
       /\ parseArgs MAIN argv =
            match after with
            | v :: _ => if truthy v then v else MAIN
            | [] => MAIN
            end.
Proof.
  unfold parseArgs, indexOf.
  pose proof (indexOf_from_spec (js "--group") (drop 2 argv) 0) as H.
  destruct (indexOf_from 0 (drop 2 argv) (js "--group")) as [j|];
    [right | by left].
  destruct H as (before & after & Hargs & Hnot & ->).
  exists before, after. split; [done|]. split; [done|].
  rewrite Hargs. cbn [Nat.add].
  replace (length before + 1) with (length before + 1 + 0) by lia.
  rewrite <- Nat.add_assoc, lookup_app_r by lia.
  replace (length before + (1 + 0) - length before) with 1 by lia.
  by destruct after.
Qed.

(** X24. [findGroupByFolder] returns the first registered group, in the
    order of the object, whose folder is the requested one, and nothing
    exactly when no registered group has that folder. *)
Theorem findGroupByFolder_first_match
    (entries : list (jsstring * Slack.RegisteredGroup))
    (folder : jsstring) :
  match findGroupByFolder entries folder with
  | Some (jid, group) =>
      exists before after,
        entries = before ++ (jid, group) :: after
        /\ Slack.folder group = folder
        /\ Forall (fun e => Slack.folder e.2 <> folder) before
  | None => Forall (fun e => Slack.folder e.2 <> folder) entries
  end.
Proof.
  induction entries as [|[jid group] rest IH]; cbn [findGroupByFolder].
  - constructor.
  - unfold JS.eqb.
    destruct (bool_decide_reflect (Slack.folder group = folder)) as [Heq|Hne].
    + exists [], rest. split; [done|]. split; [done|]. constructor.
    + destruct (findGroupByFolder rest folder) as [[j g]|].
      * destruct IH as (before & after & -> & Hf & Hall).
        exists ((jid, group) :: before), after.
        split; [done|]. split; [done|]. by constructor.
      * by constructor.
Qed.

End StartUp.

(* ===================================================================== *)
(** * Further properties of the watchdog                                  *)
(* ===================================================================== *)

Section WatchdogProperties.
Import Watchdog.
Local Open Scope Z_scope.

Lemma examine_stop_age now name age :
  examine now name = Stop age -> max_age_seconds < age.
Proof.
  unfold examine. destruct (grep_epoch name) as [digits|]; [|done].
  destruct (bash_number digits) as [e| |]; try done.
  destruct (Z.gtb_spec (sub64 now (div64 e 1000)) max_age_seconds) as [Hgt|Hle];
    intros Hv; inversion Hv; subst; lia.
Qed.

Lemma reap_pairs now names :
  exists stopped : list (string * Z),
    reap now names
    = flat_map (fun p => [Log (StoppingStale p.1 p.2); ContainerStop p.1])
               stopped
    /\ Forall (fun p => In p.1 names /\ examine now p.1 = Stop p.2) stopped.
Proof.
  induction names as [|name rest (stopped & Hrun & Hall)];
    [by exists []|].
  assert (Hrest : Forall (fun p => In p.1 (name :: rest)
                                   /\ examine now p.1 = Stop p.2) stopped).
  { eapply Forall_impl; [exact Hall|]. intros p [H1 H2]. split; [by right|done]. }
  cbn [reap]. destruct (examine now name) as [| |age|age] eqn:Hex.
  - by exists stopped.
  - exists []. by split.
  - by exists stopped.
  - exists ((name, age) :: stopped). split.
    + cbn [flat_map fst snd app]. by rewrite Hrun.
    + constructor; [|done]. split; [by left | done].
Qed.

Lemma running_nanoclaw_In name cs :
  In name (running_nanoclaw cs) ->
  exists c, In c cs /\ id c = name /\ status c = "running"%string
            /\ String.prefix "nanoclaw-" name = true.
Proof.
  unfold running_nanoclaw. intros H.
  apply List.in_map_iff in H as (c & <- & H).
  apply List.filter_In in H as [Hin Hc].
  apply andb_true_iff in Hc as [Hs Hp].
  exists c. split; [done|]. split; [done|].
  split; [by apply String.eqb_eq | done].
Qed.

(** X25. The reaper stops nothing but stale sandbox instances.  What the
    sweep does is a sequence of pairs -- the log line for a container,
    then the stop of that very container -- and every container in it is
    listed as running, is named [nanoclaw-...], and had an age above 3900
    seconds when it was examined; the sweep itself never kills the host
    process. *)
Theorem reaper_stops_only_stale_instances (now : Z) (cs : list Container) :
  exists stopped : list (string * Z),
    cleanup_containers now cs
    = flat_map (fun p => [Log (StoppingStale p.1 p.2); ContainerStop p.1])
               stopped
    /\ Forall (fun p =>
                 (exists c, In c cs /\ id c = p.1
                            /\ status c = "running"%string
                            /\ String.prefix "nanoclaw-" p.1 = true)
                 /\ examine now p.1 = Stop p.2
                 /\ max_age_seconds < p.2) stopped
    /\ existsb is_pkill (cleanup_containers now cs) = false.
Proof.
  unfold cleanup_containers.
  destruct (reap_pairs now (running_nanoclaw cs)) as (stopped & Hrun & Hall).
  exists stopped. split; [done|]. split; [|apply reap_no_pkill].
  eapply Forall_impl; [exact Hall|]. intros p [Hin Hex].
  split; [by apply running_nanoclaw_In|]. split; [done|].
  by apply examine_stop_age in Hex.
Qed.

Lemma reap_abandoned now bad before after :
  examine now bad = ArithError ->
  reap now (before ++ bad :: after) = reap now before.
Proof.
  intros Hbad. induction before as [|n before IH]; cbn [reap app].
  - by rewrite Hbad.
  - destruct (examine now n); by rewrite ?IH.
Qed.

Lemma running_nanoclaw_app cs1 cs2 :
  running_nanoclaw (cs1 ++ cs2) = running_nanoclaw cs1 ++ running_nanoclaw cs2.
Proof.
  unfold running_nanoclaw. by rewrite List.filter_app, List.map_app.
Qed.

(** X26. One unreadable name ends the sweep.  When the thirteen digits
    that end the name of a running sandbox instance are not a number for
    the shell -- they start with [0] and hold an [8] or a [9] -- the
    arithmetic fails and the function is abandoned: the sweep does what
    it would have done for the containers listed before that one, and no
    container listed after it is examined or stopped, however old. *)
Theorem unreadable_epoch_abandons_sweep (now : Z) (c : Container)
    (digits : string) (cs1 cs2 : list Container) :
  status c = "running"%string ->
  String.prefix "nanoclaw-" (id c) = true ->
  grep_epoch (id c) = Some digits ->
  bash_number digits = TooGreatForBase ->
  cleanup_containers now (cs1 ++ c :: cs2) = cleanup_containers now cs1.
Proof.
  intros Hs Hp Hg Hb. unfold cleanup_containers.
  rewrite running_nanoclaw_app.
  assert (Hc : running_nanoclaw (c :: cs2) = id c :: running_nanoclaw cs2).
  { unfold running_nanoclaw. cbn [List.filter]. rewrite Hs, Hp. done. }
  rewrite Hc. apply reap_abandoned.
  unfold examine. by rewrite Hg, Hb.
Qed.

Lemma unreadable_epoch_abandons_sweep_witness :
  grep_epoch Fixture.unreadable = Some "0000000000089"%string
  /\ bash_number "0000000000089" = TooGreatForBase
  /\ cleanup_containers 1700000000
       ({| id := Fixture.unreadable; status := "running" |}
        :: Fixture.stale_listing) = []
  /\ cleanup_containers 1700000000 Fixture.stale_listing
     = [Log (StoppingStale "nanoclaw-old-1600000000000" 100000000);
        ContainerStop "nanoclaw-old-1600000000000"].
Proof.
  split; [reflexivity|]. split; [reflexivity|]. split; [|reflexivity].
  exact (unreadable_epoch_abandons_sweep 1700000000
           {| id := Fixture.unreadable; status := "running" |}
           "0000000000089" [] Fixture.stale_listing
           eq_refl eq_refl eq_refl eq_refl).
Defined.

(** X27. Staleness only grows with the clock.  For a heartbeat file that
    holds a time stamp, a run that kills the host process would also kill
    it at any later time of the clock; and a heartbeat that is not in the
    past -- the clock of the check, in milliseconds, has not passed it --
    never gets the host killed. *)
Theorem staleness_is_monotone (now now' beat : Z) (contents : string) :
  0 <= now <= now' ->
  now' * 1000 < 2 ^ 63 ->
  decimal_of (command_subst contents) = Some beat ->
  beat < 2 ^ 63 ->
  (terminates_host (check_heartbeat now (Some contents)) = true ->
   terminates_host (check_heartbeat now' (Some contents)) = true)
  /\ (now * 1000 <= beat ->
      terminates_host (check_heartbeat now (Some contents)) = false).
Proof.
  intros Hnow Hmax Hbeat Hb.
  rewrite (check_heartbeat_numeral now contents beat) by (done || lia).
  rewrite (check_heartbeat_numeral now' contents beat) by (done || lia).
  assert (Hmono : Z.quot (now * 1000 - beat) 1000
                  <= Z.quot (now' * 1000 - beat) 1000)
    by (apply Z.quot_le_mono; lia).
  split.
  - destruct (Z.gtb_spec (Z.quot (now * 1000 - beat) 1000) MAX_STALE_SECONDS);
      [|done].
    intros _.
    destruct (Z.gtb_spec (Z.quot (now' * 1000 - beat) 1000) MAX_STALE_SECONDS);
      [done | lia].
  - intros Hfuture.
    assert (Z.quot (now * 1000 - beat) 1000 <= 0)
      by (apply Z.quot_le_upper_bound; lia).
    destruct (Z.gtb_spec (Z.quot (now * 1000 - beat) 1000) MAX_STALE_SECONDS);
      [unfold MAX_STALE_SECONDS in *; lia | done].
Qed.

Lemma staleness_is_monotone_witness :
  decimal_of (command_subst "1700000000000") = Some 1700000000000
  /\ terminates_host (check_heartbeat 1700000302 (Some "1700000000000"%string))
     = true
  /\ terminates_host (check_heartbeat 1700009999 (Some "1700000000000"%string))
     = true.
Proof.
  split; [reflexivity|]. split; [reflexivity|].
  refine (proj1 (staleness_is_monotone 1700000302 1700009999 1700000000000
                   "1700000000000" _ _ eq_refl _) eq_refl); lia.
Defined.

(** X28. The sweep runs whatever the heartbeat says, and only the sweep
    stops containers.  This is for a heartbeat file that is absent or
    holds nothing but digits before its trailing line breaks -- an empty
    file included; other contents the shell would evaluate as an
    arithmetic expression, which is outside this model.  For such a file
    a run of the script does the whole sweep first and then what the
    heartbeat check adds: nothing, one of the two log lines for a missing
    or an empty heartbeat file, or -- for a heartbeat older than 300
    seconds -- the log line, one kill of the host process, and the closing
    log line.  So the containers a run stops are those the sweep stops,
    and a run kills the host at most once. *)
Theorem watchdog_reaps_regardless (t_reaper t_check : Z)
    (cs : list Container) (file : option string) :
  (file = None
   \/ exists contents,
        file = Some contents
        /\ forallb is_digit (list_ascii_of_string (command_subst contents))
           = true) ->
  exists tail,
    check_heartbeat t_check file = Some tail
    /\ watchdog t_reaper t_check cs file
       = Some (cleanup_containers t_reaper cs ++ tail)
    /\ (forall name,
          stops name (cleanup_containers t_reaper cs ++ tail)
          = stops name (cleanup_containers t_reaper cs))
    /\ ((tail = [Log NoHeartbeatFile] /\ file = None)
        \/ (tail = [Log HeartbeatEmpty]
            /\ exists contents,
                 file = Some contents
                 /\ command_subst contents = EmptyString)
        \/ (exists contents,
              file = Some contents /\ command_subst contents <> EmptyString)
           /\ (tail = []
               \/ exists age_s,
                    MAX_STALE_SECONDS < age_s
                    /\ tail = [Log (StaleHeartbeat age_s);
                               Pkill "node.*dist/index.js"; Log Killed])).
Proof.
  intros Hfile.
  assert (Hshape : exists tail,
            check_heartbeat t_check file = Some tail
            /\ ((tail = [Log NoHeartbeatFile] /\ file = None)
                \/ (tail = [Log HeartbeatEmpty]
                    /\ exists contents,
                         file = Some contents
                         /\ command_subst contents = EmptyString)
                \/ (exists contents,
                      file = Some contents
                      /\ command_subst contents <> EmptyString)
                   /\ (tail = []
                       \/ exists age_s,
                            MAX_STALE_SECONDS < age_s
                            /\ tail = [Log (StaleHeartbeat age_s);
                                       Pkill "node.*dist/index.js";
                                       Log Killed]))).
  { destruct Hfile as [->|(contents & -> & Hdigits)].
    { exists [Log NoHeartbeatFile]. split; [done|]. by left. }
    unfold check_heartbeat.
    destruct (String.eqb_spec (command_subst contents) EmptyString)
      as [Hempty|Hfull].
    { exists [Log HeartbeatEmpty]. split; [done|]. right. left.
      split; [done|]. by exists contents. }
    assert (Hsome : exists contents0,
              Some contents = Some contents0
              /\ command_subst contents0 <> EmptyString)
      by by exists contents.
    unfold bash_number. rewrite Hdigits.
    destruct (list_ascii_of_string (command_subst contents))
      as [|d rest] eqn:Hds.
    { destruct Hfull. by destruct (command_subst contents). }
    destruct (if Ascii.eqb d "0" then read_base 8 0 rest
              else read_base 10 0 (d :: rest)) as [z|].
    - destruct (Z.gtb_spec
                  (div64 (sub64 (mul64 t_check 1000) (wrap64 z)) 1000)
                  MAX_STALE_SECONDS).
      + eexists. split; [reflexivity|]. right. right. split; [done|].
        right. eexists. split; [|reflexivity]. lia.
      + exists []. split; [done|]. right. right. split; [done|]. by left.
    - destruct (Z.gtb_spec (div64 0 1000) MAX_STALE_SECONDS).
      + eexists. split; [reflexivity|]. right. right. split; [done|].
        right. eexists. split; [|reflexivity]. lia.
      + exists []. split; [done|]. right. right. split; [done|]. by left. }
  destruct Hshape as (tail & Hcheck & Hshape).
  exists tail. split; [done|].
  split; [unfold watchdog; by rewrite Hcheck|].
  split; [|done].
  intros name. unfold stops. rewrite existsb_app.
  destruct Hshape as [[-> _]|[[-> _]|[_ [->|(age & _ & ->)]]]];
    cbn [existsb]; by rewrite ?orb_false_r.
Qed.

Lemma watchdog_reaps_regardless_witness :
  forallb is_digit (list_ascii_of_string (command_subst "1700000000000"))
  = true
  /\ watchdog 1700000000 1700000400 Fixture.stale_listing
       (Some "1700000000000"%string)
     = Some [Log (StoppingStale "nanoclaw-old-1600000000000" 100000000);
             ContainerStop "nanoclaw-old-1600000000000";
             Log (StaleHeartbeat 400); Pkill "node.*dist/index.js";
             Log Killed]
  /\ stops "nanoclaw-old-1600000000000"
       (cleanup_containers 1700000000 Fixture.stale_listing) = true.
Proof.
  split; [reflexivity|]. split; [reflexivity|].
  destruct (watchdog_reaps_regardless 1700000000 1700000400
              Fixture.stale_listing (Some "1700000000000"%string)
              (or_intror (ex_intro _ "1700000000000"%string
                            (conj eq_refl eq_refl))))
    as (tail & _ & _ & Hstops & _).
  rewrite <- Hstops. unfold stops. rewrite existsb_app.
  apply orb_true_iff. left. reflexivity.
Defined.

End WatchdogProperties.
